(** * svelte-tiny-virtual-list: the scroll coordinator of the VirtualList component

    A shallow embedding of the three variants of the [VirtualList] Svelte
    component found in the repository:

    - [Adaptive]: the velocity- and direction-adaptive variant (debounce
      timer, end-of-scroll timer, one tracked animation frame);
    - [Basic]: the debounce-only variant ([src/VirtualList.svelte]);
    - [Plain]: the variant that requests an animation frame for every sample.

    JavaScript numbers are modelled as exact rationals ([Q]) where they are
    measured in pixels or are ratios (offsets, sizes, velocity, overscan) and
    as integers ([Z]) where the program only produces integers
    ([Date.now()], [Math.sign], [Math.ceil], counts).  [NaN] and the
    infinities are outside the model.  Timer and frame handles are positive
    integers, as in browsers, so a handle is always truthy.

    The component's calls to collaborators that are not part of these files
    (the size-and-position manager, the DOM, the event dispatcher) are
    recorded in an effect log; what the component reads back from the browser
    is supplied as an environment record.

    The rendering side is modelled after the coordinator: the style cache and
    [getStyle], the loops that build [visibleItems] and the container styles
    ([AdaptiveView] for the adaptive variant, [BasicView] for the two simpler
    ones), and [getDistanceToParent] over the chain of offset parents.  Style
    texts are built as strings; the conversion of a number to text is a
    parameter of those definitions. *)

From Stdlib Require Import ZArith QArith Qround Qminmax Qabs Lia Lqa.
From stdpp Require Import gmap list strings.

Local Open Scope Z_scope.

(** ** JavaScript arithmetic used by the component *)

(** [Math.sign] on a finite number. *)
Definition Math_sign (x : Q) : Z := Z.sgn (Qnum x).

(** [Math.ceil] followed by the implicit conversion back to a number. *)
Definition Math_ceil (x : Q) : Q := inject_Z (Qceiling x).

(** [x < y] on numbers. *)
Definition Qlt_bool (x y : Q) : bool := negb (Qle_bool y x).

(** [a || b] on numbers: [b] when [a] is [0], else [a]. *)
Definition num_or (a b : Q) : Q := if Qeq_bool a 0 then b else a.

(** ** Enumerations

    The module [./constants] is not among the sources.  [DIRECTION] and
    [WRAPPER_MODE] are taken to enumerate the values of the type aliases
    [Direction] and [WrapperMode] declared at the top of the component, and
    [SCROLL_CHANGE_REASON] its two members used by the component. *)

Inductive Direction := vertical | horizontal.
Inductive WrapperMode := div | table.
Inductive ScrollBehaviour := behaviour_auto | smooth | instant.
Inductive Alignment := align_auto | align_start | align_center | align_end.
Inductive SCROLL_CHANGE_REASON := OBSERVED | REQUESTED.

(** The elements the component can scroll or measure ([document.body], its
    own wrapper [div], the element given as [container]) and what an event can
    target. *)
Inductive element := Body | Wrapper | Container.

Inductive target := Window | Document | Element (el : element).

#[global] Instance element_eq_dec : EqDecision element.
Proof. solve_decision. Defined.

#[global] Instance target_eq_dec : EqDecision target.
Proof. solve_decision. Defined.

#[global] Instance WrapperMode_eq_dec : EqDecision WrapperMode.
Proof. solve_decision. Defined.

#[global] Instance Direction_eq_dec : EqDecision Direction.
Proof. solve_decision. Defined.

#[global] Instance Alignment_eq_dec : EqDecision Alignment.
Proof. solve_decision. Defined.

#[global] Instance SCROLL_CHANGE_REASON_eq_dec : EqDecision SCROLL_CHANGE_REASON.
Proof. solve_decision. Defined.

(** [height] and [width] are [number | string]; only their truthiness matters
    to the functions modelled here. *)
Inductive Dim := DimNumber (n : Q) | DimEmptyString | DimText.

Definition truthy_dim (d : Dim) : bool :=
  match d with
  | DimNumber n => negb (Qeq_bool n 0)
  | DimEmptyString => false
  | DimText => true
  end.

(** [ItemSize = number | number[] | ItemSizeGetter]; an array or a function has
    an identity ([ref]), which is what [!==] compares. *)
Inductive ItemSize :=
| SizeNumber (n : Q)
| SizeArray (ref : nat) (sizes : list Q)
| SizeGetter (ref : nat) (f : nat -> Q).

(** [a !== b] on item sizes. *)
Definition itemSize_neq (a b : ItemSize) : bool :=
  match a, b with
  | SizeNumber x, SizeNumber y => negb (Qeq_bool x y)
  | SizeArray r _, SizeArray r' _ => negb (Nat.eqb r r')
  | SizeGetter r _, SizeGetter r' _ => negb (Nat.eqb r r')
  | _, _ => true
  end.

(** [size === 0]: only the number zero is strictly equal to [0]. *)
Definition is_zero_size (s : ItemSize) : bool :=
  match s with
  | SizeNumber n => Qeq_bool n 0
  | _ => false
  end.

(** ** The [expandItems] array and [onClick]

    A JavaScript array of booleans: a slot holds [Some b], or is a hole /
    [undefined] ([None]).  Reading past the end gives [undefined]; writing past
    the end extends the array with holes. *)

Abbreviation jsarray := (list (option bool)).

Definition js_get (a : jsarray) (i : nat) : option bool :=
  match a !! i with
  | Some v => v
  | None => None
  end.

(** [!x] for [x] a boolean or [undefined]. *)
Definition js_not (v : option bool) : bool :=
  match v with
  | Some b => negb b
  | None => true
  end.

Definition js_set (a : jsarray) (i : nat) (v : bool) : jsarray :=
  if decide (i < length a)%nat
  then <[i := Some v]> a
  else a ++ replicate (i - length a) None ++ [Some v].

(** [onClick(index)]; the three variants have the same text.  The index is an
    array index (a natural number). *)
Definition onClick (expandItemSize : ItemSize) (index : nat) (expandItems : jsarray)
  : jsarray :=
  if is_zero_size expandItemSize then expandItems
  else js_set expandItems index (js_not (js_get expandItems index)).

(** What a template reads: [expandItems[i] ? ... : ...]. *)
Definition js_truthy (v : option bool) : bool :=
  match v with
  | Some b => b
  | None => false
  end.

(** ** Collaborators: effect log, scheduler, environment *)

(** The object literal handed to [sizeAndPositionManager.updateConfig]. *)
Record ManagerConfig := {
  cfg_itemCount : Z;
  cfg_itemSize : ItemSize;
  cfg_expandItems : jsarray;
  cfg_expandItemSize : ItemSize;
  cfg_estimatedItemSize : Q;
  cfg_estimatedExpandItemSize : Q }.

(** Calls that leave the component.  [Render] stands for the construction of
    [visibleItems] and the [itemsUpdated] notification from the range the
    manager answered; an absent container size is [undefined]. *)
Inductive Effect :=
| MgrNew (c : ManagerConfig)
| MgrUpdateConfig (c : ManagerConfig)
| MgrResetItem (startIndex : Z)
| MgrGetVisibleRange (containerSize : option Q) (offset overscan : Q)
| MgrGetTotalSize
| MgrGetUpdatedOffsetForIndex (align : option Alignment) (containerSize : option Q)
    (currentOffset : Q) (index : Z)
| Render (range : option (Z * Z))
| DispatchAfterScroll (offset : Q)
| DomScroll (el : element) (axis : Direction) (value : Q) (behavior : ScrollBehaviour)
| DomSetScrollPosition (el : element) (axis : Direction) (value : Q).

(** Event listeners the component registers with [handleScroll]. *)
Inductive Listener :=
| OnWindowResize
| OnWindowScroll
| OnElementScroll (el : element).

#[global] Instance Listener_eq_dec : EqDecision Listener.
Proof. solve_decision. Defined.

(** The browser side: armed timers (with the time they are due), requested
    animation frames, the next handles, registered listeners, and the log.
    [T] and [F] are the types of the timer and frame callbacks (closures) of
    the variant. *)
Record Host (T F : Type) := mkHost {
  timers : gmap positive (Z * T);
  frames : gmap positive F;
  nextTimer : positive;
  nextFrame : positive;
  listeners : list Listener;
  log : list Effect }.

Arguments mkHost {T F}.
Arguments timers {T F}.
Arguments frames {T F}.
Arguments nextTimer {T F}.
Arguments nextFrame {T F}.
Arguments listeners {T F}.
Arguments log {T F}.

Section HostOps.
Context {T F : Type}.

Definition emptyHost : Host T F := mkHost ∅ ∅ 1%positive 1%positive [] [].

(** [setTimeout(cb, delay)] called at time [now]. *)
Definition setTimeout (cb : T) (delay now : Z) (h : Host T F) : positive * Host T F :=
  (nextTimer h,
   mkHost (<[nextTimer h := (now + delay, cb)]> (timers h)) (frames h)
          (Pos.succ (nextTimer h)) (nextFrame h) (listeners h) (log h)).

(** [clearTimeout(id)]: a no-op on a handle that is not armed. *)
Definition clearTimeout (id : positive) (h : Host T F) : Host T F :=
  mkHost (delete id (timers h)) (frames h) (nextTimer h) (nextFrame h)
         (listeners h) (log h).

Definition requestAnimationFrame (cb : F) (h : Host T F) : positive * Host T F :=
  (nextFrame h,
   mkHost (timers h) (<[nextFrame h := cb]> (frames h))
          (nextTimer h) (Pos.succ (nextFrame h)) (listeners h) (log h)).

Definition cancelAnimationFrame (id : positive) (h : Host T F) : Host T F :=
  mkHost (timers h) (delete id (frames h)) (nextTimer h) (nextFrame h)
         (listeners h) (log h).

(** [if (handle) clearTimeout(handle)] and its animation-frame twin. *)
Definition clearTimeout_if (v : option positive) (h : Host T F) : Host T F :=
  match v with
  | Some id => clearTimeout id h
  | None => h
  end.

Definition cancelAnimationFrame_if (v : option positive) (h : Host T F) : Host T F :=
  match v with
  | Some id => cancelAnimationFrame id h
  | None => h
  end.

Definition addEventListener (l : Listener) (h : Host T F) : Host T F :=
  mkHost (timers h) (frames h) (nextTimer h) (nextFrame h)
         (if decide (l ∈ listeners h) then listeners h else l :: listeners h)
         (log h).

Definition removeEventListener (l : Listener) (h : Host T F) : Host T F :=
  mkHost (timers h) (frames h) (nextTimer h) (nextFrame h)
         (filter (λ l', l' ≠ l) (listeners h)) (log h).

Definition emit (e : Effect) (h : Host T F) : Host T F :=
  mkHost (timers h) (frames h) (nextTimer h) (nextFrame h) (listeners h)
         (log h ++ [e]).

(** The timer [id] leaves the armed set when it fires. *)
Definition takeTimer (id : positive) (h : Host T F) : Host T F := clearTimeout id h.

Definition takeFrame (id : positive) (h : Host T F) : Host T F := cancelAnimationFrame id h.
End HostOps.

(** The listener through which a scroll of the element [el] reaches the
    component: the window when the page body scrolls, the element itself
    otherwise. *)
Definition scrollListenerOf (el : element) : Listener :=
  match el with
  | Body => OnWindowScroll
  | _ => OnElementScroll el
  end.

(** What a callback reads from the browser when it runs. *)
Record Env := {
  Date_now : Z;                 (* Date.now() *)
  pageYOffset : Q;              (* window.pageYOffset *)
  documentScrollTop : Q;        (* document.documentElement.scrollTop *)
  wrapperRectTop : Q;           (* wrapper.getBoundingClientRect().top *)
  scrollTop : Q;                (* scrollWrapper.scrollTop *)
  scrollLeft : Q;               (* scrollWrapper.scrollLeft *)
  distanceToParent : Q;         (* getDistanceToParent(wrapper, scrollWrapper) *)
  rectTop : Q;                  (* bounding box of the measured element *)
  rectBottom : Q;
  innerHeight : Q;              (* window.innerHeight *)
  wrapperOffsetTop : Q;         (* wrapper.offsetTop, 0 without a wrapper *)
  headerOffsetHeight : option Q;  (* offsetHeight of the header slot, if any *)
  hasScrollMethod : bool;       (* 'scroll' in scrollWrapper *)
  mgrVisibleRange : option (Z * Z);   (* answer of getVisibleRange *)
  mgrOffsetForIndex : Q               (* answer of getUpdatedOffsetForIndex *)
}.

(** [getVisibleHeight(element)]: [undefined] without an element. *)
Definition getVisibleHeight (element : option element) (e : Env) : option Q :=
  match element with
  | None => None
  | Some _ =>
      let visibleTop := Qmax (rectTop e) 0 in
      let visibleBottom := Qmin (rectBottom e) (innerHeight e) in
      let visibleHeight := (visibleBottom - visibleTop)%Q in
      Some (Qmax visibleHeight 0)
  end.

(** [scrollWrapper === document.body ? wrapper : scrollWrapper]. *)
Definition measuredElement (scrollWrapper : option element) : option element :=
  match scrollWrapper with
  | Some Body => Some Wrapper
  | other => other
  end.

(** [getWrapperOffset()]: the live scroll offset of the list ([wrapper] is
    bound once the component is in the document). *)
Definition getWrapperOffset (scrollWrapper : option element) (scrollDirection : Direction)
    (headerHeight : Q) (e : Env) : Q :=
  match scrollWrapper with
  | None => 0
  | Some Body =>
      let scrollTop := num_or (pageYOffset e) (documentScrollTop e) in
      let wrapperTop := (wrapperRectTop e + scrollTop)%Q in
      (scrollTop - wrapperTop - headerHeight)%Q
  | Some _ =>
      let scrollTop :=
        match scrollDirection with
        | vertical => scrollTop e
        | horizontal => scrollLeft e
        end in
      let wrapperTop := distanceToParent e in
      (scrollTop - wrapperTop - headerHeight)%Q
  end.

(** [event.target !== scrollWrapper && event.target !== document]. *)
Definition foreignTarget (target : target) (scrollWrapper : option element) : bool :=
  negb (bool_decide (Some target = Element <$> scrollWrapper))
  && negb (bool_decide (target = Document)).

(** [{ offset, scrollChangeReason }]. *)
Record ScrollState := {
  offset : Q;
  scrollChangeReason : SCROLL_CHANGE_REASON }.

(** [container: HTMLElement | "self" = null]. *)
Inductive ContainerProp :=
| ContainerNull
| ContainerSelf
| ContainerElement (el : element).

#[global] Instance ContainerProp_eq_dec : EqDecision ContainerProp.
Proof. solve_decision. Defined.

(** The [items] array as the component sees it: its identity and its length. *)
Record ItemsRef := {
  items_id : nat;
  items_length : nat }.

(** [a !== b] on [number | null]. *)
Definition optQ_neq (a b : option Q) : bool :=
  match a, b with
  | Some x, Some y => negb (Qeq_bool x y)
  | None, None => false
  | _, _ => true
  end.

(** The exported properties the modelled functions read.  [preloadScreens] and
    [scrollVelocityThreshold] exist in the adaptive variant only; [items] is
    compared by identity in the adaptive variant only. *)
Record Props := mkProps {
  container : ContainerProp;
  height : Dim;
  width : Dim;
  items : ItemsRef;
  itemCount : Z;
  itemSize : ItemSize;
  expandItemSize : ItemSize;
  estimatedItemSize : option Q;
  estimatedExpandItemSize : option Q;
  scrollDirection : Direction;
  scrollOffset : option Q;
  scrollToIndex : option Z;
  scrollToAlignment : option Alignment;
  scrollToBehaviour : ScrollBehaviour;
  overscanCount : Q;
  preloadScreens : Q;
  scrollVelocityThreshold : Q;
  mode : WrapperMode }.

Definition set_itemCount (v : Z) (c : Props) : Props :=
  mkProps (container c) (height c) (width c) (items c) v (itemSize c) (expandItemSize c) (estimatedItemSize c) (estimatedExpandItemSize c) (scrollDirection c) (scrollOffset c) (scrollToIndex c) (scrollToAlignment c) (scrollToBehaviour c) (overscanCount c) (preloadScreens c) (scrollVelocityThreshold c) (mode c).

(** * The velocity-adaptive variant *)

Module Adaptive.

Definition SCROLL_END_DELAY : Z := 150.
Definition SCROLL_DEBOUNCE : Z := 16.

(** The variables of the scroll coordinator. *)
Record Coord := mkCoord {
  lastScrollDirection : Z;
  scrollVelocity : Q;
  rafId : option positive;
  isScrolling : bool;
  scrollEndTimeout : option positive;
  scrollTimeout : option positive;
  lastScrollTime : Z;
  lastScrollOffset : Q }.

Definition set_lastScrollDirection (v : Z) (c : Coord) : Coord :=
  mkCoord v (scrollVelocity c) (rafId c) (isScrolling c) (scrollEndTimeout c) (scrollTimeout c) (lastScrollTime c) (lastScrollOffset c).

Definition set_scrollVelocity (v : Q) (c : Coord) : Coord :=
  mkCoord (lastScrollDirection c) v (rafId c) (isScrolling c) (scrollEndTimeout c) (scrollTimeout c) (lastScrollTime c) (lastScrollOffset c).

Definition set_rafId (v : option positive) (c : Coord) : Coord :=
  mkCoord (lastScrollDirection c) (scrollVelocity c) v (isScrolling c) (scrollEndTimeout c) (scrollTimeout c) (lastScrollTime c) (lastScrollOffset c).

Definition set_isScrolling (v : bool) (c : Coord) : Coord :=
  mkCoord (lastScrollDirection c) (scrollVelocity c) (rafId c) v (scrollEndTimeout c) (scrollTimeout c) (lastScrollTime c) (lastScrollOffset c).

Definition set_scrollEndTimeout (v : option positive) (c : Coord) : Coord :=
  mkCoord (lastScrollDirection c) (scrollVelocity c) (rafId c) (isScrolling c) v (scrollTimeout c) (lastScrollTime c) (lastScrollOffset c).

Definition set_scrollTimeout (v : option positive) (c : Coord) : Coord :=
  mkCoord (lastScrollDirection c) (scrollVelocity c) (rafId c) (isScrolling c) (scrollEndTimeout c) v (lastScrollTime c) (lastScrollOffset c).

Definition set_lastScrollTime (v : Z) (c : Coord) : Coord :=
  mkCoord (lastScrollDirection c) (scrollVelocity c) (rafId c) (isScrolling c) (scrollEndTimeout c) (scrollTimeout c) v (lastScrollOffset c).

Definition set_lastScrollOffset (v : Q) (c : Coord) : Coord :=
  mkCoord (lastScrollDirection c) (scrollVelocity c) (rafId c) (isScrolling c) (scrollEndTimeout c) (scrollTimeout c) (lastScrollTime c) v.

(** The other component variables. *)
Record View := mkView {
  mounted : bool;
  scrollWrapper : option element;
  headerHeight : Q;
  state : ScrollState;
  prevState : ScrollState;
  prevProps : Props;
  containerSize : Q;
  expandItems : jsarray;
  prevItemsLength : nat }.

Definition set_mounted (v : bool) (c : View) : View :=
  mkView v (scrollWrapper c) (headerHeight c) (state c) (prevState c) (prevProps c) (containerSize c) (expandItems c) (prevItemsLength c).

Definition set_scrollWrapper (v : option element) (c : View) : View :=
  mkView (mounted c) v (headerHeight c) (state c) (prevState c) (prevProps c) (containerSize c) (expandItems c) (prevItemsLength c).

Definition set_headerHeight (v : Q) (c : View) : View :=
  mkView (mounted c) (scrollWrapper c) v (state c) (prevState c) (prevProps c) (containerSize c) (expandItems c) (prevItemsLength c).

Definition set_state (v : ScrollState) (c : View) : View :=
  mkView (mounted c) (scrollWrapper c) (headerHeight c) v (prevState c) (prevProps c) (containerSize c) (expandItems c) (prevItemsLength c).

Definition set_prevState (v : ScrollState) (c : View) : View :=
  mkView (mounted c) (scrollWrapper c) (headerHeight c) (state c) v (prevProps c) (containerSize c) (expandItems c) (prevItemsLength c).

Definition set_prevProps (v : Props) (c : View) : View :=
  mkView (mounted c) (scrollWrapper c) (headerHeight c) (state c) (prevState c) v (containerSize c) (expandItems c) (prevItemsLength c).

Definition set_containerSize (v : Q) (c : View) : View :=
  mkView (mounted c) (scrollWrapper c) (headerHeight c) (state c) (prevState c) (prevProps c) v (expandItems c) (prevItemsLength c).

Definition set_expandItems (v : jsarray) (c : View) : View :=
  mkView (mounted c) (scrollWrapper c) (headerHeight c) (state c) (prevState c) (prevProps c) (containerSize c) v (prevItemsLength c).

Definition set_prevItemsLength (v : nat) (c : View) : View :=
  mkView (mounted c) (scrollWrapper c) (headerHeight c) (state c) (prevState c) (prevProps c) (containerSize c) (expandItems c) v.

(** Closures handed to [setTimeout]: the debounced apply and the end-of-scroll
    callback, with the constants they capture. *)
Inductive TimerTask :=
| DeferredApply (currentOffset dynamicOverscan : Q)
| ScrollEnd (currentOffset : Q).

(** The closure handed to [requestAnimationFrame] by [updateScrollState]. *)
Inductive FrameTask :=
| FrameUpdate (currentOffset dynamicOverscan : Q).

(** The component together with the browser; [destroyed] records that the
    framework has run [onDestroy] (it is not a variable of the component). *)
Record World := mkWorld {
  props : Props;
  view : View;
  coord : Coord;
  host : Host TimerTask FrameTask;
  destroyed : bool }.

Definition with_props (f : Props -> Props) (w : World) : World :=
  mkWorld (f (props w)) (view w) (coord w) (host w) (destroyed w).

Definition with_view (f : View -> View) (w : World) : World :=
  mkWorld (props w) (f (view w)) (coord w) (host w) (destroyed w).

Definition with_coord (f : Coord -> Coord) (w : World) : World :=
  mkWorld (props w) (view w) (f (coord w)) (host w) (destroyed w).

Definition with_host (f : Host TimerTask FrameTask -> Host TimerTask FrameTask)
    (w : World) : World :=
  mkWorld (props w) (view w) (coord w) (f (host w)) (destroyed w).

Definition set_destroyed (v : bool) (w : World) : World :=
  mkWorld (props w) (view w) (coord w) (host w) v.

(** [getWrapperOffset()] in the current component state. *)
Definition liveOffset (w : World) (e : Env) : Q :=
  getWrapperOffset (scrollWrapper (view w)) (scrollDirection (props w))
                   (headerHeight (view w)) e.

(** [Math.min(4, 1 + (scrollVelocity / scrollVelocityThreshold))]. *)
Definition velocityMultiplier (p : Props) (scrollVelocity : Q) : Q :=
  Qmin 4 (1 + scrollVelocity / scrollVelocityThreshold p)%Q.

(** [Math.min(100, Math.max(overscanCount,
       Math.ceil(overscanCount * velocityMultiplier)))]. *)
Definition dynamicOverscan (p : Props) (scrollVelocity : Q) : Q :=
  Qmin 100 (Qmax (overscanCount p)
                 (Math_ceil (overscanCount p * velocityMultiplier p scrollVelocity)%Q)).

Definition updateScrollState (currentOffset dynamicOverscan : Q) (w : World) : World :=
  if Qlt_bool (Qabs (currentOffset - lastScrollOffset (coord w))%Q) 1 then w
  else
    let w := with_coord (set_lastScrollOffset currentOffset) w in
    let w := with_host (cancelAnimationFrame_if (rafId (coord w))) w in
    let '(id, h) :=
      requestAnimationFrame (FrameUpdate currentOffset dynamicOverscan) (host w) in
    with_coord (set_rafId (Some id)) (with_host (λ _, h) w).

Definition handleScroll (target : target) (e : Env) (w : World) : World :=
  if foreignTarget target (scrollWrapper (view w)) then w
  else
    let currentOffset := liveOffset w e in
    if Qeq_bool (offset (state (view w))) currentOffset then w
    else
      let now := Date_now e in
      let timeDiff := Z.max 1 (now - lastScrollTime (coord w)) in
      (* Calculate scroll velocity and direction *)
      let delta := (currentOffset - lastScrollOffset (coord w))%Q in
      let newDirection := Math_sign delta in
      let w := with_coord (set_scrollVelocity (Qabs delta / inject_Z timeDiff)%Q) w in
      (* Set scrolling state *)
      let w := with_coord (set_isScrolling true) w in
      let w := with_host (clearTimeout_if (scrollEndTimeout (coord w))) w in
      (* Adjust overscan based on scroll velocity *)
      let dynamicOverscan := dynamicOverscan (props w) (scrollVelocity (coord w)) in
      (* If direction changed, immediately update to prevent blank areas *)
      if negb (newDirection =? lastScrollDirection (coord w)) then
        let w := with_coord (set_lastScrollDirection newDirection) w in
        updateScrollState currentOffset dynamicOverscan w
      else if timeDiff <? SCROLL_DEBOUNCE then
        match scrollTimeout (coord w) with
        | Some _ => w
        | None =>
            let '(id, h) :=
              setTimeout (DeferredApply currentOffset dynamicOverscan)
                         (SCROLL_DEBOUNCE - timeDiff) now (host w) in
            with_coord (set_scrollTimeout (Some id)) (with_host (λ _, h) w)
        end
      else
        let w := with_coord (set_lastScrollTime now) w in
        let w := updateScrollState currentOffset dynamicOverscan w in
        (* Set timeout to detect when scrolling ends *)
        let '(id, h) := setTimeout (ScrollEnd currentOffset) SCROLL_END_DELAY now (host w) in
        with_coord (set_scrollEndTimeout (Some id)) (with_host (λ _, h) w).

(** The body of a timer callback, run at the time [Date_now e]. *)
Definition runTimer (cb : TimerTask) (e : Env) (w : World) : World :=
  match cb with
  | DeferredApply currentOffset dynamicOverscan =>
      let w := with_coord (set_scrollTimeout None) w in
      let w := with_coord (set_lastScrollTime (Date_now e)) w in
      updateScrollState currentOffset dynamicOverscan w
  | ScrollEnd currentOffset =>
      let w := with_coord (set_isScrolling false) w in
      (* Refresh with normal overscan when scrolling ends *)
      updateScrollState currentOffset (overscanCount (props w)) w
  end.

(** The body of the animation-frame callback of [updateScrollState]. *)
Definition runFrame (cb : FrameTask) (e : Env) (w : World) : World :=
  match cb with
  | FrameUpdate currentOffset dynamicOverscan =>
      let w := with_coord (set_rafId None) w in
      let w := with_view (set_state {| offset := currentOffset;
                                       scrollChangeReason := OBSERVED |}) w in
      let extraOverscan :=
        Math_ceil (containerSize (view w)
                   * (if isScrolling (coord w) then preloadScreens (props w) else 1))%Q in
      let visibleStart := Qmax 0 (currentOffset - extraOverscan)%Q in
      let visibleSize := (containerSize (view w) + extraOverscan * 2)%Q in
      let w := with_host (emit (MgrGetVisibleRange (Some visibleSize) visibleStart
                                                   dynamicOverscan)) w in
      let w := with_host (emit (Render (mgrVisibleRange e))) w in
      with_host (emit (DispatchAfterScroll currentOffset)) w
  end.

Definition refresh (e : Env) (w : World) : World :=
  let offset := offset (state (view w)) in
  let newContainerSize := getVisibleHeight (measuredElement (scrollWrapper (view w))) e in
  let w :=
    match newContainerSize with
    | Some n =>
        if Qlt_bool 1 (Qabs (n - containerSize (view w))%Q)
        then with_view (set_containerSize n) w
        else w
    | None => w   (* the comparison with [undefined] is false *)
    end in
  let w := with_host (emit (MgrGetVisibleRange
                              (Some (containerSize (view w))) offset
                              (if decide (mode (props w) = table)
                               then (overscanCount (props w) * 2)%Q
                               else overscanCount (props w)))) w in
  let w := with_host (emit MgrGetTotalSize) w in
  with_host (emit (Render (mgrVisibleRange e))) w.

(** [scrollTo(value)]; [None] is [undefined] or [null]. *)
Definition scrollTo (value : option Q) (e : Env) (w : World) : World :=
  match scrollWrapper (view w), value with
  | Some el, Some value =>
      let value :=
        if bool_decide (scrollDirection (props w) = vertical)
           && negb (truthy_dim (height (props w)))
        then (value + wrapperOffsetTop e)%Q
        else value in
      if hasScrollMethod e
      then with_host (emit (DomScroll el (scrollDirection (props w)) (Qmax 0 value)
                                      (scrollToBehaviour (props w)))) w
      else with_host (emit (DomSetScrollPosition el (scrollDirection (props w))
                                                 (Qmax 0 value))) w
  | _, _ => w
  end.

Definition recomputeSizes (startIndex : Z) (e : Env) (w : World) : World :=
  refresh e (with_host (emit (MgrResetItem startIndex)) w).

(** [getOffsetForIndex(index, align, _itemCount)]: the manager's answer is
    read from the environment. *)
Definition getOffsetForIndex (index : Z) (align : option Alignment) (_itemCount : Z)
    (e : Env) (w : World) : Q * World :=
  let index := if (index <? 0) || (_itemCount <=? index) then 0 else index in
  let containerSize := getVisibleHeight (measuredElement (scrollWrapper (view w))) e in
  (mgrOffsetForIndex e,
   with_host (emit (MgrGetUpdatedOffsetForIndex align containerSize
                      (offset (state (view w))) index)) w).

(** [estimated || (typeof size === 'number' && size) || 50]. *)
Definition estimateOr50 (estimated : option Q) (size : ItemSize) : Q :=
  let fromSize :=
    match size with
    | SizeNumber n => if Qeq_bool n 0 then 50%Q else n
    | _ => 50%Q
    end in
  match estimated with
  | Some est => if Qeq_bool est 0 then fromSize else est
  | None => fromSize
  end.

Definition getEstimatedItemSize (p : Props) : Q :=
  estimateOr50 (estimatedItemSize p) (itemSize p).

Definition getEstimatedExpandItemSize (p : Props) : Q :=
  estimateOr50 (estimatedExpandItemSize p) (expandItemSize p).

(** The object literal of the [updateConfig] calls, for a given [itemCount]. *)
Definition configLiteral (itemCount : Z) (w : World) : ManagerConfig :=
  {| cfg_itemCount := itemCount;
     cfg_itemSize := itemSize (props w);
     cfg_expandItems := expandItems (view w);
     cfg_expandItemSize := expandItemSize (props w);
     cfg_estimatedItemSize := getEstimatedItemSize (props w);
     cfg_estimatedExpandItemSize := getEstimatedExpandItemSize (props w) |}.

(** [containerPropUpdated()]; the class and style changes of the scroll
    wrapper are not modelled. *)
Definition containerPropUpdated (w : World) : World :=
  let w :=
    match container (props w) with
    | ContainerElement el => with_view (set_scrollWrapper (Some el)) w
    | ContainerSelf => with_view (set_scrollWrapper (Some Wrapper)) w
    | ContainerNull => w
    end in
  let w :=
    match scrollWrapper (view w) with
    | Some _ => w
    | None =>
        if (bool_decide (scrollDirection (props w) = vertical)
            && truthy_dim (height (props w)))
           || (bool_decide (scrollDirection (props w) = horizontal)
               && truthy_dim (width (props w)))
        then with_view (set_scrollWrapper (Some Wrapper)) w
        else with_view (set_scrollWrapper (Some Body)) w
    end in
  let w := with_host (addEventListener OnWindowResize) w in
  match scrollWrapper (view w) with
  | Some el => with_host (addEventListener (scrollListenerOf el)) w
  | None => w
  end.

(** [prevProps.expandItems !== expandItems]: [prevProps.expandItems] is the
    copy [[...expandItems]] taken when [prevProps] was stored, and a copy is
    never identical to the live array. *)
Definition expandItemsNotIdentical : bool := true.

Definition propsUpdated (e : Env) (w : World) : World :=
  if negb (mounted (view w)) then w
  else
    let prev := prevProps (view w) in
    let scrollPropsHaveChanged :=
      negb (bool_decide (scrollToIndex prev = scrollToIndex (props w)))
      || negb (bool_decide (scrollToAlignment prev = scrollToAlignment (props w))) in
    let itemPropsHaveChanged :=
      negb (itemCount prev =? itemCount (props w))
      || itemSize_neq (itemSize prev) (itemSize (props w))
      || expandItemsNotIdentical
      || itemSize_neq (expandItemSize prev) (expandItemSize (props w))
      || optQ_neq (estimatedItemSize prev) (estimatedItemSize (props w))
      || optQ_neq (estimatedExpandItemSize prev) (estimatedExpandItemSize (props w))
      || negb (bool_decide (items_id (items prev) = items_id (items (props w)))) in
    let containerPropChanged :=
      negb (bool_decide (container prev = container (props w))) in
    let w :=
      if itemPropsHaveChanged then
        let w := with_host (emit (MgrUpdateConfig
                                    (configLiteral (itemCount (props w)) w))) w in
        let w := if containerPropChanged then containerPropUpdated w else w in
        recomputeSizes 0 e w
      else w in
    let w :=
      if optQ_neq (scrollOffset prev) (scrollOffset (props w)) then
        with_view (set_state {| offset := match scrollOffset (props w) with
                                          | Some o => o
                                          | None => 0
                                          end;
                                scrollChangeReason := REQUESTED |}) w
      else
        match scrollToIndex (props w) with
        | Some index =>
            if scrollPropsHaveChanged || itemPropsHaveChanged then
              let '(o, w) := getOffsetForIndex index (scrollToAlignment (props w))
                                               (itemCount (props w)) e w in
              with_view (set_state {| offset := o; scrollChangeReason := REQUESTED |}) w
            else w
        | None => w
        end in
    with_view (set_prevProps (props w)) w.

(** [stateUpdated()], the body of the reactive statement on [state]. *)
Definition stateUpdated (e : Env) (w : World) : World :=
  if negb (mounted (view w)) then w
  else
    let offset' := offset (state (view w)) in
    let reason := scrollChangeReason (state (view w)) in
    let offsetChanged := negb (Qeq_bool (offset (prevState (view w))) offset') in
    let w :=
      if offsetChanged
         || negb (bool_decide (scrollChangeReason (prevState (view w)) = reason))
      then refresh e w
      else w in
    let w :=
      if offsetChanged && bool_decide (reason = REQUESTED)
      then scrollTo (Some offset') e w
      else w in
    with_view (set_prevState (state (view w))) w.

(** [$: itemCount = Math.max(0, itemCount)]. *)
Definition clampItemCount (w : World) : World :=
  with_props (set_itemCount (Z.max 0 (itemCount (props w)))) w.

(** The reactive statement on the [items] array; [styleCache] and the style
    strings it resets are not modelled. *)
Definition itemsChanged (e : Env) (w : World) : World :=
  if mounted (view w)
     && (negb (bool_decide (items_length (items (props w)) = prevItemsLength (view w)))
         || negb (bool_decide (items_id (items (props w))
                               = items_id (items (prevProps (view w))))))
  then
    let len := items_length (items (props w)) in
    let w := with_view (set_prevItemsLength len) w in
    let w :=
      if itemCount (props w) =? Z.of_nat (items_length (items (prevProps (view w))))
      then with_props (set_itemCount (Z.of_nat len)) w
      else w in
    let w :=
      if negb (is_zero_size (expandItemSize (props w)))
         && negb (bool_decide (length (expandItems (view w)) = len))
      then with_view (set_expandItems (replicate len (Some false))) w
      else w in
    let w := with_host (emit (MgrUpdateConfig
                                (configLiteral (Z.max 0 (itemCount (props w))) w))) w in
    let w := refresh e w in
    with_host (emit MgrGetTotalSize) w
  else w.

(** The parent assigns the [itemCount] property; Svelte then runs the reactive
    statements that depend on it, those that assign [itemCount] first. *)
Definition setItemCount (n : Z) (e : Env) (w : World) : World :=
  let w := with_props (set_itemCount n) w in
  let w := clampItemCount w in
  let w := itemsChanged e w in
  let w := propsUpdated e w in
  stateUpdated e w.

(** The callback given to [onMount]. *)
Definition onMount (e : Env) (w : World) : World :=
  let w :=
    match headerOffsetHeight e with
    | Some h => with_view (set_headerHeight h) w
    | None => w
    end in
  let w := with_view (set_mounted true) w in
  let w := containerPropUpdated w in
  match scrollOffset (props w) with
  | Some o => scrollTo (Some o) e w
  | None =>
      match scrollToIndex (props w) with
      | Some index =>
          let '(o, w) := getOffsetForIndex index (scrollToAlignment (props w))
                                           (itemCount (props w)) e w in
          scrollTo (Some o) e w
      | None => w
      end
  end.

(** The reactive statements that run once [mounted] has become true. *)
Definition mountedUpdated (e : Env) (w : World) : World :=
  let w := itemsChanged e w in
  let w := propsUpdated e w in
  let w := stateUpdated e w in
  recomputeSizes 0 e w.

(** The callback given to [onDestroy]. *)
Definition onDestroy (w : World) : World :=
  if mounted (view w) then
    let w := with_host (clearTimeout_if (scrollTimeout (coord w))) w in
    let w := with_host (clearTimeout_if (scrollEndTimeout (coord w))) w in
    let w := with_host (cancelAnimationFrame_if (rafId (coord w))) w in
    let w := with_host (removeEventListener OnWindowResize) w in
    match scrollWrapper (view w) with
    | Some el => with_host (removeEventListener (scrollListenerOf el)) w
    | None => w
    end
  else w.

(** The component as its script block and the first pass over the reactive
    statements leave it, before it is mounted: [refresh()] has run once, and
    of the reactive statements only the one on [itemCount] has an effect while
    [mounted] is false.  The initial value of [state.offset], which the script
    computes from [scrollOffset] and [scrollToIndex], is a parameter. *)
Definition init (p : Props) (offset0 : Q) (e : Env) : World :=
  let expandItems :=
    if is_zero_size (expandItemSize p) then []
    else replicate (if decide (items_length (items p) = 0%nat)
                    then Z.to_nat (itemCount p)
                    else items_length (items p)) (Some false) in
  let state := {| offset := offset0; scrollChangeReason := REQUESTED |} in
  let w :=
    mkWorld p
      (mkView false None 0 state state p 0 expandItems (items_length (items p)))
      (mkCoord 0 0 None false None None 0 0)
      emptyHost false in
  let w := with_host (emit (MgrNew (configLiteral (itemCount p) w))) w in
  clampItemCount (refresh e w).

(** ** Events *)

Inductive Event :=
| EvMount (e : Env)
| EvScroll (target : target) (e : Env)
| EvResize (e : Env)
| EvTimer (id : positive) (e : Env)
| EvFrame (id : positive) (e : Env)
| EvSetItemCount (n : Z) (e : Env)
| EvDestroy.

(** The listener that receives a scroll event with the given target: a scroll
    of the document bubbles to the window, a scroll of an element does not. *)
Definition listenerFor (target : target) : Listener :=
  match target with
  | Window | Document => OnWindowScroll
  | Element el => OnElementScroll el
  end.

(** One turn of the event loop.  An event that cannot occur in the current
    state (no such listener, timer not armed or not yet due, frame not
    requested, life cycle already past) leaves the world unchanged.  A frame
    callback assigns [state], so the reactive statement on [state] runs after
    it; the variables a scroll event or a timer callback assigns are read by
    no reactive statement.  Of the properties only [itemCount] is updated
    after creation. *)
Definition deliver (ev : Event) (w : World) : World :=
  match ev with
  | EvMount e =>
      if mounted (view w) || destroyed w then w
      else mountedUpdated e (onMount e w)
  | EvScroll target e =>
      if bool_decide (listenerFor target ∈ listeners (host w))
      then handleScroll target e w
      else w
  | EvResize e =>
      if bool_decide (OnWindowResize ∈ listeners (host w))
      then handleScroll Window e w
      else w
  | EvTimer id e =>
      match timers (host w) !! id with
      | Some (due, cb) =>
          if due <=? Date_now e
          then runTimer cb e (with_host (takeTimer id) w)
          else w
      | None => w
      end
  | EvFrame id e =>
      match frames (host w) !! id with
      | Some cb => stateUpdated e (runFrame cb e (with_host (takeFrame id) w))
      | None => w
      end
  | EvSetItemCount n e =>
      if destroyed w then w else setItemCount n e w
  | EvDestroy =>
      if destroyed w then w else set_destroyed true (onDestroy w)
  end.

Definition run (evs : list Event) (w : World) : World :=
  foldl (λ w ev, deliver ev w) w evs.

End Adaptive.

(** * The debounce-only variant ([src/VirtualList.svelte]) *)

Module Basic.

Definition SCROLL_DEBOUNCE : Z := 16.

(** The variables of the scroll handler. *)
Record Coord := mkCoord {
  scrollTimeout : option positive;
  lastScrollTime : Z;
  lastScrollOffset : Q }.

Definition set_scrollTimeout (v : option positive) (c : Coord) : Coord :=
  mkCoord v (lastScrollTime c) (lastScrollOffset c).

Definition set_lastScrollTime (v : Z) (c : Coord) : Coord :=
  mkCoord (scrollTimeout c) v (lastScrollOffset c).

Definition set_lastScrollOffset (v : Q) (c : Coord) : Coord :=
  mkCoord (scrollTimeout c) (lastScrollTime c) v.

(** The other component variables. *)
Record View := mkView {
  mounted : bool;
  scrollWrapper : option element;
  headerHeight : Q;
  state : ScrollState;
  containerSize : Q }.

Definition set_mounted (v : bool) (c : View) : View :=
  mkView v (scrollWrapper c) (headerHeight c) (state c) (containerSize c).

Definition set_scrollWrapper (v : option element) (c : View) : View :=
  mkView (mounted c) v (headerHeight c) (state c) (containerSize c).

Definition set_headerHeight (v : Q) (c : View) : View :=
  mkView (mounted c) (scrollWrapper c) v (state c) (containerSize c).

Definition set_state (v : ScrollState) (c : View) : View :=
  mkView (mounted c) (scrollWrapper c) (headerHeight c) v (containerSize c).

Definition set_containerSize (v : Q) (c : View) : View :=
  mkView (mounted c) (scrollWrapper c) (headerHeight c) (state c) v.

(** The closure handed to [setTimeout] and the one handed to
    [requestAnimationFrame], with the constant they capture. *)
Inductive TimerTask :=
| DeferredApply (currentOffset : Q).

Inductive FrameTask :=
| FrameApply (currentOffset : Q).

Record World := mkWorld {
  props : Props;
  view : View;
  coord : Coord;
  host : Host TimerTask FrameTask }.

Definition with_view (f : View -> View) (w : World) : World :=
  mkWorld (props w) (f (view w)) (coord w) (host w).

Definition with_coord (f : Coord -> Coord) (w : World) : World :=
  mkWorld (props w) (view w) (f (coord w)) (host w).

Definition with_host (f : Host TimerTask FrameTask -> Host TimerTask FrameTask) (w : World) : World :=
  mkWorld (props w) (view w) (coord w) (f (host w)).

Definition liveOffset (w : World) (e : Env) : Q :=
  getWrapperOffset (scrollWrapper (view w)) (scrollDirection (props w))
                   (headerHeight (view w)) e.

(** The frame handle is not kept. *)
Definition updateScrollState (currentOffset : Q) (w : World) : World :=
  if Qlt_bool (Qabs (currentOffset - lastScrollOffset (coord w))%Q) 1 then w
  else
    let w := with_coord (set_lastScrollOffset currentOffset) w in
    let '(_, h) := requestAnimationFrame (FrameApply currentOffset) (host w) in
    with_host (λ _, h) w.

Definition handleScroll (target : target) (e : Env) (w : World) : World :=
  if foreignTarget target (scrollWrapper (view w)) then w
  else
    let currentOffset := liveOffset w e in
    if Qeq_bool (offset (state (view w))) currentOffset then w
    else
      let now := Date_now e in
      let timeDiff := now - lastScrollTime (coord w) in
      if timeDiff <? SCROLL_DEBOUNCE then
        match scrollTimeout (coord w) with
        | Some _ => w
        | None =>
            let '(id, h) :=
              setTimeout (DeferredApply currentOffset) (SCROLL_DEBOUNCE - timeDiff)
                         now (host w) in
            with_coord (set_scrollTimeout (Some id)) (with_host (λ _, h) w)
        end
      else
        let w := with_coord (set_lastScrollTime now) w in
        updateScrollState currentOffset w.

Definition runTimer (cb : TimerTask) (e : Env) (w : World) : World :=
  match cb with
  | DeferredApply currentOffset =>
      let w := with_coord (set_scrollTimeout None) w in
      let w := with_coord (set_lastScrollTime (Date_now e)) w in
      updateScrollState currentOffset w
  end.

Definition runFrame (cb : FrameTask) (w : World) : World :=
  match cb with
  | FrameApply currentOffset =>
      let w := with_view (set_state {| offset := currentOffset;
                                       scrollChangeReason := OBSERVED |}) w in
      with_host (emit (DispatchAfterScroll currentOffset)) w
  end.

Definition onDestroy (w : World) : World :=
  if mounted (view w) then
    let w := with_host (clearTimeout_if (scrollTimeout (coord w))) w in
    let w := with_host (removeEventListener OnWindowResize) w in
    match scrollWrapper (view w) with
    | Some el => with_host (removeEventListener (scrollListenerOf el)) w
    | None => w
    end
  else w.

(** [scrollTo(value)]: the value is written as it is.  Without a scroll wrapper
    the function throws; the model leaves the world unchanged. *)
Definition scrollTo (value : Q) (e : Env) (w : World) : World :=
  match scrollWrapper (view w) with
  | Some el =>
      let value :=
        if bool_decide (scrollDirection (props w) = vertical)
           && negb (truthy_dim (height (props w)))
        then (value + wrapperOffsetTop e)%Q
        else value in
      if hasScrollMethod e
      then with_host (emit (DomScroll el (scrollDirection (props w)) value
                                      (scrollToBehaviour (props w)))) w
      else with_host (emit (DomSetScrollPosition el (scrollDirection (props w)) value)) w
  | None => w
  end.

Definition refresh (e : Env) (w : World) : World :=
  let offset := offset (state (view w)) in
  let newContainerSize := getVisibleHeight (measuredElement (scrollWrapper (view w))) e in
  let w :=
    match newContainerSize with
    | Some n =>
        if Qlt_bool 1 (Qabs (n - containerSize (view w))%Q)
        then with_view (set_containerSize n) w
        else w
    | None => w
    end in
  let w := with_host (emit (MgrGetVisibleRange
                              (Some (containerSize (view w))) offset
                              (if decide (mode (props w) = table)
                               then (overscanCount (props w) * 2)%Q
                               else overscanCount (props w)))) w in
  let w := with_host (emit MgrGetTotalSize) w in
  with_host (emit (Render (mgrVisibleRange e))) w.

End Basic.

(** * The variant without debouncing *)

Module Plain.

(** The component variables; [containerSize] is whatever [getVisibleHeight]
    returned, possibly [undefined]. *)
Record View := mkView {
  mounted : bool;
  scrollWrapper : option element;
  headerHeight : Q;
  state : ScrollState;
  containerSize : option Q }.

Definition set_mounted (v : bool) (c : View) : View :=
  mkView v (scrollWrapper c) (headerHeight c) (state c) (containerSize c).

Definition set_scrollWrapper (v : option element) (c : View) : View :=
  mkView (mounted c) v (headerHeight c) (state c) (containerSize c).

Definition set_headerHeight (v : Q) (c : View) : View :=
  mkView (mounted c) (scrollWrapper c) v (state c) (containerSize c).

Definition set_state (v : ScrollState) (c : View) : View :=
  mkView (mounted c) (scrollWrapper c) (headerHeight c) v (containerSize c).

Definition set_containerSize (v : option Q) (c : View) : View :=
  mkView (mounted c) (scrollWrapper c) (headerHeight c) (state c) v.

(** The closure handed to [requestAnimationFrame] by [handleScroll]. *)
Inductive FrameTask :=
| FrameApply (offset : Q).

Record World := mkWorld {
  props : Props;
  view : View;
  host : Host Empty_set FrameTask }.

Definition with_view (f : View -> View) (w : World) : World :=
  mkWorld (props w) (f (view w)) (host w).

Definition with_host (f : Host Empty_set FrameTask -> Host Empty_set FrameTask)
    (w : World) : World :=
  mkWorld (props w) (view w) (f (host w)).

(** [getWrapperOffset()] of this variant; without a scroll wrapper the
    function throws ([None]). *)
Definition liveOffset (w : World) (e : Env) : option Q :=
  match scrollWrapper (view w) with
  | None => None
  | Some el =>
      if hasScrollMethod e then
        match el with
        | Body => Some (documentScrollTop e - distanceToParent e - headerHeight (view w))%Q
        | _ => Some (scrollTop e - distanceToParent e - headerHeight (view w))%Q
        end
      else
        match scrollDirection (props w) with
        | vertical => Some (scrollTop e)
        | horizontal => Some (scrollLeft e)
        end
  end.

(** The frame handle is not kept. *)
Definition handleScroll (target : target) (e : Env) (w : World) : World :=
  match liveOffset w e with
  | None => w
  | Some offset' =>
      if Qeq_bool (offset (state (view w))) offset'
         || foreignTarget target (scrollWrapper (view w))
      then w
      else
        let '(_, h) := requestAnimationFrame (FrameApply offset') (host w) in
        with_host (λ _, h) w
  end.

Definition runFrame (cb : FrameTask) (w : World) : World :=
  match cb with
  | FrameApply offset' =>
      let w := with_view (set_state {| offset := offset';
                                       scrollChangeReason := OBSERVED |}) w in
      with_host (emit (DispatchAfterScroll offset')) w
  end.

Definition onDestroy (w : World) : World :=
  if mounted (view w) then
    match scrollWrapper (view w) with
    | Some el => with_host (removeEventListener (scrollListenerOf el)) w
    | None => w
    end
  else w.

Definition scrollTo (value : Q) (e : Env) (w : World) : World :=
  match scrollWrapper (view w) with
  | Some el =>
      let value :=
        if bool_decide (scrollDirection (props w) = vertical)
           && negb (truthy_dim (height (props w)))
        then (value + wrapperOffsetTop e)%Q
        else value in
      if hasScrollMethod e
      then with_host (emit (DomScroll el (scrollDirection (props w)) value
                                      (scrollToBehaviour (props w)))) w
      else with_host (emit (DomSetScrollPosition el (scrollDirection (props w)) value)) w
  | None => w
  end.

Definition refresh (e : Env) (w : World) : World :=
  let offset := offset (state (view w)) in
  let w := with_view (set_containerSize
                        (getVisibleHeight (measuredElement (scrollWrapper (view w))) e)) w in
  let w := with_host (emit (MgrGetVisibleRange
                              (containerSize (view w)) offset
                              (if decide (mode (props w) = table)
                               then (overscanCount (props w) * 2)%Q
                               else overscanCount (props w)))) w in
  let w := with_host (emit MgrGetTotalSize) w in
  with_host (emit (Render (mgrVisibleRange e))) w.

End Plain.

(** * A concrete list

    A thousand rows of 50 pixels in a vertical list 500 pixels high that
    scrolls inside its own wrapper, with the default overscan settings. *)

Definition exProps : Props :=
  mkProps ContainerNull (DimNumber 500) DimText
          {| items_id := 0; items_length := 1000 |}
          1000 (SizeNumber 50) (SizeNumber 0) None None
          vertical None None None instant 15 3 30 div.

(** The browser at time [t] with the wrapper scrolled to [top]. *)
Definition exEnv (t : Z) (top : Q) : Env :=
  {| Date_now := t;
     pageYOffset := 0; documentScrollTop := 0; wrapperRectTop := 0;
     scrollTop := top; scrollLeft := 0; distanceToParent := 0;
     rectTop := 0; rectBottom := 500; innerHeight := 800;
     wrapperOffsetTop := 0; headerOffsetHeight := None;
     hasScrollMethod := true;
     mgrVisibleRange := Some (0, 12); mgrOffsetForIndex := 0 |}.

(** The list created and mounted. *)
Definition exMounted : Adaptive.World :=
  Adaptive.run [Adaptive.EvMount (exEnv 1000 0)]
               (Adaptive.init exProps 0 (exEnv 990 0)).

(** The list after one sample that moved down to offset 100, at time 2000;
    the frame it requested has not run yet. *)
Definition exDown : Adaptive.World :=
  Adaptive.run [Adaptive.EvScroll (Element Wrapper) (exEnv 2000 100)] exMounted.

(** The list after two samples moving down (100 at time 2000, 200 at time
    2100), each followed by its frame. *)
Definition exSteady : Adaptive.World :=
  Adaptive.run [Adaptive.EvScroll (Element Wrapper) (exEnv 2000 100);
                Adaptive.EvFrame 1 (exEnv 2001 100);
                Adaptive.EvScroll (Element Wrapper) (exEnv 2100 200);
                Adaptive.EvFrame 2 (exEnv 2101 200)] exMounted.

(** A reversal while an apply is deferred: after [exSteady], a sample at time
    2105 moves on to 300 and is deferred; a sample at time 2110 moves back to
    150 and is applied at once; its frame runs; the deferred apply fires at
    time 2116, when the live offset is 150, and its frame runs. *)
Definition exStaleEvents : list Adaptive.Event :=
  [Adaptive.EvScroll (Element Wrapper) (exEnv 2105 300);
   Adaptive.EvScroll (Element Wrapper) (exEnv 2110 150);
   Adaptive.EvFrame 3 (exEnv 2111 150);
   Adaptive.EvTimer 2 (exEnv 2116 150);
   Adaptive.EvFrame 4 (exEnv 2117 150)].

(** The list after a single sample (to offset 100 at time 2000) and its
    frame. *)
Definition exOneSample : Adaptive.World :=
  Adaptive.run [Adaptive.EvFrame 1 (exEnv 2001 100)] exDown.

(** * Reading the effect log *)

(** The position an effect writes to a scrolled element, if it is a write. *)
Definition scrollWrite (eff : Effect) : option (element * Q) :=
  match eff with
  | DomScroll el _ value _ => Some (el, value)
  | DomSetScrollPosition el _ value => Some (el, value)
  | _ => None
  end.

(** The offsets of the [afterScroll] notifications of a log, in order. *)
Definition appliedOffsets (l : list Effect) : list Q :=
  omap (λ eff, match eff with DispatchAfterScroll o => Some o | _ => None end) l.

(** The overscan arguments of the visible-range queries of a log, in order. *)
Definition queriedOverscans (l : list Effect) : list Q :=
  omap (λ eff, match eff with MgrGetVisibleRange _ _ ov => Some ov | _ => None end) l.

(** The configurations handed to [updateConfig] in a log, in order. *)
Definition configUpdates (l : list Effect) : list ManagerConfig :=
  omap (λ eff, match eff with MgrUpdateConfig c => Some c | _ => None end) l.

(** * The formula of the specification for the widened overscan

    [clamp(overscan, overscan * min(4, 1 + velocity/velocityThreshold), 100)]
    with [velocity = |Δoffset| / max(1, Δt)], as the specification words it
    (no rounding). *)




(** * The quantities [handleScroll] computes from a sample

    The local constants of [handleScroll] of the adaptive variant, as
    functions of the component state and of the environment of the event. *)

(** The sample passes the two tests at the head of [handleScroll]. *)
Definition accepted (target : target) (e : Env) (w : Adaptive.World) : Prop :=
  foreignTarget target (Adaptive.scrollWrapper (Adaptive.view w)) = false
  /\ ~ (offset (Adaptive.state (Adaptive.view w)) == Adaptive.liveOffset w e)%Q.

Definition sampleTimeDiff (e : Env) (w : Adaptive.World) : Z :=
  Z.max 1 (Date_now e - Adaptive.lastScrollTime (Adaptive.coord w)).

Definition sampleDelta (e : Env) (w : Adaptive.World) : Q :=
  (Adaptive.liveOffset w e - Adaptive.lastScrollOffset (Adaptive.coord w))%Q.

Definition sampleDirection (e : Env) (w : Adaptive.World) : Z :=
  Math_sign (sampleDelta e w).

Definition sampleVelocity (e : Env) (w : Adaptive.World) : Q :=
  (Qabs (sampleDelta e w) / inject_Z (sampleTimeDiff e w))%Q.

Definition sampleOverscan (e : Env) (w : Adaptive.World) : Q :=
  Adaptive.dynamicOverscan (Adaptive.props w) (sampleVelocity e w).

(** The state after the statements every accepted sample executes: the
    velocity is stored, [isScrolling] is set, the end-of-scroll timer is
    cleared. *)
Definition sampleNoted (e : Env) (w : Adaptive.World) : Adaptive.World :=
  Adaptive.with_host
    (clearTimeout_if (Adaptive.scrollEndTimeout (Adaptive.coord w)))
    (Adaptive.with_coord (Adaptive.set_isScrolling true)
       (Adaptive.with_coord (Adaptive.set_scrollVelocity (sampleVelocity e w)) w)).

Arguments sampleNoted : simpl never.
Arguments sampleOverscan : simpl never.
Arguments sampleTimeDiff : simpl never.

(** The functions below leave the properties alone and hand the manager no
    configuration. *)
Definition quiet (f : Adaptive.World -> Adaptive.World) : Prop :=
  forall w, Adaptive.props (f w) = Adaptive.props w
            /\ Adaptive.mounted (Adaptive.view (f w)) = Adaptive.mounted (Adaptive.view w)
            /\ configUpdates (log (Adaptive.host (f w)))
               = configUpdates (log (Adaptive.host w)).

(** * The invariant behind teardown

    Every armed timer and every requested frame is the one its handle variable
    refers to; nothing is armed and no listener is registered before the
    component is mounted and after it is destroyed; a mounted component
    listens on the window and on its scroll wrapper only. *)

Section TeardownInvariant.
Import Adaptive.

Definition tracked (c : Coord) (h : Host TimerTask FrameTask) : Prop :=
  (forall id due cur d,
      timers h !! id = Some (due, DeferredApply cur d) -> scrollTimeout c = Some id)
  /\ (forall id due cur,
      timers h !! id = Some (due, ScrollEnd cur) -> scrollEndTimeout c = Some id)
  /\ (forall id f, frames h !! id = Some f -> rafId c = Some id).

Definition idle (h : Host TimerTask FrameTask) : Prop :=
  timers h = ∅ /\ frames h = ∅ /\ listeners h = [].

(** The [container] property has not changed since [prevProps] was stored. *)
Definition sameContainer (w : World) : Prop :=
  container (prevProps (view w)) = container (props w).

(** The part of the world the invariant speaks about. *)
Definition core (w : World) :=
  (coord w, timers (host w), frames (host w), listeners (host w),
   mounted (view w), scrollWrapper (view w), destroyed w).

Definition Inv (w : World) : Prop :=
  tracked (coord w) (host w)
  /\ (mounted (view w) = false -> idle (host w))
  /\ (destroyed w = true -> idle (host w))
  /\ (mounted (view w) = true ->
      exists el, scrollWrapper (view w) = Some el
                 /\ forall l, l ∈ listeners (host w) ->
                              l = OnWindowResize \/ l = scrollListenerOf el)
  /\ sameContainer w.

(** Functions that leave that part alone. *)
Definition stable (f : World -> World) : Prop :=
  forall w, sameContainer w -> core (f w) = core w /\ sameContainer (f w).

End TeardownInvariant.

(** * Rendering

    In the effect log [Render] stands for the construction of [visibleItems]
    and for the [itemsUpdated] notification.  This part models that
    construction itself: the style cache, [getStyle], and the loops of
    [refresh] and [updateVisibleItems]. *)

(** A number as the manager answers it and as a template literal prints it:
    a finite number, [undefined] or [NaN]. *)
Inductive jsnum := Num (q : Q) | Undefined | NaN.

(** [a + b] and [-a] on such values. *)
Definition js_add (a b : jsnum) : jsnum :=
  match a, b with
  | Num x, Num y => Num (x + y)
  | _, _ => NaN
  end.

Definition js_neg (a : jsnum) : jsnum :=
  match a with
  | Num x => Num (- x)
  | _ => NaN
  end.

(** [a === undefined]. *)
Definition is_undefined (a : jsnum) : bool :=
  match a with
  | Undefined => true
  | _ => false
  end.

(** The answer of [sizeAndPositionManager.getSizeAndPositionForIndex]. *)
Record SizeAndPosition := {
  sp_size : jsnum;
  sp_offset : jsnum;
  sp_expandSize : jsnum;
  sp_expandOffset : jsnum }.

(** [{ style, expandStyle }]. *)
Record ItemStyle := {
  style : string;
  expandStyle : string }.

(** An element of [visibleItems]: [{ index, style }], where [style] is what
    [getStyle] returned, possibly [null]. *)
Record VisibleItem := {
  item_index : Z;
  item_style : option ItemStyle }.

(** The detail of an [itemsUpdated] notification. *)
Record ItemsUpdated := {
  detail_start : Z;
  detail_end : Z;
  detail_totalSize : option jsnum }.

(** [stickyIndices != null && stickyIndices.length !== 0]. *)
Definition hasStickyIndices (stickyIndices : option (list Z)) : bool :=
  match stickyIndices with
  | Some (_ :: _) => true
  | _ => false
  end.

(** [stickyIndices.includes(index)], evaluated only when there are sticky
    indices. *)
Definition includes (stickyIndices : option (list Z)) (index : Z) : bool :=
  match stickyIndices with
  | Some l => bool_decide (index ∈ l)
  | None => false
  end.

(** The elements a loop [for (i = 0; i < stickyIndices.length; i++)] visits. *)
Definition stickyList (stickyIndices : option (list Z)) : list Z :=
  match stickyIndices with
  | Some l => l
  | None => []
  end.

(** [height] and [width] with their text, for the style strings. *)
Inductive DimValue := DimNum (n : Q) | DimStr (s : string).

Definition dimOf (d : DimValue) : Dim :=
  match d with
  | DimNum n => DimNumber n
  | DimStr s => if bool_decide (s = "") then DimEmptyString else DimText
  end.

Module AdaptiveView.

(** The component variables of the rendering part. *)
Record Canvas := mkCanvas {
  visibleItems : list VisibleItem;
  styleCache : gmap (Z * bool) ItemStyle;
  wrapperStyle : string;
  innerStyle : string }.

Section WithNumberToString.

(** The conversion of a number to text that a template literal applies. *)
Variable numberToString : jsnum -> string.

(** The text [getStyle] builds; [style] and [expandStyle] are the same
    template, over [size], [offset] and over [expandSize], [expandOffset]. *)
Definition styleText (mode : WrapperMode) (scrollDirection : Direction) (sticky : bool)
    (size offset : jsnum) : string :=
  match mode with
  | table =>
      let style := "height:" +:+ numberToString size +:+ "px;" in
      if sticky then style +:+ "position:sticky;z-index:1;top:0;" else style
  | div =>
      match scrollDirection with
      | vertical =>
          let style := "left:0;width:100%;height:" +:+ numberToString size +:+ "px;" in
          if sticky
          then style +:+ ("position:sticky;flex-grow:0;z-index:1;top:0;margin-top:"
                          +:+ numberToString offset +:+ "px;margin-bottom:"
                          +:+ numberToString (js_neg (js_add offset size)) +:+ "px;")
          else style +:+ ("position:absolute;top:" +:+ numberToString offset
                          +:+ "px;will-change:top;")
      | horizontal =>
          let style := "top:0;height:100%;width:" +:+ numberToString size +:+ "px;" in
          if sticky
          then style +:+ ("position:sticky;z-index:1;left:0;margin-left:"
                          +:+ numberToString offset +:+ "px;margin-right:"
                          +:+ numberToString (js_neg (js_add offset size)) +:+ "px;")
          else style +:+ ("position:absolute;left:" +:+ numberToString offset
                          +:+ "px;will-change:left;")
      end
  end.

(** [getStyle(index, sticky)]: the result ([None] is [null]) and the cache
    afterwards.  [mgr] is [sizeAndPositionManager.getSizeAndPositionForIndex];
    the cache key [`${index}-${sticky}`] is the pair. *)
Definition getStyle (p : Props) (mgr : Z -> SizeAndPosition) (index : Z) (sticky : bool)
    (cache : gmap (Z * bool) ItemStyle) : option ItemStyle * gmap (Z * bool) ItemStyle :=
  if (index <? 0) || (Z.of_nat (items_length (items p)) <=? index) then (None, cache)
  else
    match cache !! (index, sticky) with
    | Some cached => (Some cached, cache)
    | None =>
        let a := mgr index in
        if is_undefined (sp_size a) || is_undefined (sp_offset a) then (None, cache)
        else
          let s := {| style := styleText (mode p) (scrollDirection p) sticky
                                         (sp_size a) (sp_offset a);
                      expandStyle := styleText (mode p) (scrollDirection p) sticky
                                               (sp_expandSize a) (sp_expandOffset a) |} in
          (Some s, <[(index, sticky) := s]> cache)
    end.

(** The local [updatedItems] of a loop together with the style cache. *)
Definition Painting : Type := list VisibleItem * gmap (Z * bool) ItemStyle.

(** [updatedItems.push({ index, style: getStyle(index, sticky) })]. *)
Definition push (p : Props) (mgr : Z -> SizeAndPosition) (index : Z) (sticky : bool)
    (st : Painting) : Painting :=
  let '(s, cache) := getStyle p mgr index sticky st.2 in
  (st.1 ++ [{| item_index := index; item_style := s |}], cache).

(** The body of the loop over [stickyIndices]. *)
Definition stickyStep (p : Props) (mgr : Z -> SizeAndPosition) (st : Painting) (index : Z)
  : Painting :=
  if (0 <=? index) && (index <? Z.of_nat (items_length (items p)))
  then push p mgr index true st
  else st.

(** The body of the loop [for (index = start; index <= stop; index++)]. *)
Definition rangeStep (p : Props) (mgr : Z -> SizeAndPosition)
    (stickyIndices : option (list Z)) (st : Painting) (index : Z) : Painting :=
  if (index <? 0) || (Z.of_nat (items_length (items p)) <=? index) then st
  else if hasStickyIndices stickyIndices && includes stickyIndices index then st
  else push p mgr index false st.

(** The two loops, from an empty [updatedItems]. *)
Definition stickyLoop (p : Props) (mgr : Z -> SizeAndPosition)
    (stickyIndices : option (list Z)) (st : Painting) : Painting :=
  if hasStickyIndices stickyIndices
  then foldl (stickyStep p mgr) st (stickyList stickyIndices)
  else st.

Definition rangeLoop (p : Props) (mgr : Z -> SizeAndPosition)
    (stickyIndices : option (list Z)) (start stop : Z) (st : Painting) : Painting :=
  foldl (rangeStep p mgr stickyIndices) st (seqZ start (stop - start + 1)).

(** [updateVisibleItems(start, stop)]; the range is [None] when [start] or
    [stop] is [undefined]. *)
Definition updateVisibleItems (p : Props) (mgr : Z -> SizeAndPosition)
    (stickyIndices : option (list Z)) (range : option (Z * Z)) (c : Canvas)
  : Canvas * option ItemsUpdated :=
  match range with
  | None => (c, None)
  | Some (start, stop) =>
      (* Ensure valid range *)
      let start := Z.max 0 start in
      let stop := Z.min (Z.of_nat (items_length (items p)) - 1) stop in
      let st : Painting := ([], styleCache c) in
      (* Add sticky items first *)
      let st := stickyLoop p mgr stickyIndices st in
      (* Add visible and overscan items *)
      let st := rangeLoop p mgr stickyIndices start stop st in
      (mkCanvas st.1 st.2 (wrapperStyle c) (innerStyle c),
       Some {| detail_start := start; detail_end := stop; detail_totalSize := None |})
  end.

(** [height + heightUnit] and [`${width}${widthUnit}`]: a number is printed
    and followed by [px], a string is taken as it is. *)
Definition withUnit (d : DimValue) : string :=
  match d with
  | DimNum n => numberToString (Num n) +:+ "px"
  | DimStr s => s +:+ ""
  end.

(** [updateContainerSize(totalSize)]. *)
Definition updateContainerSize (p : Props) (height width : DimValue) (totalSize : jsnum)
    (c : Canvas) : Canvas :=
  let heightValue := if truthy_dim (dimOf height) then withUnit height else "100%" in
  let position :=
    if truthy_dim (dimOf height) then "position:absolute;" else "position:relative;" in
  match scrollDirection p with
  | vertical =>
      mkCanvas (visibleItems c) (styleCache c)
        ("height:" +:+ heightValue +:+ ";width:" +:+ withUnit width
         +:+ ";position:relative;overflow:hidden;")
        (match mode p with
         | table => "width:100%;position:relative;height:" +:+ numberToString totalSize
                    +:+ "px;"
         | div => "flex-direction:column;height:" +:+ numberToString totalSize
                  +:+ "px;width:100%;" +:+ position
         end)
  | horizontal =>
      mkCanvas (visibleItems c) (styleCache c)
        ("height:" +:+ heightValue +:+ ";width:" +:+ withUnit width +:+ ";")
        (match mode p with
         | table => "width:" +:+ numberToString totalSize +:+ "px;height:100%;"
         | div => "flex-direction:row;width:" +:+ numberToString totalSize
                  +:+ "px;height:100%;" +:+ position
         end)
  end.

(** The part of [refresh()] that follows the two manager queries: it sets the
    container styles and builds [visibleItems] from the range and the total
    size the manager answered. *)
Definition refreshItems (p : Props) (height width : DimValue)
    (mgr : Z -> SizeAndPosition)
    (stickyIndices : option (list Z)) (range : option (Z * Z)) (totalSize : jsnum)
    (c : Canvas) : Canvas * option ItemsUpdated :=
  (* Always update container size on refresh *)
  let c := updateContainerSize p height width totalSize c in
  let st : Painting := ([], styleCache c) in
  let st := stickyLoop p mgr stickyIndices st in
  match range with
  | Some (start, stop) =>
      let st := rangeLoop p mgr stickyIndices start stop st in
      (mkCanvas st.1 st.2 (wrapperStyle c) (innerStyle c),
       Some {| detail_start := start; detail_end := stop;
               detail_totalSize := Some totalSize |})
  | None => (mkCanvas st.1 st.2 (wrapperStyle c) (innerStyle c), None)
  end.

(** [styleCache = {}], as [recomputeSizes] and the reactive statement on
    [items] do. *)
Definition clearStyleCache (c : Canvas) : Canvas :=
  mkCanvas (visibleItems c) ∅ (wrapperStyle c) (innerStyle c).

End WithNumberToString.
End AdaptiveView.

(** * Rendering in the two simpler variants

    [getStyle] and the loops of [refresh] have the same text in
    [src/VirtualList.svelte] and in the variant without debouncing. *)

Module BasicView.

(** The component variables of the rendering part; the style cache is keyed
    by the index alone. *)
Record Canvas := mkCanvas {
  visibleItems : list VisibleItem;
  styleCache : gmap Z ItemStyle;
  wrapperStyle : string;
  innerStyle : string }.

Section WithNumberToString.

Variable numberToString : jsnum -> string.

Definition styleText (mode : WrapperMode) (scrollDirection : Direction) (sticky : bool)
    (size offset : jsnum) : string :=
  match mode with
  | table =>
      let style := "height:" +:+ numberToString size +:+ "px;" in
      if sticky then style +:+ "position:sticky;z-index:1;top:0;" else style
  | div =>
      match scrollDirection with
      | vertical =>
          let style := "left:0;width:100%;height:" +:+ numberToString size +:+ "px;" in
          if sticky
          then style +:+ ("position:sticky;flex-grow:0;z-index:1;top:0;margin-top:"
                          +:+ numberToString offset +:+ "px;margin-bottom:"
                          +:+ numberToString (js_neg (js_add offset size)) +:+ "px;")
          else style +:+ ("position:absolute;top:" +:+ numberToString offset +:+ "px;")
      | horizontal =>
          let style := "top:0;width:" +:+ numberToString size +:+ "px;" in
          if sticky
          then style +:+ ("position:sticky;z-index:1;left:0;margin-left:"
                          +:+ numberToString offset +:+ "px;margin-right:"
                          +:+ numberToString (js_neg (js_add offset size)) +:+ "px;")
          else style +:+ ("position:absolute;height:100%;left:"
                          +:+ numberToString offset +:+ "px;")
      end
  end.

(** [getStyle(index, sticky)]: the result and the cache afterwards. *)
Definition getStyle (p : Props) (mgr : Z -> SizeAndPosition) (index : Z) (sticky : bool)
    (cache : gmap Z ItemStyle) : ItemStyle * gmap Z ItemStyle :=
  match cache !! index with
  | Some cached => (cached, cache)
  | None =>
      let a := mgr index in
      let s := {| style := styleText (mode p) (scrollDirection p) sticky
                                     (sp_size a) (sp_offset a);
                  expandStyle := styleText (mode p) (scrollDirection p) sticky
                                           (sp_expandSize a) (sp_expandOffset a) |} in
      (s, <[index := s]> cache)
  end.

Definition Painting : Type := list VisibleItem * gmap Z ItemStyle.

Definition push (p : Props) (mgr : Z -> SizeAndPosition) (index : Z) (sticky : bool)
    (st : Painting) : Painting :=
  let '(s, cache) := getStyle p mgr index sticky st.2 in
  (st.1 ++ [{| item_index := index; item_style := Some s |}], cache).

Definition stickyStep (p : Props) (mgr : Z -> SizeAndPosition) (st : Painting) (index : Z)
  : Painting :=
  push p mgr index true st.

Definition rangeStep (p : Props) (mgr : Z -> SizeAndPosition)
    (stickyIndices : option (list Z)) (st : Painting) (index : Z) : Painting :=
  if hasStickyIndices stickyIndices && includes stickyIndices index then st
  else push p mgr index false st.

Definition stickyLoop (p : Props) (mgr : Z -> SizeAndPosition)
    (stickyIndices : option (list Z)) (st : Painting) : Painting :=
  if hasStickyIndices stickyIndices
  then foldl (stickyStep p mgr) st (stickyList stickyIndices)
  else st.

Definition rangeLoop (p : Props) (mgr : Z -> SizeAndPosition)
    (stickyIndices : option (list Z)) (start stop : Z) (st : Painting) : Painting :=
  foldl (rangeStep p mgr stickyIndices) st (seqZ start (stop - start + 1)).

(** [height + heightUnit] and [`${width}${widthUnit}`]: a number is printed
    and followed by [px], a string is taken as it is. *)
Definition withUnit (d : DimValue) : string :=
  match d with
  | DimNum n => numberToString (Num n) +:+ "px"
  | DimStr s => s +:+ ""
  end.

(** The block [if (!wrapperStyle) { ... }] of [refresh()] in
    [src/VirtualList.svelte]. *)
Definition initStyles (p : Props) (height width : DimValue) (totalSize : jsnum)
    (c : Canvas) : Canvas :=
  if bool_decide (wrapperStyle c = "") then
    let heightValue := if truthy_dim (dimOf height) then withUnit height else "100%" in
    let position :=
      if truthy_dim (dimOf height) then "position:absolute;" else "position:relative;" in
    match scrollDirection p with
    | vertical =>
        mkCanvas (visibleItems c) (styleCache c)
          ("height:" +:+ heightValue +:+ ";width:" +:+ withUnit width
           +:+ ";position:relative;overflow:hidden;")
          (match mode p with
           | table => "width:100%;position:relative;"
           | div => "flex-direction:column;height:" +:+ numberToString totalSize
                    +:+ "px;width:100%;" +:+ position
           end)
    | horizontal =>
        mkCanvas (visibleItems c) (styleCache c)
          ("height:" +:+ heightValue +:+ ";width:" +:+ withUnit width +:+ ";")
          (match mode p with
           | table => "width:" +:+ numberToString totalSize +:+ "px;"
           | div => "flex-direction:column;height:" +:+ numberToString totalSize
                    +:+ "px;width:100%;" +:+ position
           end)
    end
  else c.

(** The part of [refresh()] of [src/VirtualList.svelte] that follows the two
    manager queries. *)
Definition refreshItems (p : Props) (height width : DimValue)
    (mgr : Z -> SizeAndPosition)
    (stickyIndices : option (list Z)) (range : option (Z * Z)) (totalSize : jsnum)
    (c : Canvas) : Canvas * option ItemsUpdated :=
  let c := initStyles p height width totalSize c in
  let st : Painting := ([], styleCache c) in
  let st := stickyLoop p mgr stickyIndices st in
  match range with
  | Some (start, stop) =>
      let st := rangeLoop p mgr stickyIndices start stop st in
      (mkCanvas st.1 st.2 (wrapperStyle c) (innerStyle c),
       Some {| detail_start := start; detail_end := stop; detail_totalSize := None |})
  | None => (mkCanvas st.1 st.2 (wrapperStyle c) (innerStyle c), None)
  end.

End WithNumberToString.
End BasicView.

(** * [getDistanceToParent]

    The three variants have the same text.  [chain] lists [child],
    [child.offsetParent], [child.offsetParent.offsetParent], ... up to the
    element whose [offsetParent] is [null], each with its [offsetTop]; a
    [child] that is [null] has the empty chain.  [body] is [document.body]. *)

Section DistanceToParent.
Context {node : Type} `{EqDecision node}.
Variable body : node.

(** The [while] loop, from the current value of [distance]. *)
Fixpoint distanceLoop (distance : Q) (chain : list (node * Q)) (parent : option node)
  : Q :=
  match chain with
  | [] => distance
  | (currentElement, offsetTop) :: rest =>
      if negb (bool_decide (Some currentElement = parent))
         && negb (bool_decide (currentElement = body))
      then distanceLoop (distance + offsetTop)%Q rest parent
      else distance
  end.

Definition getDistanceToParent (chain : list (node * Q)) (parent : option node) : Q :=
  distanceLoop 0 chain parent.

End DistanceToParent.

(** * Invariants of the scroll coordinator *)

Section CoordinatorInvariants.
Import Adaptive.

(** The item count, the container size and the velocity are not negative,
    and the direction is a sign. *)
Definition sane (w : World) : Prop :=
  0 <= itemCount (props w)
  /\ (0 <= containerSize (view w))%Q
  /\ (0 <= scrollVelocity (coord w))%Q
  /\ -1 <= lastScrollDirection (coord w) <= 1.

(** A requested frame carries the offset applied last. *)
Definition frameCurrent (w : World) : Prop :=
  forall id c d, frames (host w) !! id = Some (FrameUpdate c d) ->
                 c = lastScrollOffset (coord w).

(** Functions that leave the coordinator's variables alone and keep the item
    count and the container size non-negative. *)
Definition calm (f : World -> World) : Prop :=
  forall w, coord (f w) = coord w
            /\ (0 <= itemCount (props w) -> 0 <= itemCount (props (f w)))
            /\ ((0 <= containerSize (view w))%Q -> (0 <= containerSize (view (f w)))%Q).

(** Every requested frame is the one [rafId] refers to. *)
Definition framesTracked (w : World) : Prop :=
  forall id f, frames (host w) !! id = Some f -> rafId (coord w) = Some id.

(** The element [containerPropUpdated] binds as scroll wrapper when none is
    bound yet. *)
Definition boundWrapper (p : Props) : element :=
  match container p with
  | ContainerElement el => el
  | ContainerSelf => Wrapper
  | ContainerNull =>
      if (bool_decide (scrollDirection p = vertical) && truthy_dim (height p))
         || (bool_decide (scrollDirection p = horizontal) && truthy_dim (width p))
      then Wrapper
      else Body
  end.

(** A mounted component that is not destroyed listens for the scroll of its
    scroll wrapper and for the resize of the window, once each; the scroll
    wrapper is bound when the component is mounted, not before. *)
Definition listening (w : World) : Prop :=
  (mounted (view w) = false -> scrollWrapper (view w) = None)
  /\ (mounted (view w) = true -> destroyed w = false ->
      exists el, scrollWrapper (view w) = Some el
                 /\ listeners (host w) = [scrollListenerOf el; OnWindowResize]).

End CoordinatorInvariants.

(** * Further concrete lists *)

(** The list of [exProps] asked to show row 20. *)
Definition exPropsAtIndex : Props :=
  mkProps ContainerNull (DimNumber 500) DimText
          {| items_id := 0; items_length := 1000 |}
          1000 (SizeNumber 50) (SizeNumber 0) None None
          vertical None (Some 20) None instant 15 3 30 div.

(** The browser at time [t], the wrapper scrolled to [top], when the manager
    places the requested row at offset 1000. *)
Definition exEnvAtIndex (t : Z) (top : Q) : Env :=
  {| Date_now := t;
     pageYOffset := 0; documentScrollTop := 0; wrapperRectTop := 0;
     scrollTop := top; scrollLeft := 0; distanceToParent := 0;
     rectTop := 0; rectBottom := 500; innerHeight := 800;
     wrapperOffsetTop := 0; headerOffsetHeight := None;
     hasScrollMethod := true;
     mgrVisibleRange := Some (0, 12); mgrOffsetForIndex := 1000 |}.

(** That list mounted, then scrolled by the user to offset 400. *)
Definition exAtIndex : Adaptive.World :=
  Adaptive.run [Adaptive.EvMount (exEnvAtIndex 1000 0);
                Adaptive.EvScroll (Element Wrapper) (exEnvAtIndex 2000 400);
                Adaptive.EvFrame 1 (exEnvAtIndex 2001 400)]
               (Adaptive.init exPropsAtIndex 0 (exEnvAtIndex 990 0)).


(** The debounce-only variant, mounted on the same list at time 1990. *)
Definition exBasicMounted : Basic.World :=
  Basic.mkWorld exProps
    (Basic.mkView true (Some Wrapper) 0
                  {| offset := 0; scrollChangeReason := REQUESTED |} 500)
    (Basic.mkCoord None 1990 0)
    (mkHost ∅ ∅ 1%positive 1%positive [OnElementScroll Wrapper; OnWindowResize] []).

(** A chain of offset parents: a row (node 3) 10 pixels below the top of the
    list (node 2), which is 20 pixels below the top of the scrolled pane
    (node 1), itself 5 pixels below the top of the page body (node 0). *)
Definition exChain : list (nat * Q) :=
  [(3%nat, 10%Q); (2%nat, 20%Q); (1%nat, 5%Q); (0%nat, 0%Q)].

(** * Properties of [onClick] *)

Lemma js_get_in_range (a : jsarray) (i : nat) (v : option bool) :
  a !! i = Some v -> js_get a i = v.
Proof. unfold js_get. intros ->. reflexivity. Qed.

Lemma js_get_out_of_range (a : jsarray) (i : nat) :
  (length a <= i)%nat -> js_get a i = None.
Proof. intros H. unfold js_get. rewrite lookup_ge_None_2; [reflexivity | lia]. Qed.

Lemma js_set_in_range (a : jsarray) (i : nat) (v : bool) :
  (i < length a)%nat -> js_set a i v = <[i := Some v]> a.
Proof. intros H. unfold js_set. case_decide; [reflexivity | lia]. Qed.

Lemma js_set_out_of_range (a : jsarray) (i : nat) (v : bool) :
  (length a <= i)%nat -> js_set a i v = a ++ replicate (i - length a) None ++ [Some v].
Proof. intros H. unfold js_set. case_decide; [lia | reflexivity]. Qed.

Lemma js_get_set_same (a : jsarray) (i : nat) (v : bool) :
  js_get (js_set a i v) i = Some v.
Proof.
  unfold js_get, js_set. case_decide as Hlt.
  - rewrite list_lookup_insert_eq; [reflexivity | lia].
  - rewrite lookup_app_r by lia.
    rewrite lookup_app_r by (rewrite length_replicate; lia).
    rewrite length_replicate. replace (i - length a - (i - length a))%nat with 0%nat by lia.
    reflexivity.
Qed.

Lemma js_get_set_other (a : jsarray) (i j : nat) (v : bool) :
  j <> i -> js_get (js_set a i v) j = js_get a j.
Proof.
  intros Hne. unfold js_get, js_set. case_decide as Hlt.
  - rewrite list_lookup_insert_ne by congruence. reflexivity.
  - destruct (decide (j < length a)%nat) as [Hj | Hj].
    + rewrite lookup_app_l by lia. reflexivity.
    + rewrite (lookup_ge_None_2 a j) by lia.
      rewrite lookup_app_r by lia.
      destruct (decide (j < i)%nat) as [Hji | Hji].
      * rewrite lookup_app_l by (rewrite length_replicate; lia).
        rewrite lookup_replicate_2 by lia. reflexivity.
      * rewrite lookup_ge_None_2; [reflexivity |].
        rewrite length_app, length_replicate. simpl. lia.
Qed.

Lemma js_set_length_in_range (a : jsarray) (i : nat) (v : bool) :
  (i < length a)%nat -> length (js_set a i v) = length a.
Proof. intros H. rewrite js_set_in_range by lia. apply length_insert. Qed.

(** Two clicks leave every slot with the truthiness it had, whatever the index. *)
Lemma onClick_twice_truthy (s : ItemSize) (i j : nat) (a : jsarray) :
  js_truthy (js_get (onClick s i (onClick s i a)) j) = js_truthy (js_get a j).
Proof.
  unfold onClick. destruct (is_zero_size s); [reflexivity |].
  destruct (decide (j = i)) as [-> | Hne].
  - rewrite !js_get_set_same. simpl. destruct (js_get a i) as [[|]|]; reflexivity.
  - rewrite !js_get_set_other by assumption. reflexivity.
Qed.

(** C10 (amended).  With [expandItemSize === 0], [onClick(i)] leaves
    [expandItems] unchanged for every index [i].  Otherwise, for every index
    [i] at which the array holds a boolean, [onClick(i)] negates that slot and
    no other, and two calls restore the array; for every index whatsoever
    (also past the end, where the array is extended) two calls leave each slot
    with its previous truthiness. *)
Theorem onClick_toggles_slot (s : ItemSize) (i : nat) (a : jsarray) :
  (is_zero_size s = true -> onClick s i a = a)
  /\ (is_zero_size s = false -> forall b : bool, a !! i = Some (Some b) ->
        onClick s i a = <[i := Some (negb b)]> a
        /\ (forall j, j <> i -> onClick s i a !! j = a !! j)
        /\ onClick s i (onClick s i a) = a)
  /\ (forall j, js_truthy (js_get (onClick s i (onClick s i a)) j)
                = js_truthy (js_get a j)).
Proof.
  split; [| split].
  - intros Hz. unfold onClick. rewrite Hz. reflexivity.
  - intros Hz b Hb. unfold onClick. rewrite Hz.
    assert (Hlt : (i < length a)%nat) by (eapply lookup_lt_Some; exact Hb).
    rewrite (js_get_in_range _ _ _ Hb). simpl.
    rewrite js_set_in_range by exact Hlt.
    split; [reflexivity |]. split.
    + intros j Hj. apply list_lookup_insert_ne. congruence.
    + assert (Hb' : <[i := Some (negb b)]> a !! i = Some (Some (negb b)))
        by (apply list_lookup_insert_eq; exact Hlt).
      rewrite (js_get_in_range _ _ _ Hb'). simpl.
      rewrite js_set_in_range by (rewrite length_insert; exact Hlt).
      rewrite list_insert_insert_eq, negb_involutive.
      apply list_insert_id. exact Hb.
  - intros j. apply onClick_twice_truthy.
Qed.

(** An instance: the second of two rows, with expand panes of 80 pixels. *)
Lemma onClick_toggles_slot_witness :
  onClick (SizeNumber 80) 1 [Some false; Some true] = [Some false; Some false]
  /\ onClick (SizeNumber 80) 1 (onClick (SizeNumber 80) 1 [Some false; Some true])
     = [Some false; Some true]
  /\ onClick (SizeNumber 0) 1 [Some false; Some true] = [Some false; Some true].
Proof.
  destruct (onClick_toggles_slot (SizeNumber 80) 1 [Some false; Some true])
    as (_ & Hnz & _).
  destruct (Hnz eq_refl true eq_refl) as (H1 & _ & H2).
  destruct (onClick_toggles_slot (SizeNumber 0) 1 [Some false; Some true])
    as (Hz & _ & _).
  split; [exact H1 |]. split; [exact H2 | exact (Hz eq_refl)].
Defined.

(** C10 as stated fails past the end of the array: [onClick(2)] on a
    one-element array extends it, and a second [onClick(2)] does not shrink it
    back. *)
Lemma onClick_twice_past_end_not_restored :
  onClick (SizeNumber 80) 2 (onClick (SizeNumber 80) 2 [Some false])
  = [Some false; None; Some false]
  /\ onClick (SizeNumber 80) 2 (onClick (SizeNumber 80) 2 [Some false]) <> [Some false].
Proof. split; [reflexivity | discriminate]. Qed.

(** * [refresh], [scrollTo] and resize events *)

(** C9.  In each of the three variants [refresh] asks the manager for the
    visible range exactly once, and the overscan it passes is
    [overscanCount] in [div] mode and twice [overscanCount] in [table] mode. *)
Theorem refresh_overscan_argument
    (wa : Adaptive.World) (wb : Basic.World) (wp : Plain.World) (e : Env) :
  (exists size off ov,
      log (Adaptive.host (Adaptive.refresh e wa))
      = log (Adaptive.host wa)
        ++ [MgrGetVisibleRange size off ov; MgrGetTotalSize; Render (mgrVisibleRange e)]
      /\ match mode (Adaptive.props wa) with
         | table => (ov == 2 * overscanCount (Adaptive.props wa))%Q
         | div => ov = overscanCount (Adaptive.props wa)
         end)
  /\ (exists size off ov,
      log (Basic.host (Basic.refresh e wb))
      = log (Basic.host wb)
        ++ [MgrGetVisibleRange size off ov; MgrGetTotalSize; Render (mgrVisibleRange e)]
      /\ match mode (Basic.props wb) with
         | table => (ov == 2 * overscanCount (Basic.props wb))%Q
         | div => ov = overscanCount (Basic.props wb)
         end)
  /\ (exists size off ov,
      log (Plain.host (Plain.refresh e wp))
      = log (Plain.host wp)
        ++ [MgrGetVisibleRange size off ov; MgrGetTotalSize; Render (mgrVisibleRange e)]
      /\ match mode (Plain.props wp) with
         | table => (ov == 2 * overscanCount (Plain.props wp))%Q
         | div => ov = overscanCount (Plain.props wp)
         end).
Proof.
  split; [| split].
  - unfold Adaptive.refresh.
    destruct (getVisibleHeight _ e) as [n |];
      [destruct (Qlt_bool 1 _) |];
      (eexists _, _, _; split;
       [ cbn; rewrite <- !app_assoc; reflexivity
       | cbn; destruct (mode (Adaptive.props wa)); cbn;
         [reflexivity | apply Qmult_comm] ]).
  - unfold Basic.refresh.
    destruct (getVisibleHeight _ e) as [n |];
      [destruct (Qlt_bool 1 _) |];
      (eexists _, _, _; split;
       [ cbn; rewrite <- !app_assoc; reflexivity
       | cbn; destruct (mode (Basic.props wb)); cbn;
         [reflexivity | apply Qmult_comm] ]).
  - unfold Plain.refresh.
    eexists _, _, _; split;
      [ cbn; rewrite <- !app_assoc; reflexivity
      | cbn; destruct (mode (Plain.props wp)); cbn;
        [reflexivity | apply Qmult_comm] ].
Qed.




(** The two simpler variants write the value unclamped, also when it is
    negative. *)
Lemma Basic_scrollTo_writes_value
    (w : Basic.World) (e : Env) (value : Q) (el : element) :
  Basic.scrollWrapper (Basic.view w) = Some el ->
  bool_decide (scrollDirection (Basic.props w) = vertical)
  && negb (truthy_dim (height (Basic.props w))) = false ->
  exists eff,
    log (Basic.host (Basic.scrollTo value e w)) = log (Basic.host w) ++ [eff]
    /\ scrollWrite eff = Some (el, value).
Proof.
  intros Hsw Hshift. unfold Basic.scrollTo. rewrite Hsw, Hshift.
  destruct (hasScrollMethod e); eexists; cbn; split; reflexivity.
Qed.

Lemma Plain_scrollTo_writes_value
    (w : Plain.World) (e : Env) (value : Q) (el : element) :
  Plain.scrollWrapper (Plain.view w) = Some el ->
  bool_decide (scrollDirection (Plain.props w) = vertical)
  && negb (truthy_dim (height (Plain.props w))) = false ->
  exists eff,
    log (Plain.host (Plain.scrollTo value e w)) = log (Plain.host w) ++ [eff]
    /\ scrollWrite eff = Some (el, value).
Proof.
  intros Hsw Hshift. unfold Plain.scrollTo. rewrite Hsw, Hshift.
  destruct (hasScrollMethod e); eexists; cbn; split; reflexivity.
Qed.

(** [handleScroll] returns at its first test on an event whose target is the
    window. *)
Lemma handleScroll_window (w : Adaptive.World) (e : Env) :
  Adaptive.handleScroll Window e w = w.
Proof.
  unfold Adaptive.handleScroll, foreignTarget.
  destruct (Adaptive.scrollWrapper (Adaptive.view w)); reflexivity.
Qed.

(** [handleScroll] also returns, at its second test, on any event that finds
    the offset unchanged. *)
Lemma handleScroll_same_offset (w : Adaptive.World) (e : Env) (target : target) :
  Qeq_bool (offset (Adaptive.state (Adaptive.view w))) (Adaptive.liveOffset w e) = true ->
  Adaptive.handleScroll target e w = w.
Proof.
  intros Hsame. unfold Adaptive.handleScroll.
  destruct (foreignTarget _ _); [reflexivity |]. rewrite Hsame. reflexivity.
Qed.

(** C5 (the code at a resize event).  The component registers [handleScroll]
    for the window's [resize] event, whose target is the window.
    [handleScroll] returns at its first test ([event.target] is neither the
    scroll wrapper nor the document), so in each variant that has the listener
    a resize changes nothing: no re-measure, no visible-range query, no
    scheduled callback. *)
Theorem resize_event_changes_nothing
    (w : Adaptive.World) (wb : Basic.World) (e : Env) :
  Adaptive.deliver (Adaptive.EvResize e) w = w
  /\ Basic.handleScroll Window e wb = wb.
Proof.
  split.
  - cbn. case_bool_decide; [apply handleScroll_window | reflexivity].
  - unfold Basic.handleScroll, foreignTarget.
    destruct (Basic.scrollWrapper (Basic.view wb)); reflexivity.
Qed.

(** * The paths of [handleScroll] *)

Lemma Qlt_bool_true (x y : Q) : Qlt_bool x y = true <-> (x < y)%Q.
Proof.
  unfold Qlt_bool. rewrite negb_true_iff. split.
  - intros H. apply Qnot_le_lt. intros Hle.
    apply Qle_bool_iff in Hle. congruence.
  - intros H. destruct (Qle_bool y x) eqn:E; [| reflexivity].
    apply Qle_bool_iff in E. exfalso. exact (Qlt_not_le _ _ H E).
Qed.

Lemma Qlt_bool_false (x y : Q) : Qlt_bool x y = false <-> (y <= x)%Q.
Proof.
  unfold Qlt_bool. rewrite negb_false_iff. apply Qle_bool_iff.
Qed.

Lemma Qeq_bool_false (x y : Q) : Qeq_bool x y = false <-> ~ (x == y)%Q.
Proof.
  split.
  - intros H Heq. apply Qeq_bool_iff in Heq. congruence.
  - intros H. destruct (Qeq_bool x y) eqn:E; [| reflexivity].
    apply Qeq_bool_iff in E. contradiction.
Qed.

(** Below the noise floor [updateScrollState] does nothing. *)
Lemma updateScrollState_noise (c d : Q) (w : Adaptive.World) :
  (Qabs (c - Adaptive.lastScrollOffset (Adaptive.coord w)) < 1)%Q ->
  Adaptive.updateScrollState c d w = w.
Proof.
  intros H. unfold Adaptive.updateScrollState.
  apply Qlt_bool_true in H. rewrite H. reflexivity.
Qed.

(** At or above it, the offset is recorded and one frame is requested, in
    place of the frame [rafId] referred to. *)
Lemma updateScrollState_apply (c d : Q) (w : Adaptive.World) :
  (1 <= Qabs (c - Adaptive.lastScrollOffset (Adaptive.coord w)))%Q ->
  Adaptive.updateScrollState c d w
  = Adaptive.with_coord
      (Adaptive.set_rafId (Some (nextFrame (Adaptive.host w))))
      (Adaptive.with_host
         (fun h => snd (requestAnimationFrame (Adaptive.FrameUpdate c d)
                          (cancelAnimationFrame_if
                             (Adaptive.rafId (Adaptive.coord w)) h)))
         (Adaptive.with_coord (Adaptive.set_lastScrollOffset c) w)).
Proof.
  intros H. unfold Adaptive.updateScrollState.
  apply Qlt_bool_false in H. rewrite H.
  destruct w as [p v c0 h dd]. destruct c0. cbn.
  destruct rafId; reflexivity.
Qed.


Lemma handleScroll_defer (target : target) (e : Env) (w : Adaptive.World) :
  accepted target e w ->
  sampleDirection e w = Adaptive.lastScrollDirection (Adaptive.coord w) ->
  sampleTimeDiff e w < Adaptive.SCROLL_DEBOUNCE ->
  Adaptive.scrollTimeout (Adaptive.coord w) = None ->
  Adaptive.handleScroll target e w
  = Adaptive.with_coord
      (Adaptive.set_scrollTimeout (Some (nextTimer (Adaptive.host w))))
      (Adaptive.with_host
         (fun h => snd (setTimeout
                          (Adaptive.DeferredApply (Adaptive.liveOffset w e)
                                                  (sampleOverscan e w))
                          (Adaptive.SCROLL_DEBOUNCE - sampleTimeDiff e w)
                          (Date_now e) h))
         (sampleNoted e w)).
Proof.
  intros [Ht Ho] Hdir Htime Hnone. unfold Adaptive.handleScroll.
  rewrite Ht. apply Qeq_bool_false in Ho. rewrite Ho.
  apply Z.eqb_eq in Hdir. apply Z.ltb_lt in Htime.
  unfold sampleDirection, sampleDelta in Hdir. unfold sampleTimeDiff in Htime.
  destruct w as [p v c h dd]. destruct c. cbn in *.
  rewrite Hdir, Htime, Hnone. cbn.
  destruct scrollEndTimeout; reflexivity.
Qed.

Lemma handleScroll_drop (target : target) (e : Env) (w : Adaptive.World) (id : positive) :
  accepted target e w ->
  sampleDirection e w = Adaptive.lastScrollDirection (Adaptive.coord w) ->
  sampleTimeDiff e w < Adaptive.SCROLL_DEBOUNCE ->
  Adaptive.scrollTimeout (Adaptive.coord w) = Some id ->
  Adaptive.handleScroll target e w = sampleNoted e w.
Proof.
  intros [Ht Ho] Hdir Htime Hsome. unfold Adaptive.handleScroll.
  rewrite Ht. apply Qeq_bool_false in Ho. rewrite Ho.
  apply Z.eqb_eq in Hdir. apply Z.ltb_lt in Htime.
  unfold sampleDirection, sampleDelta in Hdir. unfold sampleTimeDiff in Htime.
  destruct w as [p v c h dd]. destruct c. cbn in *.
  rewrite Hdir, Htime, Hsome. reflexivity.
Qed.

Lemma handleScroll_direct (target : target) (e : Env) (w : Adaptive.World) :
  accepted target e w ->
  sampleDirection e w = Adaptive.lastScrollDirection (Adaptive.coord w) ->
  Adaptive.SCROLL_DEBOUNCE <= sampleTimeDiff e w ->
  Adaptive.handleScroll target e w
  = let w1 := Adaptive.updateScrollState (Adaptive.liveOffset w e) (sampleOverscan e w)
                (Adaptive.with_coord (Adaptive.set_lastScrollTime (Date_now e))
                                     (sampleNoted e w)) in
    Adaptive.with_coord
      (Adaptive.set_scrollEndTimeout (Some (nextTimer (Adaptive.host w1))))
      (Adaptive.with_host
         (fun h => snd (setTimeout (Adaptive.ScrollEnd (Adaptive.liveOffset w e))
                                   Adaptive.SCROLL_END_DELAY (Date_now e) h))
         w1).
Proof.
  intros [Ht Ho] Hdir Htime. unfold Adaptive.handleScroll.
  rewrite Ht. apply Qeq_bool_false in Ho. rewrite Ho.
  apply Z.eqb_eq in Hdir. apply Z.ltb_ge in Htime.
  unfold sampleDirection, sampleDelta in Hdir. unfold sampleTimeDiff in Htime.
  destruct w as [p v c h dd]. destruct c. cbn in *.
  rewrite Hdir, Htime. cbn. reflexivity.
Qed.


(** * Direction reversal *)



(** * The deferred apply *)

(** C1 (amended).  For an accepted sample in the stored direction that
    arrives less than 16 ms after the last directly applied one:
    when no deferred apply is pending, [handleScroll] arms exactly one timer,
    for the remaining [16 - timeDiff] ms, whose callback captures this sample's
    offset and overscan, and requests no frame;
    when one is pending, the sample is dropped: no timer or frame is added and
    the applied offset and time stay as they were;
    and whenever a deferred apply fires, in whatever state and environment, it
    applies the offset it captured when it was scheduled (if that is a pixel or
    more from the last applied offset): the live offset is not read again. *)
Theorem deferred_apply_uses_captured_offset
    (target : target) (e : Env) (w : Adaptive.World) :
  accepted target e w ->
  sampleDirection e w = Adaptive.lastScrollDirection (Adaptive.coord w) ->
  sampleTimeDiff e w < 16 ->
  let w' := Adaptive.handleScroll target e w in
  (Adaptive.scrollTimeout (Adaptive.coord w) = None ->
     Adaptive.scrollTimeout (Adaptive.coord w') = Some (nextTimer (Adaptive.host w))
     /\ timers (Adaptive.host w') !! nextTimer (Adaptive.host w)
        = Some (Date_now e + (16 - sampleTimeDiff e w),
                Adaptive.DeferredApply (Adaptive.liveOffset w e) (sampleOverscan e w))
     /\ nextTimer (Adaptive.host w') = Pos.succ (nextTimer (Adaptive.host w))
     /\ frames (Adaptive.host w') = frames (Adaptive.host w)
     /\ Adaptive.lastScrollOffset (Adaptive.coord w')
        = Adaptive.lastScrollOffset (Adaptive.coord w))
  /\ (forall id, Adaptive.scrollTimeout (Adaptive.coord w) = Some id ->
     Adaptive.scrollTimeout (Adaptive.coord w') = Some id
     /\ nextTimer (Adaptive.host w') = nextTimer (Adaptive.host w)
     /\ (forall id' x, timers (Adaptive.host w') !! id' = Some x ->
                       timers (Adaptive.host w) !! id' = Some x)
     /\ frames (Adaptive.host w') = frames (Adaptive.host w)
     /\ Adaptive.lastScrollOffset (Adaptive.coord w')
        = Adaptive.lastScrollOffset (Adaptive.coord w)
     /\ Adaptive.lastScrollTime (Adaptive.coord w')
        = Adaptive.lastScrollTime (Adaptive.coord w))
  /\ (forall (c d : Q) (e' : Env) (w0 : Adaptive.World),
     (1 <= Qabs (c - Adaptive.lastScrollOffset (Adaptive.coord w0)))%Q ->
     let wf := Adaptive.runTimer (Adaptive.DeferredApply c d) e' w0 in
     Adaptive.lastScrollOffset (Adaptive.coord wf) = c
     /\ frames (Adaptive.host wf) !! nextFrame (Adaptive.host w0)
        = Some (Adaptive.FrameUpdate c d)
     /\ Adaptive.scrollTimeout (Adaptive.coord wf) = None
     /\ Adaptive.lastScrollTime (Adaptive.coord wf) = Date_now e').
Proof.
  intros Hacc Hdir Htime w'. subst w'. split; [| split].
  - intros Hnone.
    rewrite (handleScroll_defer _ _ _ Hacc Hdir Htime Hnone).
    unfold sampleNoted.
  destruct w as [p v c h dd]. destruct c as [? ? raf ? endT ? ? ?], h.
    destruct endT; cbn;
      (repeat split; try reflexivity; apply lookup_insert_eq).
  - intros id Hsome.
    rewrite (handleScroll_drop _ _ _ id Hacc Hdir Htime Hsome).
    unfold sampleNoted.
  destruct w as [p v c h dd]. destruct c as [? ? raf ? endT ? ? ?], h.
    cbn in Hsome. subst.
    destruct endT; cbn;
      (repeat split; try reflexivity;
       try (intros id' x H; apply lookup_delete_Some in H; tauto); tauto).
  - intros c d e' w0 Hfloor wf. subst wf. unfold Adaptive.runTimer.
    rewrite updateScrollState_apply by exact Hfloor.
    destruct w0 as [p v c0 h dd]. destruct c0 as [? ? raf ? endT ? ? ?], h.
    destruct raf; cbn; (repeat split; try reflexivity; apply lookup_insert_eq).
Qed.

(** An instance: after [exSteady] (last applied sample at time 2100), a sample
    at time 2105 that moves on to offset 300 is deferred by 11 ms. *)
Lemma deferred_apply_uses_captured_offset_witness :
  accepted (Element Wrapper) (exEnv 2105 300) exSteady
  /\ sampleDirection (exEnv 2105 300) exSteady
     = Adaptive.lastScrollDirection (Adaptive.coord exSteady)
  /\ sampleTimeDiff (exEnv 2105 300) exSteady < 16
  /\ Adaptive.scrollTimeout (Adaptive.coord exSteady) = None
  /\ timers (Adaptive.host
               (Adaptive.handleScroll (Element Wrapper) (exEnv 2105 300) exSteady))
     !! nextTimer (Adaptive.host exSteady)
     = Some (2105 + (16 - sampleTimeDiff (exEnv 2105 300) exSteady),
             Adaptive.DeferredApply (Adaptive.liveOffset exSteady (exEnv 2105 300))
                                    (sampleOverscan (exEnv 2105 300) exSteady)).
Proof.
  assert (Hacc : accepted (Element Wrapper) (exEnv 2105 300) exSteady).
  { split; [reflexivity |]. vm_compute. discriminate. }
  assert (Hdir : sampleDirection (exEnv 2105 300) exSteady
                 = Adaptive.lastScrollDirection (Adaptive.coord exSteady)).
  { reflexivity. }
  assert (Htime : sampleTimeDiff (exEnv 2105 300) exSteady < 16).
  { vm_compute. reflexivity. }
  destruct (deferred_apply_uses_captured_offset _ _ _ Hacc Hdir Htime)
    as (Hnew & _ & _).
  destruct (Hnew eq_refl) as (_ & Harmed & _).
  split; [exact Hacc |]. split; [exact Hdir |]. split; [exact Htime |].
  split; [reflexivity | exact Harmed].
Defined.

(** C1 as stated fails: the deferred apply does not read the live offset when
    it fires.  In the run [exStaleEvents] the samples arrive in the order
    100, 200, 300, 150; the sample 300 is deferred, the later sample 150 is
    applied first, and when the timer fires with the list at 150 it applies
    the stale 300 after the later 150 and leaves the component at 300. *)
Lemma deferred_apply_applies_stale_offset :
  let w := Adaptive.run exStaleEvents exSteady in
  appliedOffsets (log (Adaptive.host w)) = [100; 200; 150; 300]%Q
  /\ offset (Adaptive.state (Adaptive.view w)) = 300%Q
  /\ Adaptive.lastScrollOffset (Adaptive.coord w) = 300%Q
  /\ (Adaptive.liveOffset w (exEnv 2117 150) == 150)%Q
  /\ ~ (offset (Adaptive.state (Adaptive.view w))
        == Adaptive.liveOffset w (exEnv 2117 150))%Q.
Proof.
  vm_compute. repeat split; try reflexivity. discriminate.
Qed.

(** The debounce-only variant defers and captures the offset in the same way. *)
Lemma Basic_handleScroll_defers (target : target) (e : Env) (w : Basic.World) :
  foreignTarget target (Basic.scrollWrapper (Basic.view w)) = false ->
  ~ (offset (Basic.state (Basic.view w)) == Basic.liveOffset w e)%Q ->
  Date_now e - Basic.lastScrollTime (Basic.coord w) < Basic.SCROLL_DEBOUNCE ->
  Basic.scrollTimeout (Basic.coord w) = None ->
  let w' := Basic.handleScroll target e w in
  Basic.scrollTimeout (Basic.coord w') = Some (nextTimer (Basic.host w))
  /\ timers (Basic.host w') !! nextTimer (Basic.host w)
     = Some (Date_now e
             + (Basic.SCROLL_DEBOUNCE
                - (Date_now e - Basic.lastScrollTime (Basic.coord w))),
             Basic.DeferredApply (Basic.liveOffset w e))
  /\ frames (Basic.host w') = frames (Basic.host w).
Proof.
  intros Ht Ho Htime Hnone w'. subst w'. unfold Basic.handleScroll.
  rewrite Ht. apply Qeq_bool_false in Ho. rewrite Ho.
  apply Z.ltb_lt in Htime. rewrite Htime, Hnone. cbn.
  split; [reflexivity |]. split; [apply lookup_insert_eq | reflexivity].
Qed.

Lemma Basic_deferred_apply_uses_captured_offset (c : Q) (e : Env) (w : Basic.World) :
  (1 <= Qabs (c - Basic.lastScrollOffset (Basic.coord w)))%Q ->
  let wf := Basic.runTimer (Basic.DeferredApply c) e w in
  Basic.lastScrollOffset (Basic.coord wf) = c
  /\ frames (Basic.host wf) !! nextFrame (Basic.host w) = Some (Basic.FrameApply c).
Proof.
  intros Hfloor wf. subst wf. unfold Basic.runTimer, Basic.updateScrollState.
  apply Qlt_bool_false in Hfloor.
  destruct w as [p v c0 h]. destruct c0, h. cbn in *. rewrite Hfloor. cbn.
  split; [reflexivity | apply lookup_insert_eq].
Qed.

(** * The widened overscan *)










Lemma updateScrollState_timers (c d : Q) (w : Adaptive.World) :
  timers (Adaptive.host (Adaptive.updateScrollState c d w)) = timers (Adaptive.host w)
  /\ nextTimer (Adaptive.host (Adaptive.updateScrollState c d w))
     = nextTimer (Adaptive.host w).
Proof.
  unfold Adaptive.updateScrollState. destruct (Qlt_bool _ _); [split; reflexivity |].
  destruct w as [p v c0 h dd]. destruct c0 as [? ? raf ? endT ? ? ?], h.
  destruct raf; cbn; split; reflexivity.
Qed.


Lemma sampleNoted_host (e : Env) (w : Adaptive.World) :
  frames (Adaptive.host (sampleNoted e w)) = frames (Adaptive.host w)
  /\ nextTimer (Adaptive.host (sampleNoted e w)) = nextTimer (Adaptive.host w)
  /\ nextFrame (Adaptive.host (sampleNoted e w)) = nextFrame (Adaptive.host w)
  /\ log (Adaptive.host (sampleNoted e w)) = log (Adaptive.host w)
  /\ (forall id x, timers (Adaptive.host (sampleNoted e w)) !! id = Some x ->
                   timers (Adaptive.host w) !! id = Some x).
Proof.
  unfold sampleNoted.
  destruct w as [p v c0 h dd]. destruct c0 as [? ? raf ? endT ? ? ?], h.
  destruct endT; cbn; (repeat split; try reflexivity);
    try (intros id x H; apply lookup_delete_Some in H; tauto); tauto.
Qed.






(** * The end of scrolling *)

(** After [updateScrollState c] the last applied offset is within the noise
    floor of [c], whether or not [c] was applied. *)
Lemma updateScrollState_settles (c d : Q) (w : Adaptive.World) :
  (Qabs (c - Adaptive.lastScrollOffset
               (Adaptive.coord (Adaptive.updateScrollState c d w))) < 1)%Q.
Proof.
  destruct (Qlt_le_dec (Qabs (c - Adaptive.lastScrollOffset (Adaptive.coord w))) 1)
    as [Hlt | Hge].
  - rewrite updateScrollState_noise by exact Hlt. exact Hlt.
  - rewrite updateScrollState_apply by exact Hge.
    change (Qabs (c - c) < 1)%Q.
    assert (H0 : (c - c == 0)%Q) by ring. rewrite H0. reflexivity.
Qed.

(** The end-of-scroll callback that [handleScroll] arms after a directly
    applied sample finds, when it fires in the state [handleScroll] left, the
    offset it captured already recorded: [updateScrollState] returns at its
    first test, and the callback only resets [isScrolling]. *)
Lemma scroll_end_requests_nothing (target : target) (e e' : Env) (w : Adaptive.World) :
  accepted target e w ->
  sampleDirection e w = Adaptive.lastScrollDirection (Adaptive.coord w) ->
  Adaptive.SCROLL_DEBOUNCE <= sampleTimeDiff e w ->
  let w1 := Adaptive.handleScroll target e w in
  let id := nextTimer (Adaptive.host w) in
  timers (Adaptive.host w1) !! id
  = Some (Date_now e + Adaptive.SCROLL_END_DELAY,
          Adaptive.ScrollEnd (Adaptive.liveOffset w e))
  /\ (Date_now e + Adaptive.SCROLL_END_DELAY <= Date_now e' ->
      Adaptive.deliver (Adaptive.EvTimer id e') w1
      = Adaptive.with_coord (Adaptive.set_isScrolling false)
                            (Adaptive.with_host (takeTimer id) w1)).
Proof.
  intros Hacc Hdir Htime w1 id.
  assert (Hid : nextTimer
                  (Adaptive.host
                     (Adaptive.updateScrollState (Adaptive.liveOffset w e)
                        (sampleOverscan e w)
                        (Adaptive.with_coord (Adaptive.set_lastScrollTime (Date_now e))
                                             (sampleNoted e w)))) = id).
  { rewrite (proj2 (updateScrollState_timers _ _ _)). cbn.
    apply (sampleNoted_host e w). }
  assert (Harmed : timers (Adaptive.host w1) !! id
                   = Some (Date_now e + Adaptive.SCROLL_END_DELAY,
                           Adaptive.ScrollEnd (Adaptive.liveOffset w e))).
  { subst w1. rewrite (handleScroll_direct _ _ _ Hacc Hdir Htime). cbn.
    rewrite Hid. apply lookup_insert_eq. }
  split; [exact Harmed |].
  intros Hdue. unfold Adaptive.deliver. rewrite Harmed.
  apply Z.leb_le in Hdue. rewrite Hdue.
  unfold Adaptive.runTimer. apply updateScrollState_noise.
  subst w1. rewrite (handleScroll_direct _ _ _ Hacc Hdir Htime). cbn.
  apply updateScrollState_settles.
Qed.

(** C2 (the code on two quiet endings).  After a single sample, which takes
    the reversal path, no end-of-scroll timer exists: with [isScrolling] true
    nothing is left pending that could reset it.  After [exSteady] the timer
    armed by the second sample is due at time 2250; when it fires it resets
    [isScrolling] and does nothing else: no frame is requested and the log
    gains no visible-range query.  (The queries made so far are those of the
    two frames, with overscan 16, each followed by the [refresh] of
    [stateUpdated] with the base overscan 15.) *)
Theorem end_of_scroll_timer_defects :
  (Adaptive.isScrolling (Adaptive.coord exOneSample) = true
   /\ timers (Adaptive.host exOneSample) = ∅
   /\ frames (Adaptive.host exOneSample) = ∅)
  /\ (timers (Adaptive.host exSteady) !! 1%positive
      = Some (2250, Adaptive.ScrollEnd 200)
      /\ let w' := Adaptive.deliver (Adaptive.EvTimer 1 (exEnv 2250 200)) exSteady in
         Adaptive.isScrolling (Adaptive.coord w') = false
         /\ log (Adaptive.host w') = log (Adaptive.host exSteady)
         /\ frames (Adaptive.host w') = ∅
         /\ timers (Adaptive.host w') = ∅
         /\ queriedOverscans (log (Adaptive.host w'))
            = [15; 15; 15; 16; 15; 16; 15]%Q).
Proof.
  vm_compute. repeat split; reflexivity.
Qed.

(** * Configuration updates *)

Lemma configUpdates_snoc (l : list Effect) (eff : Effect) :
  configUpdates (l ++ [eff])
  = configUpdates l ++ match eff with MgrUpdateConfig c => [c] | _ => [] end.
Proof.
  unfold configUpdates. rewrite omap_app. destruct eff; reflexivity.
Qed.

Lemma quiet_refresh (e : Env) : quiet (Adaptive.refresh e).
Proof.
  intros w. unfold Adaptive.refresh.
  destruct (getVisibleHeight _ e) as [n |]; [destruct (Qlt_bool 1 _) |]; cbn;
    rewrite !configUpdates_snoc, !app_nil_r; auto.
Qed.


Lemma quiet_recomputeSizes (startIndex : Z) (e : Env) :
  quiet (Adaptive.recomputeSizes startIndex e).
Proof.
  intros w. unfold Adaptive.recomputeSizes.
  destruct (quiet_refresh e (Adaptive.with_host (emit (MgrResetItem startIndex)) w))
    as (Hp & Hm & Hc).
  rewrite Hp, Hm, Hc. cbn. rewrite configUpdates_snoc, app_nil_r. auto.
Qed.

Lemma quiet_containerPropUpdated : quiet Adaptive.containerPropUpdated.
Proof.
  intros w. unfold Adaptive.containerPropUpdated.
  destruct w as [p v c h dd]. destruct v as [m sw ? ? ? ? ? ? ?]. cbn.
  destruct (container p); cbn; try destruct sw; cbn;
    try destruct (_ || _); cbn; auto.
Qed.

Lemma quiet_getOffsetForIndex (index : Z) (align : option Alignment) (count : Z) (e : Env) :
  quiet (fun w => snd (Adaptive.getOffsetForIndex index align count e w)).
Proof.
  intros w. cbn. rewrite configUpdates_snoc, app_nil_r. auto.
Qed.








(** * Teardown *)

Section Teardown.
Import Adaptive.

Ltac lookup_cases :=
  repeat match goal with
    | H : <[_ := _]> _ !! _ = Some _ |- _ =>
        apply lookup_insert_Some in H; destruct H as [[? H] | [? H]]
    | H : delete _ _ !! _ = Some _ |- _ =>
        apply lookup_delete_Some in H; destruct H as [? H]
    | H : (_, _) = (_, _) |- _ => inversion H; clear H; subst
    | H : Some _ = Some _ |- _ => inversion H; clear H; subst
    end.

Ltac tracked_tac :=
  match goal with
  | Ht : tracked _ _ |- tracked _ _ =>
      let Hde := fresh "Hde" in
      let Hen := fresh "Hen" in
      let Hfr := fresh "Hfr" in
      destruct Ht as (Hde & Hen & Hfr); cbn in Hde, Hen, Hfr;
      repeat split; cbn; intros; lookup_cases;
      try discriminate; try congruence; eauto;
      try (match goal with
           | H : ?m !! ?i = Some (_, DeferredApply _ _) |- _ =>
               pose proof (Hde _ _ _ _ H); congruence
           | H : ?m !! ?i = Some (_, ScrollEnd _) |- _ =>
               pose proof (Hen _ _ _ H); congruence
           | H : ?m !! ?i = Some _ |- _ =>
               pose proof (Hfr _ _ H); congruence
           end)
  end.

(** [updateScrollState] cancels the frame [rafId] refers to before it requests
    the next one. *)
Lemma updateScrollState_tracked (c d : Q) (w : World) :
  tracked (coord w) (host w) ->
  tracked (coord (updateScrollState c d w)) (host (updateScrollState c d w)).
Proof.
  intros Ht. unfold updateScrollState.
  destruct w as [p v [dir vel raf scr endT st lt lo] [ts fs nt nf ls lg] dd].
  cbn in *. destruct (Qlt_bool _ _); [exact Ht |].
  destruct raf; cbn; tracked_tac.
Qed.

(** [handleScroll] keeps every timer and frame tracked: it arms a deferred
    apply only when [scrollTimeout] is null, and clears the end-of-scroll timer
    before it arms the next one. *)
Lemma handleScroll_tracked (target : target) (e : Env) (w : World) :
  tracked (coord w) (host w) ->
  tracked (coord (handleScroll target e w)) (host (handleScroll target e w)).
Proof.
  intros Ht. unfold handleScroll.
  destruct (foreignTarget _ _); [exact Ht |].
  destruct (Qeq_bool _ _); [exact Ht |].
  cbv zeta.
  destruct w as [p v [dir vel raf scr endT st lt lo] [ts fs nt nf ls lg] dd].
  cbn in *.
  destruct (negb _).
  - apply updateScrollState_tracked. cbn. destruct endT; cbn; tracked_tac.
  - destruct (_ <? _).
    + destruct st; cbn; destruct endT; cbn; tracked_tac.
    + set (wm := updateScrollState _ _ _).
      assert (Hm : tracked (coord wm) (host wm)).
      { subst wm. apply updateScrollState_tracked. cbn. destruct endT; cbn; tracked_tac. }
      assert (Hk : timers (host wm) = timers (clearTimeout_if endT
                                                (mkHost ts fs nt nf ls lg))
                   /\ scrollTimeout (coord wm) = st
                   /\ scrollEndTimeout (coord wm) = endT).
      { subst wm. unfold updateScrollState. cbn.
        destruct (Qlt_bool _ _); cbn; [auto |]. destruct raf; cbn; auto. }
      clearbody wm. destruct Hk as (Hts & Hst & Hend).
      destruct wm as [p' v' [dir' vel' raf' scr' endT' st' lt' lo'] [ts' fs' nt' nf' ls' lg'] dd'].
      cbn in *. subst.
      destruct Ht as (Hd & He & Hf). destruct Hm as (Hd' & He' & Hf'). cbn in *.
      repeat split; cbn; intros; lookup_cases; try discriminate; eauto.
      exfalso.
      match goal with
      | H : context [clearTimeout_if ?x _] |- _ => destruct x as [t |]
      end; cbn in *; lookup_cases;
        match goal with
        | H : ts !! _ = Some (_, ScrollEnd _) |- _ => pose proof (He _ _ _ H); congruence
        end.
Qed.

(** It touches nothing but the coordinator's variables and the two queues. *)
Lemma handleScroll_rest (target : target) (e : Env) (w : World) :
  view (handleScroll target e w) = view w
  /\ props (handleScroll target e w) = props w
  /\ destroyed (handleScroll target e w) = destroyed w
  /\ listeners (host (handleScroll target e w)) = listeners (host w).
Proof.
  unfold handleScroll, updateScrollState.
  destruct w as [p v [dir vel raf scr endT st lt lo] [ts fs nt nf ls lg] dd].
  cbn. destruct endT, raf; cbn;
  repeat match goal with
         | |- context [if ?b then _ else _] => destruct b
         | |- context [match ?x with Some _ => _ | None => _ end] => destruct x
         end; cbn; auto.
Qed.

(** The invariant only reads [core] and the two [container] values. *)
Lemma Inv_transfer (w w' : World) :
  core w' = core w -> sameContainer w' -> Inv w -> Inv w'.
Proof.
  unfold core. intros Hc Hs (Ht & Hm & Hd & Hl & _).
  injection Hc as Hco Hts Hfs Hls Hmo Hsw Hde.
  unfold Inv, idle in *. rewrite Hmo, Hde, Hsw, Hts, Hfs, Hls.
  split; [| auto].
  destruct Ht as (H1 & H2 & H3). unfold tracked.
  rewrite Hco, Hts, Hfs. auto.
Qed.

(** The functions run by property updates and by the reactive statements are
    stable. *)
Lemma stable_comp (f g : World -> World) :
  stable f -> stable g -> stable (fun w => g (f w)).
Proof.
  intros Hf Hg w Hs. destruct (Hf w Hs) as (Hc1 & Hs1).
  destruct (Hg (f w) Hs1) as (Hc2 & Hs2). split; [congruence | exact Hs2].
Qed.

Lemma stable_refresh (e : Env) : stable (refresh e).
Proof.
  intros w Hs. unfold refresh, core, sameContainer in *.
  destruct (getVisibleHeight _ e) as [n |]; [destruct (Qlt_bool 1 _) |]; cbn; auto.
Qed.

Lemma stable_scrollTo (value : option Q) (e : Env) : stable (scrollTo value e).
Proof.
  intros w Hs. unfold scrollTo, core, sameContainer in *.
  destruct (scrollWrapper (view w)) eqn:Hsw; [| rewrite Hsw; auto].
  destruct value; [| rewrite Hsw; auto].
  destruct (hasScrollMethod e); cbn; rewrite Hsw; auto.
Qed.

Lemma stable_recomputeSizes (i : Z) (e : Env) : stable (recomputeSizes i e).
Proof.
  intros w Hs. unfold recomputeSizes.
  apply (stable_comp (with_host (emit (MgrResetItem i))) (refresh e));
    [| apply stable_refresh | exact Hs].
  intros w0 Hs0. unfold core, sameContainer in *. cbn. auto.
Qed.

Lemma stable_stateUpdated (e : Env) : stable (stateUpdated e).
Proof.
  intros w Hs. unfold stateUpdated.
  destruct (negb (mounted (view w))); [auto |].
  cbv zeta.
  set (w1 := if _ : bool then refresh e w else w).
  assert (H1 : core w1 = core w /\ sameContainer w1).
  { subst w1. destruct (_ || _); [apply stable_refresh; exact Hs | auto]. }
  destruct H1 as (Hc1 & Hs1).
  match goal with
  | |- context [if ?b then scrollTo ?v e w1 else w1] =>
      set (w2 := if b then scrollTo v e w1 else w1);
      assert (H2 : core w2 = core w1 /\ sameContainer w2)
        by (subst w2; destruct b; [apply stable_scrollTo; exact Hs1 | auto])
  end.
  destruct H2 as (Hc2 & Hs2). clearbody w2 w1.
  unfold core, sameContainer in *. cbn. split; [congruence | exact Hs2].
Qed.

Lemma stable_itemsChanged (e : Env) : stable (itemsChanged e).
Proof.
  intros w Hs. unfold itemsChanged.
  destruct (mounted (view w) && _); [| auto].
  cbv zeta.
  set (w1 := with_view (set_prevItemsLength _) w).
  set (w2 := if _ =? _ then _ else w1).
  assert (H2 : core w2 = core w /\ sameContainer w2).
  { subst w2 w1. unfold core, sameContainer in *. destruct (_ =? _); cbn; auto. }
  clearbody w2. clear w1. destruct H2 as (Hc2 & Hs2).
  set (w3 := if _ && _ then _ else w2).
  assert (H3 : core w3 = core w2 /\ sameContainer w3).
  { subst w3. unfold core, sameContainer in *. destruct (_ && _); cbn; auto. }
  clearbody w3. destruct H3 as (Hc3 & Hs3).
  match goal with
  | |- context [refresh e ?x] =>
      assert (H4 : core (refresh e x) = core w3 /\ sameContainer (refresh e x));
      [ destruct (stable_refresh e x) as (Hc4 & Hs4);
        [ unfold sameContainer in *; cbn; exact Hs3 |];
        split; [rewrite Hc4; unfold core; cbn; reflexivity | exact Hs4]
      | set (w4 := refresh e x) in * ]
  end.
  clearbody w4. destruct H4 as (Hc4 & Hs4).
  unfold core, sameContainer in *. cbn. split; [congruence | exact Hs4].
Qed.

Lemma stable_propsUpdated (e : Env) : stable (propsUpdated e).
Proof.
  intros w Hs. unfold propsUpdated.
  destruct (negb (mounted (view w))); [auto |].
  unfold expandItemsNotIdentical. cbv beta zeta.
  rewrite (bool_decide_eq_true_2 _ Hs).
  repeat (rewrite ?orb_true_r; cbn [orb negb]). cbv iota.
  set (w1 := with_host (emit (MgrUpdateConfig _)) w).
  set (w3 := recomputeSizes 0 e w1).
  assert (H3 : core w3 = core w /\ sameContainer w3).
  { destruct (stable_recomputeSizes 0 e w1) as (Hc & Hs').
    - subst w1. unfold sameContainer in *. cbn. exact Hs.
    - fold w3 in Hc, Hs'. split; [rewrite Hc; reflexivity | exact Hs']. }
  clearbody w3. clear w1. destruct H3 as (Hc3 & Hs3).
  unfold core, sameContainer in *.
  destruct (optQ_neq _ _); [cbn; split; [congruence | reflexivity] |].
  destruct (scrollToIndex _); [| cbn; split; [congruence | reflexivity]].
  cbn. split; [congruence | reflexivity].
Qed.

Lemma stable_setItemCount (n : Z) (e : Env) : stable (setItemCount n e).
Proof.
  unfold setItemCount. cbv zeta.
  apply (stable_comp (fun w => propsUpdated e (itemsChanged e
           (clampItemCount (with_props (set_itemCount n) w)))) (stateUpdated e));
    [| apply stable_stateUpdated].
  apply (stable_comp (fun w => itemsChanged e
           (clampItemCount (with_props (set_itemCount n) w))) (propsUpdated e));
    [| apply stable_propsUpdated].
  apply (stable_comp (fun w => clampItemCount (with_props (set_itemCount n) w))
                     (itemsChanged e)); [| apply stable_itemsChanged].
  intros w Hs. unfold core, sameContainer in *. destruct w as [p v c h dd].
  destruct p. cbn in *. auto.
Qed.

Lemma stable_mountedUpdated (e : Env) : stable (mountedUpdated e).
Proof.
  unfold mountedUpdated. cbv zeta.
  apply (stable_comp (fun w => stateUpdated e (propsUpdated e (itemsChanged e w)))
                     (recomputeSizes 0 e)); [| apply stable_recomputeSizes].
  apply (stable_comp (fun w => propsUpdated e (itemsChanged e w)) (stateUpdated e));
    [| apply stable_stateUpdated].
  apply (stable_comp (itemsChanged e) (propsUpdated e));
    [apply stable_itemsChanged | apply stable_propsUpdated].
Qed.

(** A timer that fires was the only one of its kind; its callback nulls
    [scrollTimeout] (deferred apply) or leaves a stale handle behind
    (end of scroll). *)
Lemma runTimer_Inv (id : positive) (due : Z) (cb : TimerTask) (e : Env) (w : World) :
  timers (host w) !! id = Some (due, cb) ->
  Inv w -> Inv (runTimer cb e (with_host (takeTimer id) w)).
Proof.
  intros Hcb (Ht & Hm & Hd & Hl & Hs).
  assert (Hmounted : mounted (view w) = true).
  { destruct (mounted (view w)) eqn:E; [reflexivity |].
    destruct (Hm eq_refl) as (H0 & _). rewrite H0, lookup_empty in Hcb. discriminate. }
  assert (Halive : destroyed w = false).
  { destruct (destroyed w) eqn:E; [| reflexivity].
    destruct (Hd eq_refl) as (H0 & _). rewrite H0, lookup_empty in Hcb. discriminate. }
  set (w' := runTimer cb e (with_host (takeTimer id) w)).
  assert (Hrest : view w' = view w /\ props w' = props w /\ destroyed w' = destroyed w
                  /\ listeners (host w') = listeners (host w)).
  { subst w'. unfold runTimer, updateScrollState.
    destruct w as [p v [dir vel raf scr endT st lt lo] [ts fs nt nf ls lg] dd].
    destruct cb; cbn; destruct (Qlt_bool _ _); cbn; destruct raf; cbn; auto. }
  destruct Hrest as (Hv & Hp & Hdd & Hls).
  assert (Htr : tracked (coord w') (host w')).
  { subst w'. unfold runTimer. destruct cb; apply updateScrollState_tracked.
    - destruct w as [p v [dir vel raf scr endT st lt lo] [ts fs nt nf ls lg] dd].
      cbn in *. destruct Ht as (Hde & Hen & Hfr). cbn in *.
      repeat split; cbn; intros; lookup_cases; eauto.
      exfalso.
      match goal with
      | H : ts !! ?i = Some (_, DeferredApply _ _) |- _ =>
          pose proof (Hde _ _ _ _ H); pose proof (Hde _ _ _ _ Hcb); congruence
      end.
    - destruct w as [p v [dir vel raf scr endT st lt lo] [ts fs nt nf ls lg] dd].
      cbn in *. tracked_tac. }
  unfold Inv, sameContainer. rewrite Hv, Hp, Hdd, Hls, Hmounted, Halive.
  split; [exact Htr |]. split; [discriminate |]. split; [discriminate |].
  split; [| exact Hs]. intros _. rewrite Hmounted in Hl. exact (Hl eq_refl).
Qed.

(** A frame that fires was the only one requested; its callback nulls [rafId]. *)
Lemma runFrame_Inv (id : positive) (cb : FrameTask) (e : Env) (w : World) :
  frames (host w) !! id = Some cb ->
  Inv w -> Inv (stateUpdated e (runFrame cb e (with_host (takeFrame id) w))).
Proof.
  intros Hcb Hinv.
  set (w1 := runFrame cb e (with_host (takeFrame id) w)).
  assert (H1 : Inv w1).
  { destruct Hinv as (Ht & Hm & Hd & Hl & Hs).
    assert (Hmounted : mounted (view w) = true).
    { destruct (mounted (view w)) eqn:E; [reflexivity |].
      destruct (Hm eq_refl) as (_ & H0 & _). rewrite H0, lookup_empty in Hcb.
      discriminate. }
    assert (Halive : destroyed w = false).
    { destruct (destroyed w) eqn:E; [| reflexivity].
      destruct (Hd eq_refl) as (_ & H0 & _). rewrite H0, lookup_empty in Hcb.
      discriminate. }
    subst w1. destruct cb as [c d].
    destruct w as [p v [dir vel raf scr endT st lt lo] [ts fs nt nf ls lg] dd].
    destruct v. unfold Inv, sameContainer, idle in *. cbn in *. subst.
    split.
    - destruct Ht as (Hde & Hen & Hfr). cbn in *.
      repeat split; cbn; intros; lookup_cases; eauto.
      exfalso. pose proof (Hfr _ _ Hcb).
      match goal with
      | H : fs !! ?i = Some _, Hne : id <> ?i |- _ => pose proof (Hfr _ _ H); congruence
      end.
    - split; [discriminate |]. split; [discriminate |]. split; [| exact Hs].
      intros _. exact (Hl eq_refl). }
  destruct H1 as (Ht & Hm & Hd & Hl & Hs).
  apply (Inv_transfer w1); [| | unfold Inv; auto];
    apply stable_stateUpdated; exact Hs.
Qed.

Lemma filter_two_out (a b : Listener) (ls : list Listener) :
  (forall l, l ∈ ls -> l = a \/ l = b) ->
  filter (fun l' => l' <> b) (filter (fun l' => l' <> a) ls) = [].
Proof.
  induction ls as [| x ls IH]; intros H; [reflexivity |].
  assert (Hx : x = a \/ x = b) by (apply H; left).
  assert (Hls : forall l, l ∈ ls -> l = a \/ l = b) by (intros l Hl; apply H; right; exact Hl).
  rewrite filter_cons. destruct (decide (x <> a)) as [Hne | Heq].
  - rewrite filter_cons. destruct (decide (x <> b)) as [Hnb | _]; [tauto | auto].
  - auto.
Qed.

(** [onDestroy] empties both queues and removes both listeners. *)
Lemma onDestroy_idle (w : World) :
  Inv w -> idle (host (onDestroy w)).
Proof.
  intros (Ht & Hm & Hd & Hl & Hs). unfold onDestroy.
  destruct (mounted (view w)) eqn:Hmo; [| exact (Hm eq_refl)].
  destruct (Hl eq_refl) as (el & Hsw & Hls). cbv zeta.
  destruct w as [p v [dir vel raf scr endT st lt lo] [ts fs nt nf ls lg] dd].
  cbn in *. rewrite Hsw. destruct Ht as (Hde & Hen & Hfr). cbn in *.
  unfold idle. cbn. split; [| split].
  - apply map_empty. intros i.
    destruct (_ !! i) as [[due [c d | c]] |] eqn:E; [| | reflexivity]; exfalso.
    + destruct st as [t |], endT as [t' |], raf as [r |]; cbn in E; lookup_cases;
        pose proof (Hde _ _ _ _ E); congruence.
    + destruct st as [t |], endT as [t' |], raf as [r |]; cbn in E; lookup_cases;
        pose proof (Hen _ _ _ E); congruence.
  - apply map_empty. intros i.
    destruct (_ !! i) as [f |] eqn:E; [| reflexivity]; exfalso.
    destruct st as [t |], endT as [t' |], raf as [r |]; cbn in E; lookup_cases;
      pose proof (Hfr _ _ E); congruence.
  - destruct st as [t |], endT as [t' |], raf as [r |]; cbn;
      apply filter_two_out; exact Hls.
Qed.

Lemma onDestroy_Inv (w : World) :
  Inv w -> Inv (set_destroyed true (onDestroy w)).
Proof.
  intros Hinv. pose proof (onDestroy_idle w Hinv) as Hidle.
  destruct Hinv as (Ht & Hm & Hd & Hl & Hs).
  assert (Hrest : view (onDestroy w) = view w /\ props (onDestroy w) = props w
                  /\ coord (onDestroy w) = coord w).
  { unfold onDestroy. destruct (mounted (view w)); [| auto].
    cbv zeta.
    destruct w as [p v [dir vel raf scr endT st lt lo] [ts fs nt nf ls lg] dd].
    destruct v as [m sw ? ? ? ? ? ? ?]. cbn. destruct sw; cbn; auto. }
  destruct Hrest as (Hv & Hp & Hc).
  destruct Hidle as (Hts & Hfs & Hls).
  set (w1 := onDestroy w) in *. clearbody w1.
  destruct w1 as [p1 v1 c1 h1 d1]. cbn in Hv, Hp, Hc, Hts, Hfs, Hls. subst.
  unfold Inv, sameContainer, idle, tracked. cbn. rewrite Hts, Hfs, Hls.
  split.
  - repeat split; intros; rewrite lookup_empty in *; discriminate.
  - split; [auto |]. split; [auto |]. split; [| exact Hs].
    intros Hmo. destruct (Hl Hmo) as (el & Hsw & _). exists el.
    split; [exact Hsw |]. intros l Hin. apply elem_of_nil in Hin. contradiction.
Qed.

Lemma addEventListener_elem (a l : Listener) (h : Host TimerTask FrameTask) :
  l ∈ listeners (addEventListener a h) -> l = a \/ l ∈ listeners h.
Proof.
  unfold addEventListener. cbn. case_decide; [auto |].
  intros Hin. apply elem_of_cons in Hin. exact Hin.
Qed.

(** Mounting registers the two listeners and arms nothing. *)
Lemma onMount_Inv (e : Env) (w : World) :
  Inv w -> mounted (view w) = false -> destroyed w = false -> Inv (onMount e w).
Proof.
  intros (Ht & Hm & Hd & Hl & Hs) Hmo Halive.
  destruct (Hm Hmo) as (Hts & Hfs & Hls).
  assert (H1 : forall w0,
             timers (host w0) = ∅ -> frames (host w0) = ∅ ->
             mounted (view w0) = true ->
             (exists el, scrollWrapper (view w0) = Some el
                         /\ forall l, l ∈ listeners (host w0) ->
                                      l = OnWindowResize \/ l = scrollListenerOf el) ->
             sameContainer w0 -> destroyed w0 = destroyed w -> Inv w0).
  { intros w0 H0t H0f H0m H0l H0s H0d. unfold Inv, idle, tracked.
    rewrite H0t, H0f, H0m, H0d.
    split; [repeat split; intros; rewrite lookup_empty in *; discriminate |].
    split; [discriminate |]. split; [| auto].
    rewrite Halive. discriminate. }
  unfold onMount. cbv zeta.
  set (w1 := with_view (set_mounted true) _).
  assert (Hw1 : timers (host w1) = ∅ /\ frames (host w1) = ∅
                /\ listeners (host w1) = [] /\ mounted (view w1) = true
                /\ sameContainer w1 /\ destroyed w1 = destroyed w).
  { subst w1. unfold sameContainer in *.
    destruct (headerOffsetHeight e); cbn; repeat split; auto. }
  clearbody w1. destruct Hw1 as (H1t & H1f & H1l & H1m & H1s & H1d).
  set (w2 := containerPropUpdated w1).
  assert (Hw2 : timers (host w2) = ∅ /\ frames (host w2) = ∅
                /\ mounted (view w2) = true
                /\ (exists el, scrollWrapper (view w2) = Some el
                     /\ forall l, l ∈ listeners (host w2) ->
                                  l = OnWindowResize \/ l = scrollListenerOf el)
                /\ sameContainer w2 /\ destroyed w2 = destroyed w).
  { assert (Hmem : forall el (h : Host TimerTask FrameTask) l,
               listeners h = [] ->
               l ∈ listeners (addEventListener (scrollListenerOf el)
                                (addEventListener OnWindowResize h)) ->
               l = OnWindowResize \/ l = scrollListenerOf el).
    { intros el h l Hnil Hin.
      apply addEventListener_elem in Hin. destruct Hin as [-> | Hin]; [auto |].
      apply addEventListener_elem in Hin. destruct Hin as [-> | Hin]; [auto |].
      rewrite Hnil in Hin. apply elem_of_nil in Hin. contradiction. }
    subst w2. unfold containerPropUpdated, sameContainer in *.
    destruct w1 as [p1 [m1 sw1 ? ? ? pp1 ? ? ?] c1 h1 d1].
    cbn in *. subst.
    destruct (container p1) eqn:Hcp; cbn -[addEventListener];
      try destruct sw1; cbn -[addEventListener];
      try destruct (_ || _); cbn -[addEventListener];
      (split; [assumption |]; split; [assumption |]; split; [reflexivity |];
       split; [eexists; split;
               [reflexivity | intros l Hin; apply (Hmem _ h1 l H1l); exact Hin] |];
       split; [congruence | reflexivity]). }
  clearbody w2. destruct Hw2 as (H2t & H2f & H2m & H2l & H2s & H2d).
  assert (Hfin : forall w3, core w3 = core w2 -> sameContainer w3 -> Inv w3).
  { intros w3 Hc3 Hs3. unfold core in Hc3.
    injection Hc3 as Hco Hts3 Hfs3 Hls3 Hmo3 Hsw3 Hde3.
    apply H1; try congruence. rewrite Hsw3, Hls3. exact H2l. }
  destruct (scrollOffset (props w2)).
  - apply Hfin; apply stable_scrollTo; exact H2s.
  - destruct (scrollToIndex (props w2)); [| apply Hfin; [reflexivity | exact H2s]].
    cbn.
    match goal with
    | |- Inv (scrollTo ?v e ?x) =>
        destruct (stable_scrollTo v e x) as (Hc3 & Hs3);
        [unfold sameContainer in *; cbn; exact H2s |];
        apply Hfin; [rewrite Hc3; reflexivity | exact Hs3]
    end.
Qed.

(** The invariant holds at creation and is kept by every event. *)
Lemma Inv_init (p : Props) (offset0 : Q) (e : Env) : Inv (init p offset0 e).
Proof.
  unfold init. cbv zeta.
  match goal with
  | |- Inv (clampItemCount (refresh e ?x)) =>
      assert (H0 : Inv x);
      [| apply (Inv_transfer x); [| | exact H0] ]
  end.
  - unfold Inv, idle, sameContainer, tracked. cbn.
    split; [repeat split; cbn; intros; rewrite lookup_empty in *; discriminate |].
    split; [auto |]. split; [discriminate |]. split; [discriminate | reflexivity].
  - destruct (stable_refresh e _ (proj2 (proj2 (proj2 (proj2 H0))))) as (Hc & _).
    rewrite <- Hc. unfold core, clampItemCount. cbn. reflexivity.
  - destruct (stable_refresh e _ (proj2 (proj2 (proj2 (proj2 H0))))) as (_ & Hs).
    unfold sameContainer, clampItemCount in *.
    match goal with
    | |- context [refresh e ?x] => set (w1 := refresh e x) in *
    end.
    clearbody w1. destruct w1 as [p1 v1 c1 h1 d1]. destruct p1. cbn in *. exact Hs.
Qed.

Lemma Inv_deliver (ev : Event) (w : World) : Inv w -> Inv (deliver ev w).
Proof.
  intros Hinv. destruct ev as [e | target e | e | id e | id e | n e |]; cbn.
  - destruct (mounted (view w)) eqn:Hmo; [exact Hinv |].
    destruct (destroyed w) eqn:Hde; [exact Hinv |]. cbn.
    pose proof (onMount_Inv e w Hinv Hmo Hde) as H1.
    apply (Inv_transfer (onMount e w)); [| | exact H1];
      apply stable_mountedUpdated; apply H1.
  - case_bool_decide as Hin; [| exact Hinv].
    destruct (handleScroll_rest target e w) as (Hv & Hp & Hd & Hls).
    pose proof (handleScroll_tracked target e w (proj1 Hinv)) as Ht.
    destruct Hinv as (_ & Hm & Hdd & Hl & Hs).
    unfold Inv, sameContainer. rewrite Hv, Hp, Hd, Hls.
    split; [exact Ht |].
    split; [intros H0; destruct (Hm H0) as (_ & _ & H1); rewrite H1 in Hin;
            apply elem_of_nil in Hin; contradiction |].
    split; [intros H0; destruct (Hdd H0) as (_ & _ & H1); rewrite H1 in Hin;
            apply elem_of_nil in Hin; contradiction |].
    split; [exact Hl | exact Hs].
  - case_bool_decide as Hin; [| exact Hinv].
    rewrite handleScroll_window. exact Hinv.
  - destruct (timers (host w) !! id) as [[due cb] |] eqn:Hcb; [| exact Hinv].
    destruct (due <=? Date_now e); [| exact Hinv].
    apply (runTimer_Inv id due); assumption.
  - destruct (frames (host w) !! id) as [cb |] eqn:Hcb; [| exact Hinv].
    apply (runFrame_Inv id); assumption.
  - destruct (destroyed w); [exact Hinv |].
    apply (Inv_transfer w); [| | exact Hinv];
      apply stable_setItemCount; apply Hinv.
  - destruct (destroyed w); [exact Hinv |]. apply onDestroy_Inv. exact Hinv.
Qed.




End Teardown.

(** The two simpler variants keep no frame handle: [onDestroy] leaves every
    requested frame in place (the debounce-only variant clears its timer). *)
Lemma Basic_onDestroy_keeps_frames (w : Basic.World) :
  frames (Basic.host (Basic.onDestroy w)) = frames (Basic.host w).
Proof.
  unfold Basic.onDestroy. destruct (Basic.mounted (Basic.view w)); [| reflexivity].
  destruct w as [p [m sw ? ? ?] [st ? ?] h]. cbn.
  destruct sw, st; reflexivity.
Qed.

Lemma Plain_onDestroy_keeps_frames (w : Plain.World) :
  frames (Plain.host (Plain.onDestroy w)) = frames (Plain.host w).
Proof.
  unfold Plain.onDestroy. destruct (Plain.mounted (Plain.view w)); [| reflexivity].
  destruct w as [p [m sw ? ? ?] h]. cbn. destruct sw; reflexivity.
Qed.

(** * The rendered items *)

Lemma sticky_test (s : option (list Z)) (i : Z) :
  hasStickyIndices s && includes s i = bool_decide (i ∈ stickyList s).
Proof.
  destruct s as [[| x l] |]; reflexivity.
Qed.

Lemma stickyLoop_fold (s : option (list Z)) {A} (f : A -> Z -> A) (st : A) :
  (if hasStickyIndices s then foldl f st (stickyList s) else st)
  = foldl f st (stickyList s).
Proof. destruct s as [[| x l] |]; reflexivity. Qed.

(** The elements of [seqZ] inside an interval. *)
Lemma filter_seqZ_interval (lo hi a : Z) (n : nat) :
  filter (fun i => lo <= i < hi) (seqZ a (Z.of_nat n))
  = seqZ (Z.max a lo) (Z.min (a + Z.of_nat n) hi - Z.max a lo).
Proof.
  revert a. induction n as [| n IH]; intros a.
  - rewrite seqZ_nil by lia. rewrite seqZ_nil by lia. reflexivity.
  - rewrite seqZ_cons by lia.
    replace (Z.pred (Z.of_nat (S n))) with (Z.of_nat n) by lia.
    rewrite filter_cons. rewrite IH. case_decide as Hin.
    + rewrite (seqZ_cons (Z.max a lo)) by lia.
      f_equal; [lia |]. f_equal; lia.
    + destruct (decide (a < lo)).
      * f_equal; lia.
      * rewrite !seqZ_nil by lia. reflexivity.
Qed.

(** The indices the two loops of the adaptive variant push. *)
Section Adaptive_items.
Import AdaptiveView.
Variable numberToString : jsnum -> string.
Variable p : Props.
Variable mgr : Z -> SizeAndPosition.
Variable sticky : option (list Z).

Local Abbreviation len := (Z.of_nat (items_length (items p))).

Lemma push_indices (i : Z) (b : bool) (st : Painting) :
  item_index <$> (push numberToString p mgr i b st).1 = (item_index <$> st.1) ++ [i].
Proof.
  unfold push. destruct (getStyle _ _ _ _ _ _) as [s c]. cbn.
  rewrite fmap_app. reflexivity.
Qed.

Lemma stickyLoop_indices (l : list Z) (st : Painting) :
  item_index <$> (foldl (stickyStep numberToString p mgr) st l).1
  = (item_index <$> st.1) ++ filter (fun i => 0 <= i < len) l.
Proof.
  revert st. induction l as [| i l IH]; intros st.
  - cbn. rewrite app_nil_r. reflexivity.
  - rewrite filter_cons. cbn [foldl]. rewrite IH. unfold stickyStep.
    case_decide as Hin.
    + replace ((0 <=? i) && (i <? len)) with true
        by (symmetry; apply andb_true_iff; lia).
      rewrite push_indices, <- app_assoc. reflexivity.
    + replace ((0 <=? i) && (i <? len)) with false
        by (symmetry; apply andb_false_iff; lia).
      reflexivity.
Qed.

Lemma rangeLoop_indices (l : list Z) (st : Painting) :
  item_index <$> (foldl (rangeStep numberToString p mgr sticky) st l).1
  = (item_index <$> st.1)
    ++ filter (fun i => 0 <= i < len /\ i ∉ stickyList sticky) l.
Proof.
  revert st. induction l as [| i l IH]; intros st.
  - cbn. rewrite app_nil_r. reflexivity.
  - rewrite filter_cons. cbn [foldl]. rewrite IH. unfold rangeStep.
    rewrite sticky_test.
    case_decide as Hin.
    + destruct Hin as [Hr Hs].
      replace ((i <? 0) || (len <=? i)) with false
        by (symmetry; apply orb_false_iff; lia).
      rewrite bool_decide_eq_false_2 by exact Hs.
      rewrite push_indices, <- app_assoc. reflexivity.
    + destruct ((i <? 0) || (len <=? i)) eqn:E; [reflexivity |].
      case_bool_decide as Hs; [reflexivity |].
      exfalso. apply Hin. apply orb_false_iff in E. split; [lia | exact Hs].
Qed.

(** A step of the range loop skips an index outside the items. *)
Lemma rangeLoop_filter (l : list Z) (st : Painting) :
  foldl (rangeStep numberToString p mgr sticky) st l
  = foldl (rangeStep numberToString p mgr sticky) st
          (filter (fun i => 0 <= i < len) l).
Proof.
  revert st. induction l as [| i l IH]; intros st; [reflexivity |].
  rewrite filter_cons. cbn [foldl]. case_decide as Hin.
  - cbn [foldl]. apply IH.
  - rewrite IH. f_equal. unfold rangeStep.
    replace ((i <? 0) || (len <=? i)) with true; [reflexivity |].
    symmetry. apply orb_true_iff. lia.
Qed.

Lemma seqZ_clamped (n : nat) (start stop : Z) :
  seqZ (Z.max 0 start) (Z.min (Z.of_nat n - 1) stop - Z.max 0 start + 1)
  = filter (fun i => 0 <= i < Z.of_nat n) (seqZ start (stop - start + 1)).
Proof.
  destruct (decide (stop - start + 1 <= 0)) as [Hle | Hgt].
  - rewrite (seqZ_nil start) by lia. rewrite seqZ_nil by lia. reflexivity.
  - pose proof (filter_seqZ_interval 0 (Z.of_nat n) start
                                       (Z.to_nat (stop - start + 1))) as H.
    rewrite Z2Nat.id in H by lia. rewrite H. f_equal; lia.
Qed.

(** The range loop of [updateVisibleItems], over the clamped bounds, does what
    the loop over the bounds as given does. *)
Lemma rangeLoop_clamped (start stop : Z) (st : Painting) :
  rangeLoop numberToString p mgr sticky
            (Z.max 0 start) (Z.min (len - 1) stop) st
  = rangeLoop numberToString p mgr sticky start stop st.
Proof.
  unfold rangeLoop. rewrite (rangeLoop_filter (seqZ start _)).
  rewrite seqZ_clamped. reflexivity.
Qed.

End Adaptive_items.

Lemma rendered_indices_spec (len : Z) (sticky : option (list Z)) (start stop : Z)
    (l : list Z) :
  l = filter (fun i => 0 <= i < len) (stickyList sticky)
      ++ filter (fun i => 0 <= i < len /\ i ∉ stickyList sticky)
                (seqZ start (stop - start + 1)) ->
  (forall i, i ∈ l <-> 0 <= i < len /\ (i ∈ stickyList sticky \/ start <= i <= stop))
  /\ (NoDup (stickyList sticky) -> NoDup l).
Proof.
  intros ->. split.
  - intros i. rewrite elem_of_app, !list_elem_of_filter, elem_of_seqZ.
    destruct (decide (i ∈ stickyList sticky)); intuition lia.
  - intros Hnd. apply NoDup_app. split; [apply NoDup_filter; exact Hnd |].
    split; [| apply NoDup_filter, NoDup_seqZ].
    intros i. rewrite !list_elem_of_filter. tauto.
Qed.

(** X1.  [updateVisibleItems(start, stop)] renders the sticky indices that
    are indices of [items], in the order of [stickyIndices], followed by the
    other indices of [start..stop] that are indices of [items], in increasing
    order.  An index is rendered exactly when it is an index of [items]
    ([0 <= i < items.length]) and is sticky or lies in the range; when
    [stickyIndices] holds no index twice, no index is rendered twice. *)
Theorem updateVisibleItems_indices
    (numberToString : jsnum -> string) (p : Props) (mgr : Z -> SizeAndPosition)
    (sticky : option (list Z)) (start stop : Z) (c : AdaptiveView.Canvas) :
  let len := Z.of_nat (items_length (items p)) in
  let indices :=
    item_index <$> AdaptiveView.visibleItems
      (AdaptiveView.updateVisibleItems numberToString p mgr sticky
                                       (Some (start, stop)) c).1 in
  indices = filter (fun i => 0 <= i < len) (stickyList sticky)
            ++ filter (fun i => 0 <= i < len /\ i ∉ stickyList sticky)
                      (seqZ start (stop - start + 1))
  /\ (forall i, i ∈ indices
                <-> 0 <= i < len /\ (i ∈ stickyList sticky \/ start <= i <= stop))
  /\ (NoDup (stickyList sticky) -> NoDup indices).
Proof.
  intros len indices.
  assert (H : indices
              = filter (fun i => 0 <= i < len) (stickyList sticky)
                ++ filter (fun i => 0 <= i < len /\ i ∉ stickyList sticky)
                          (seqZ start (stop - start + 1))).
  { subst indices. unfold AdaptiveView.updateVisibleItems. cbn.
    rewrite rangeLoop_clamped. unfold AdaptiveView.rangeLoop, AdaptiveView.stickyLoop.
    rewrite rangeLoop_indices, stickyLoop_fold, stickyLoop_indices. reflexivity. }
  split; [exact H |]. eapply rendered_indices_spec. exact H.
Qed.

(** X2.  For a range the manager answered, [refresh()] and
    [updateVisibleItems] build the same [visibleItems] and leave the same style
    cache: clamping [start] and [stop] first, as [updateVisibleItems] does,
    renders what skipping the indices outside [items] renders.  Their
    [itemsUpdated] notifications differ: [refresh] reports the range as
    answered and the total size, [updateVisibleItems] the clamped range. *)
Theorem refresh_and_updateVisibleItems_agree
    (numberToString : jsnum -> string) (p : Props) (height width : DimValue)
    (mgr : Z -> SizeAndPosition) (sticky : option (list Z)) (start stop : Z)
    (totalSize : jsnum) (c : AdaptiveView.Canvas) :
  let r := AdaptiveView.refreshItems numberToString p height width mgr sticky
                                     (Some (start, stop)) totalSize c in
  let u := AdaptiveView.updateVisibleItems numberToString p mgr sticky
                                           (Some (start, stop)) c in
  AdaptiveView.visibleItems r.1 = AdaptiveView.visibleItems u.1
  /\ AdaptiveView.styleCache r.1 = AdaptiveView.styleCache u.1
  /\ r.2 = Some {| detail_start := start; detail_end := stop;
                   detail_totalSize := Some totalSize |}
  /\ u.2 = Some {| detail_start := Z.max 0 start;
                   detail_end := Z.min (Z.of_nat (items_length (items p)) - 1) stop;
                   detail_totalSize := None |}.
Proof.
  intros r u. subst r u.
  unfold AdaptiveView.refreshItems, AdaptiveView.updateVisibleItems. cbn.
  rewrite rangeLoop_clamped.
  assert (Hc : AdaptiveView.styleCache
                 (AdaptiveView.updateContainerSize numberToString p height width
                                                   totalSize c)
               = AdaptiveView.styleCache c).
  { unfold AdaptiveView.updateContainerSize.
    destruct (scrollDirection p); reflexivity. }
  rewrite Hc. auto.
Qed.

(** * The style cache and the container styles *)

(** X3.  [getStyle(index, sticky)] of the adaptive variant caches by the
    pair: a style it returns is stored under [(index, sticky)] and is returned
    again, whatever the manager answers by then and whatever [mode] and
    [scrollDirection] have become, as long as the cache is not cleared; no
    other entry is touched; [null] is returned without a cache entry, and is
    what an index outside [items] gets. *)
Theorem getStyle_caches_by_index_and_sticky
    (numberToString numberToString' : jsnum -> string) (p p' : Props)
    (mgr mgr' : Z -> SizeAndPosition)
    (index : Z) (sticky : bool) (cache : gmap (Z * bool) ItemStyle) :
  let r := AdaptiveView.getStyle numberToString p mgr index sticky cache in
  (forall s, r.1 = Some s ->
     r.2 !! (index, sticky) = Some s
     /\ (items_length (items p') = items_length (items p) ->
         AdaptiveView.getStyle numberToString' p' mgr' index sticky r.2 = (Some s, r.2)))
  /\ (r.1 = None -> r.2 = cache)
  /\ (forall k, k <> (index, sticky) -> r.2 !! k = cache !! k)
  /\ (index < 0 \/ Z.of_nat (items_length (items p)) <= index -> r = (None, cache)).
Proof.
  intros r. subst r. unfold AdaptiveView.getStyle.
  destruct ((index <? 0) || (Z.of_nat (items_length (items p)) <=? index)) eqn:Hout.
  - cbn. repeat split; try discriminate; auto.
  - destruct (cache !! (index, sticky)) as [cached |] eqn:Hc.
    + cbn. split; [| split; [discriminate | split; [auto |]]].
      * intros s [= <-]. split; [exact Hc |]. intros Hlen.
        rewrite Hlen, Hout, Hc. reflexivity.
      * intros H. apply orb_false_iff in Hout. lia.
    + destruct (is_undefined (sp_size (mgr index)) || is_undefined (sp_offset (mgr index))).
      * cbn. split; [discriminate |]. split; [reflexivity |]. split; [auto |].
        intros H. apply orb_false_iff in Hout. lia.
      * cbn. split; [| split; [discriminate | split]].
        -- intros s [= <-]. split; [apply lookup_insert_eq |]. intros Hlen.
           rewrite Hlen, Hout, lookup_insert_eq. reflexivity.
        -- intros k Hk. apply lookup_insert_ne. congruence.
        -- intros H. apply orb_false_iff in Hout. lia.
Qed.

(** X4.  In the two simpler variants [getStyle] caches by the index alone:
    the style the first call computes for an index is stored under it and is
    returned by every later call for that index, also with the other value of
    [sticky] and whatever the manager answers by then. *)
Theorem Basic_getStyle_caches_by_index_alone
    (numberToString numberToString' : jsnum -> string) (p p' : Props)
    (mgr mgr' : Z -> SizeAndPosition)
    (index : Z) (sticky sticky' : bool) (cache : gmap Z ItemStyle) :
  let r := BasicView.getStyle numberToString p mgr index sticky cache in
  r.2 !! index = Some r.1
  /\ BasicView.getStyle numberToString' p' mgr' index sticky' r.2 = r
  /\ (forall k, k <> index -> r.2 !! k = cache !! k).
Proof.
  intros r. subst r. unfold BasicView.getStyle.
  destruct (cache !! index) as [cached |] eqn:Hc; cbn.
  - rewrite Hc. auto.
  - rewrite lookup_insert_eq. split; [reflexivity |]. split; [reflexivity |].
    intros k Hk. apply lookup_insert_ne. congruence.
Qed.

(** X5.  In [src/VirtualList.svelte] the container styles are computed by
    the first [refresh()] only: after the block [if (!wrapperStyle)] has run
    [wrapperStyle] is not empty, and a later run leaves both styles as they
    are, whatever the total size, [height], [width], [mode] and
    [scrollDirection] have become. *)
Theorem Basic_container_styles_are_set_once
    (numberToString numberToString' : jsnum -> string) (p p' : Props)
    (height width height' width' : DimValue) (totalSize totalSize' : jsnum)
    (c : BasicView.Canvas) :
  let c1 := BasicView.initStyles numberToString p height width totalSize c in
  BasicView.wrapperStyle c1 <> ""
  /\ BasicView.initStyles numberToString' p' height' width' totalSize' c1 = c1.
Proof.
  intros c1.
  assert (H : BasicView.wrapperStyle c1 <> "").
  { subst c1. unfold BasicView.initStyles. case_bool_decide as He; [| exact He].
    destruct (scrollDirection p); cbn; discriminate. }
  split; [exact H |].
  unfold BasicView.initStyles at 1. rewrite bool_decide_eq_false_2 by exact H.
  reflexivity.
Qed.

Section Basic_items.
Import BasicView.
Variable numberToString : jsnum -> string.
Variable p : Props.
Variable mgr : Z -> SizeAndPosition.
Variable sticky : option (list Z).

Lemma Basic_push_indices (i : Z) (b : bool) (st : Painting) :
  item_index <$> (push numberToString p mgr i b st).1 = (item_index <$> st.1) ++ [i].
Proof.
  unfold push. destruct (getStyle _ _ _ _ _ _) as [s c]. cbn.
  rewrite fmap_app. reflexivity.
Qed.

Lemma Basic_stickyLoop_indices (l : list Z) (st : Painting) :
  item_index <$> (foldl (stickyStep numberToString p mgr) st l).1
  = (item_index <$> st.1) ++ l.
Proof.
  revert st. induction l as [| i l IH]; intros st.
  - cbn. rewrite app_nil_r. reflexivity.
  - cbn [foldl]. rewrite IH. unfold stickyStep.
    rewrite Basic_push_indices, <- app_assoc. reflexivity.
Qed.

Lemma Basic_rangeLoop_indices (l : list Z) (st : Painting) :
  item_index <$> (foldl (rangeStep numberToString p mgr sticky) st l).1
  = (item_index <$> st.1) ++ filter (fun i => i ∉ stickyList sticky) l.
Proof.
  revert st. induction l as [| i l IH]; intros st.
  - cbn. rewrite app_nil_r. reflexivity.
  - rewrite filter_cons. cbn [foldl]. rewrite IH. unfold rangeStep.
    rewrite sticky_test. case_decide as Hin.
    + rewrite bool_decide_eq_false_2 by exact Hin.
      rewrite Basic_push_indices, <- app_assoc. reflexivity.
    + rewrite bool_decide_eq_true_2; [reflexivity |].
      destruct (decide (i ∈ stickyList sticky)); tauto.
Qed.
End Basic_items.

(** X6.  [refresh()] of the two simpler variants renders every sticky index,
    then every other index of [start..stop]: an index is rendered exactly when
    it is sticky or in the range, whether or not it is an index of [items]. *)
Theorem Basic_refresh_indices
    (numberToString : jsnum -> string) (p : Props) (height width : DimValue)
    (mgr : Z -> SizeAndPosition) (sticky : option (list Z)) (start stop : Z)
    (totalSize : jsnum) (c : BasicView.Canvas) :
  let indices :=
    item_index <$> BasicView.visibleItems
      (BasicView.refreshItems numberToString p height width mgr sticky
                              (Some (start, stop)) totalSize c).1 in
  indices = stickyList sticky
            ++ filter (fun i => i ∉ stickyList sticky) (seqZ start (stop - start + 1))
  /\ (forall i, i ∈ indices <-> i ∈ stickyList sticky \/ start <= i <= stop).
Proof.
  intros indices.
  assert (H : indices
              = stickyList sticky
                ++ filter (fun i => i ∉ stickyList sticky)
                          (seqZ start (stop - start + 1))).
  { subst indices. unfold BasicView.refreshItems. cbn.
    unfold BasicView.rangeLoop, BasicView.stickyLoop.
    rewrite Basic_rangeLoop_indices, stickyLoop_fold, Basic_stickyLoop_indices.
    reflexivity. }
  split; [exact H |]. intros i. rewrite H.
  rewrite elem_of_app, list_elem_of_filter, elem_of_seqZ.
  destruct (decide (i ∈ stickyList sticky)); intuition lia.
Qed.

(** * [getDistanceToParent] *)

Section Distance.
Context {node : Type} `{EqDecision node}.
Variable body : node.

Lemma distanceLoop_shift (d : Q) (chain : list (node * Q)) (parent : option node) :
  (distanceLoop body d chain parent == d + distanceLoop body 0 chain parent)%Q.
Proof.
  revert d. induction chain as [| [el top] rest IH]; intros d; cbn.
  - ring.
  - destruct (negb _ && negb _).
    + rewrite (IH (d + top)%Q), (IH (0 + top)%Q). ring.
    + ring.
Qed.
End Distance.

(** X7.  [getDistanceToParent] adds up along the chain of offset parents:
    when [mid] is an offset ancestor of the child that is met before [parent]
    and before the document body, the distance to [parent] is the distance to
    [mid] plus the distance from [mid] to [parent]. *)
Theorem getDistanceToParent_adds_up
    {node : Type} `{EqDecision node} (body : node)
    (pre : list (node * Q)) (mid : node) (top : Q) (post : list (node * Q))
    (parent : option node) :
  (forall x, x ∈ pre.*1 -> x <> mid /\ Some x <> parent /\ x <> body) ->
  (getDistanceToParent body (pre ++ (mid, top) :: post) parent
   == getDistanceToParent body (pre ++ (mid, top) :: post) (Some mid)
      + getDistanceToParent body ((mid, top) :: post) parent)%Q.
Proof.
  unfold getDistanceToParent. generalize 0%Q at 1 2 as d.
  induction pre as [| [el t] pre IH]; intros d Hpre.
  - cbn [app]. cbn [distanceLoop].
    rewrite (bool_decide_eq_true_2 (Some mid = Some mid)) by reflexivity.
    cbn [negb andb].
    destruct (negb _ && negb _).
    + rewrite (distanceLoop_shift body (d + top)), (distanceLoop_shift body (0 + top)).
      ring.
    + ring.
  - cbn [app distanceLoop].
    destruct (Hpre el) as (Hm & Hp & Hb); [cbn; left |].
    rewrite (bool_decide_eq_false_2 (Some el = parent)) by exact Hp.
    rewrite (bool_decide_eq_false_2 (el = body)) by exact Hb.
    rewrite (bool_decide_eq_false_2 (Some el = Some mid)) by congruence.
    cbn [negb andb]. apply IH. intros x Hx. apply Hpre. cbn. right. exact Hx.
Qed.

(** An instance: from the row of [exChain] to the scrolled pane, by way of
    the list. *)
Lemma getDistanceToParent_adds_up_witness :
  (getDistanceToParent 0%nat exChain (Some 1%nat)
   == getDistanceToParent 0%nat exChain (Some 2%nat)
      + getDistanceToParent 0%nat [(2%nat, 20%Q); (1%nat, 5%Q); (0%nat, 0%Q)]
                            (Some 1%nat))%Q
  /\ getDistanceToParent 0%nat exChain (Some 1%nat) = 30%Q.
Proof.
  split; [| vm_compute; reflexivity].
  apply (getDistanceToParent_adds_up 0%nat [(3%nat, 10%Q)] 2%nat 20%Q
                                     [(1%nat, 5%Q); (0%nat, 0%Q)] (Some 1%nat)).
  intros x Hx. cbn in Hx. apply list_elem_of_singleton in Hx. subst x.
  repeat split; discriminate.
Defined.

(** X8.  For a [parent] that is not among the offset ancestors of the child,
    [getDistanceToParent] returns what it returns without a parent: the
    offsets summed up to the document body, or to the end of the chain. *)
Theorem getDistanceToParent_without_ancestor
    {node : Type} `{EqDecision node} (body : node)
    (chain : list (node * Q)) (parent : node) :
  parent ∉ chain.*1 ->
  getDistanceToParent body chain (Some parent) = getDistanceToParent body chain None.
Proof.
  unfold getDistanceToParent. generalize 0%Q as d.
  induction chain as [| [el t] rest IH]; intros d Hnot; [reflexivity |].
  cbn [distanceLoop].
  rewrite (bool_decide_eq_false_2 (Some el = Some parent)).
  - rewrite (bool_decide_eq_false_2 (Some el = None)) by discriminate.
    destruct (negb false && _); [| reflexivity].
    apply IH. intros Hin. apply Hnot. cbn. right. exact Hin.
  - intros [= ->]. apply Hnot. cbn. left.
Qed.

(** An instance: node 7 is no offset ancestor in [exChain]. *)
Lemma getDistanceToParent_without_ancestor_witness :
  (7%nat ∉ exChain.*1)
  /\ getDistanceToParent 0%nat exChain (Some 7%nat)
     = getDistanceToParent 0%nat exChain None
  /\ getDistanceToParent 0%nat exChain (Some 7%nat) = 35%Q.
Proof.
  assert (H : 7%nat ∉ exChain.*1).
  { cbn. intros Hin. repeat (apply elem_of_cons in Hin; destruct Hin as [Hin | Hin];
                             [discriminate |]).
    apply elem_of_nil in Hin. exact Hin. }
  split; [exact H |].
  split; [apply (getDistanceToParent_without_ancestor 0%nat exChain 7%nat H) |].
  vm_compute. reflexivity.
Defined.

(** X9.  [getVisibleHeight] of an element is never negative, is at most the
    height of the element's rectangle and at most the height of the window; it
    is the height of the rectangle when that lies inside the window, and 0
    when the element ends above the window's top edge or begins below its
    bottom edge. *)
Theorem getVisibleHeight_bounds (el : element) (e : Env) :
  exists h,
    getVisibleHeight (Some el) e = Some h
    /\ (0 <= h)%Q
    /\ (h <= Qmax 0 (rectBottom e - rectTop e))%Q
    /\ (h <= Qmax 0 (innerHeight e))%Q
    /\ ((0 <= rectTop e)%Q -> (rectTop e <= rectBottom e)%Q ->
        (rectBottom e <= innerHeight e)%Q -> (h == rectBottom e - rectTop e)%Q)
    /\ ((rectBottom e <= 0)%Q \/ (innerHeight e <= rectTop e)%Q -> (h == 0)%Q).
Proof.
  eexists. split; [reflexivity |].
  destruct (Q.max_spec (rectTop e) 0) as [[H1 E1] | [H1 E1]];
  destruct (Q.min_spec (rectBottom e) (innerHeight e)) as [[H2 E2] | [H2 E2]];
  destruct (Q.max_spec (Qmin (rectBottom e) (innerHeight e) - Qmax (rectTop e) 0) 0)
    as [[H3 E3] | [H3 E3]];
  destruct (Q.max_spec 0 (rectBottom e - rectTop e)) as [[H4 E4] | [H4 E4]];
  destruct (Q.max_spec 0 (innerHeight e)) as [[H5 E5] | [H5 E5]];
  rewrite ?E3, ?E4, ?E5; rewrite ?E1, ?E2 in H3;
  repeat split; intros; try lra.
Qed.


(** * [refresh] and the container size *)

Lemma Adaptive_refresh_containerSize (e : Env) (w : Adaptive.World) :
  Adaptive.containerSize (Adaptive.view (Adaptive.refresh e w))
  = match getVisibleHeight (measuredElement (Adaptive.scrollWrapper (Adaptive.view w))) e
    with
    | Some n => if Qlt_bool 1 (Qabs (n - Adaptive.containerSize (Adaptive.view w)))
                then n else Adaptive.containerSize (Adaptive.view w)
    | None => Adaptive.containerSize (Adaptive.view w)
    end.
Proof.
  unfold Adaptive.refresh.
  destruct (getVisibleHeight _ e) as [n |]; [destruct (Qlt_bool 1 _) |]; reflexivity.
Qed.

Lemma Basic_refresh_containerSize (e : Env) (w : Basic.World) :
  Basic.containerSize (Basic.view (Basic.refresh e w))
  = match getVisibleHeight (measuredElement (Basic.scrollWrapper (Basic.view w))) e
    with
    | Some n => if Qlt_bool 1 (Qabs (n - Basic.containerSize (Basic.view w)))
                then n else Basic.containerSize (Basic.view w)
    | None => Basic.containerSize (Basic.view w)
    end.
Proof.
  unfold Basic.refresh.
  destruct (getVisibleHeight _ e) as [n |]; [destruct (Qlt_bool 1 _) |]; reflexivity.
Qed.

Lemma dead_band (n cs : Q) :
  let cs' := if Qlt_bool 1 (Qabs (n - cs)) then n else cs in
  (Qabs (n - cs') <= 1)%Q
  /\ ((Qabs (n - cs) <= 1)%Q -> cs' = cs)
  /\ ((1 < Qabs (n - cs))%Q -> cs' = n).
Proof.
  intros cs'. subst cs'.
  destruct (Qlt_bool 1 (Qabs (n - cs))) eqn:Hc.
  - apply Qlt_bool_true in Hc. split.
    + assert (H0 : (n - n == 0)%Q) by ring. rewrite H0. discriminate.
    + split; [intros; lra | reflexivity].
  - apply Qlt_bool_false in Hc. split; [exact Hc |].
    split; [reflexivity | intros; lra].
Qed.

(** X11.  [refresh()] keeps [containerSize] within one pixel of the visible
    height it measures: a measurement more than one pixel away from
    [containerSize] replaces it, a closer one leaves it unchanged (adaptive
    variant and [src/VirtualList.svelte]); without a scroll wrapper nothing is
    measured and [containerSize] stays.  The variant without debouncing stores
    every measurement. *)
Theorem refresh_follows_the_measured_size (e : Env) (w : Adaptive.World)
    (wb : Basic.World) (wp : Plain.World) :
  (forall el, measuredElement (Adaptive.scrollWrapper (Adaptive.view w)) = Some el ->
     exists n, getVisibleHeight (Some el) e = Some n
       /\ (Qabs (n - Adaptive.containerSize (Adaptive.view (Adaptive.refresh e w))) <= 1)%Q
       /\ ((Qabs (n - Adaptive.containerSize (Adaptive.view w)) <= 1)%Q ->
           Adaptive.containerSize (Adaptive.view (Adaptive.refresh e w))
           = Adaptive.containerSize (Adaptive.view w))
       /\ ((1 < Qabs (n - Adaptive.containerSize (Adaptive.view w)))%Q ->
           Adaptive.containerSize (Adaptive.view (Adaptive.refresh e w)) = n))
  /\ (Adaptive.scrollWrapper (Adaptive.view w) = None ->
      Adaptive.containerSize (Adaptive.view (Adaptive.refresh e w))
      = Adaptive.containerSize (Adaptive.view w))
  /\ (forall el, measuredElement (Basic.scrollWrapper (Basic.view wb)) = Some el ->
     exists n, getVisibleHeight (Some el) e = Some n
       /\ (Qabs (n - Basic.containerSize (Basic.view (Basic.refresh e wb))) <= 1)%Q
       /\ ((Qabs (n - Basic.containerSize (Basic.view wb)) <= 1)%Q ->
           Basic.containerSize (Basic.view (Basic.refresh e wb))
           = Basic.containerSize (Basic.view wb))
       /\ ((1 < Qabs (n - Basic.containerSize (Basic.view wb)))%Q ->
           Basic.containerSize (Basic.view (Basic.refresh e wb)) = n))
  /\ Plain.containerSize (Plain.view (Plain.refresh e wp))
     = getVisibleHeight (measuredElement (Plain.scrollWrapper (Plain.view wp))) e.
Proof.
  split; [| split; [| split]].
  - intros el Hel. rewrite Adaptive_refresh_containerSize, Hel.
    eexists. split; [reflexivity |]. apply dead_band.
  - intros Hnone. rewrite Adaptive_refresh_containerSize, Hnone. reflexivity.
  - intros el Hel. rewrite Basic_refresh_containerSize, Hel.
    eexists. split; [reflexivity |]. apply dead_band.
  - reflexivity.
Qed.



(** * What events do to the log and to the state *)

Section Events.
Import Adaptive.

Lemma handleScroll_log (target : target) (e : Env) (w : World) :
  log (host (handleScroll target e w)) = log (host w).
Proof.
  unfold handleScroll, updateScrollState.
  destruct w as [p v [dir vel raf scr endT st lt lo] [ts fs nt nf ls lg] dd].
  cbn. destruct endT, raf; cbn;
  repeat match goal with
         | |- context [if ?b then _ else _] => destruct b
         | |- context [match ?x with Some _ => _ | None => _ end] => destruct x
         end; cbn; auto.
Qed.

Lemma runTimer_rest (cb : TimerTask) (e : Env) (w : World) :
  view (runTimer cb e w) = view w
  /\ props (runTimer cb e w) = props w
  /\ destroyed (runTimer cb e w) = destroyed w
  /\ listeners (host (runTimer cb e w)) = listeners (host w)
  /\ log (host (runTimer cb e w)) = log (host w).
Proof.
  unfold runTimer, updateScrollState.
  destruct w as [p v [dir vel raf scr endT st lt lo] [ts fs nt nf ls lg] dd].
  destruct cb; cbn; destruct (Qlt_bool _ _); cbn; destruct raf; cbn; auto.
Qed.

(** X14.  A scroll event and a timer callback query nothing, render nothing
    and notify nobody: they leave the effect log, the variables of the view
    and the properties as they were.  That work is left to animation
    frames. *)
Theorem scroll_events_and_timers_render_nothing (w : World) :
  (forall target e,
      log (host (deliver (EvScroll target e) w)) = log (host w)
      /\ view (deliver (EvScroll target e) w) = view w
      /\ props (deliver (EvScroll target e) w) = props w)
  /\ (forall id e,
      log (host (deliver (EvTimer id e) w)) = log (host w)
      /\ view (deliver (EvTimer id e) w) = view w
      /\ props (deliver (EvTimer id e) w) = props w).
Proof.
  split.
  - intros target e. cbn. case_bool_decide; [| auto].
    destruct (handleScroll_rest target e w) as (Hv & Hp & _).
    rewrite handleScroll_log. auto.
  - intros id e. cbn.
    destruct (timers (host w) !! id) as [[due cb] |]; [| auto].
    destruct (due <=? Date_now e); [| auto].
    destruct (runTimer_rest cb e (with_host (takeTimer id) w)) as (Hv & Hp & _ & _ & Hl).
    rewrite Hv, Hp, Hl. auto.
Qed.

Lemma stateUpdated_observed (e : Env) (w : World) :
  scrollChangeReason (state (view w)) = OBSERVED ->
  state (view (stateUpdated e w)) = state (view w)
  /\ omap scrollWrite (log (host (stateUpdated e w))) = omap scrollWrite (log (host w))
  /\ (mounted (view w) = true -> prevState (view (stateUpdated e w)) = state (view w)).
Proof.
  intros Hobs. unfold stateUpdated.
  destruct (mounted (view w)) eqn:Hm; cbn [negb]; [| split; [| split]; auto; discriminate].
  rewrite Hobs. rewrite (bool_decide_eq_false_2 (OBSERVED = REQUESTED)) by discriminate.
  rewrite andb_false_r. cbv zeta.
  set (w1 := if _ : bool then refresh e w else w).
  assert (H1 : state (view w1) = state (view w)
               /\ omap scrollWrite (log (host w1)) = omap scrollWrite (log (host w))).
  { subst w1. destruct (_ || _); [| auto]. unfold refresh.
    destruct (getVisibleHeight _ e) as [n |]; [destruct (Qlt_bool 1 _) |]; cbn;
      rewrite !omap_app; cbn; rewrite !app_nil_r; auto. }
  destruct H1 as (Hs & Hl). cbn. rewrite Hs, Hl. auto.
Qed.

Lemma deliver_frame_state (id : positive) (c d : Q) (e : Env) (w : World) :
  frames (host w) !! id = Some (FrameUpdate c d) ->
  state (view (deliver (EvFrame id e) w))
  = {| offset := c; scrollChangeReason := OBSERVED |}.
Proof.
  intros Hcb. cbn [deliver]. rewrite Hcb.
  set (w1 := runFrame (FrameUpdate c d) e (with_host (takeFrame id) w)).
  assert (Hs : state (view w1) = {| offset := c; scrollChangeReason := OBSERVED |})
    by reflexivity.
  clearbody w1.
  destruct (stateUpdated_observed e w1) as (Hs2 & _); [rewrite Hs; reflexivity |].
  rewrite Hs2. exact Hs.
Qed.

(** X15.  When a requested frame runs, [state] becomes the frame's offset
    with reason [OBSERVED], [rafId] is reset, one [afterScroll] notification
    carries that offset, and the scroll position is not written: the reactive
    [stateUpdated] that follows refreshes without calling [scrollTo].  For a
    mounted component [prevState] is [state] afterwards. *)
Theorem frame_applies_its_offset_without_writing_back
    (id : positive) (c d : Q) (e : Env) (w : World) :
  frames (host w) !! id = Some (FrameUpdate c d) ->
  let w' := deliver (EvFrame id e) w in
  state (view w') = {| offset := c; scrollChangeReason := OBSERVED |}
  /\ (mounted (view w) = true -> prevState (view w') = state (view w'))
  /\ rafId (coord w') = None
  /\ frames (host w') = delete id (frames (host w))
  /\ omap scrollWrite (log (host w')) = omap scrollWrite (log (host w))
  /\ appliedOffsets (log (host w')) = appliedOffsets (log (host w)) ++ [c].
Proof.
  intros Hcb w'. subst w'. cbn [deliver]. rewrite Hcb.
  set (w1 := runFrame (FrameUpdate c d) e (with_host (takeFrame id) w)).
  assert (H1 : state (view w1) = {| offset := c; scrollChangeReason := OBSERVED |}
               /\ mounted (view w1) = mounted (view w)
               /\ rafId (coord w1) = None
               /\ frames (host w1) = delete id (frames (host w))
               /\ omap scrollWrite (log (host w1)) = omap scrollWrite (log (host w))
               /\ appliedOffsets (log (host w1)) = appliedOffsets (log (host w)) ++ [c]).
  { subst w1. destruct w as [p v co h dd]. destruct v, co, h. cbn.
    unfold appliedOffsets. rewrite !omap_app. cbn. rewrite !app_nil_r.
    repeat split; reflexivity. }
  destruct H1 as (Hs & Hm & Hr & Hf & Hl & Ha).
  destruct (stateUpdated_observed e w1) as (Hs2 & Hl2 & Hp2); [rewrite Hs; reflexivity |].
  assert (Hrest : coord (stateUpdated e w1) = coord w1
                  /\ frames (host (stateUpdated e w1)) = frames (host w1)
                  /\ appliedOffsets (log (host (stateUpdated e w1)))
                     = appliedOffsets (log (host w1))).
  { clear. unfold stateUpdated. destruct (negb (mounted (view w1))); [auto |].
    cbv zeta.
    set (w2 := if _ : bool then refresh e w1 else w1).
    assert (H2 : coord w2 = coord w1 /\ frames (host w2) = frames (host w1)
                 /\ appliedOffsets (log (host w2)) = appliedOffsets (log (host w1))).
    { subst w2. destruct (_ || _); [| auto]. unfold refresh.
      destruct (getVisibleHeight _ e) as [n |]; [destruct (Qlt_bool 1 _) |]; cbn;
        unfold appliedOffsets; rewrite !omap_app; cbn; rewrite !app_nil_r; auto. }
    destruct H2 as (Hc2 & Hf2 & Ha2).
    match goal with
    | |- context [if ?b then scrollTo ?v e w2 else w2] =>
        set (w3 := if b then scrollTo v e w2 else w2);
        assert (H3 : coord w3 = coord w2 /\ frames (host w3) = frames (host w2)
                     /\ appliedOffsets (log (host w3)) = appliedOffsets (log (host w2)))
    end.
    { subst w3. destruct (_ && _); [| auto]. unfold scrollTo.
      destruct (scrollWrapper (view w2)); [| auto].
      destruct (hasScrollMethod e); cbn;
        unfold appliedOffsets; rewrite !omap_app; cbn; rewrite !app_nil_r; auto. }
    destruct H3 as (Hc3 & Hf3 & Ha3). cbn. rewrite Hc3, Hf3, Ha3. auto. }
  destruct Hrest as (Hc3 & Hf3 & Ha3).
  rewrite Hs2, Hl2, Hc3, Hf3, Ha3, Hs, Hl, Hr, Hf, Ha.
  repeat split; try reflexivity.
  intros Hmo. rewrite Hp2 by congruence. exact Hs.
Qed.

(** An instance: the frame requested by the first sample of [exDown]. *)
Lemma frame_applies_its_offset_without_writing_back_witness :
  frames (Adaptive.host exDown) !! 1%positive = Some (Adaptive.FrameUpdate 100 16)
  /\ Adaptive.state (Adaptive.view (Adaptive.deliver (Adaptive.EvFrame 1 (exEnv 2001 100))
                                                     exDown))
     = {| offset := 100; scrollChangeReason := OBSERVED |}.
Proof.
  assert (H : frames (Adaptive.host exDown) !! 1%positive
              = Some (Adaptive.FrameUpdate 100 16)) by (vm_compute; reflexivity).
  split; [exact H |].
  destruct (frame_applies_its_offset_without_writing_back 1 100 16 (exEnv 2001 100)
                                                          exDown H) as (Hs & _).
  exact Hs.
Defined.

(** X16.  [stateUpdated()] settles: run a second time, in any environment,
    it changes nothing. *)
Theorem stateUpdated_settles (e e' : Env) (w : World) :
  stateUpdated e' (stateUpdated e w) = stateUpdated e w.
Proof.
  assert (Hfix : forall w0 : World,
             prevState (view w0) = state (view w0) -> stateUpdated e' w0 = w0).
  { intros w0 Hp. unfold stateUpdated.
    destruct (negb (mounted (view w0))); [reflexivity |].
    rewrite Hp.
    assert (Hq : Qeq_bool (offset (state (view w0))) (offset (state (view w0))) = true)
      by (apply Qeq_bool_iff; reflexivity).
    rewrite Hq.
    rewrite (bool_decide_eq_true_2 (scrollChangeReason (state (view w0))
                                    = scrollChangeReason (state (view w0))))
      by reflexivity.
    cbn.
    destruct w0 as [p v co h dd]. destruct v. cbn in *. subst. reflexivity. }
  destruct (mounted (view w)) eqn:Hm.
  - apply Hfix. unfold stateUpdated. rewrite Hm. reflexivity.
  - assert (H : stateUpdated e w = w) by (unfold stateUpdated; rewrite Hm; reflexivity).
    rewrite H. unfold stateUpdated. rewrite Hm. reflexivity.
Qed.
End Events.

(** * Samples below the noise floor, property updates and new items *)

Section PropertyUpdates.
Import Adaptive.

(** X17.  A sample less than one pixel from the last applied offset never
    requests a frame, on whichever path [handleScroll] treats it: the
    requested frames, [rafId] and [lastScrollOffset] stay as they were. *)
Theorem subpixel_sample_requests_no_frame (target : target) (e : Env) (w : World) :
  (Qabs (liveOffset w e - lastScrollOffset (coord w)) < 1)%Q ->
  let w' := handleScroll target e w in
  frames (host w') = frames (host w)
  /\ rafId (coord w') = rafId (coord w)
  /\ lastScrollOffset (coord w') = lastScrollOffset (coord w)
  /\ nextFrame (host w') = nextFrame (host w).
Proof.
  intros Hsub w'. subst w'. unfold handleScroll.
  destruct (foreignTarget _ _); [auto |].
  destruct (Qeq_bool _ _); [auto |]. cbv zeta.
  assert (Hn : forall d w0,
             lastScrollOffset (coord w0) = lastScrollOffset (coord w) ->
             updateScrollState (liveOffset w e) d w0 = w0).
  { intros d w0 Hlo. apply updateScrollState_noise. rewrite Hlo. exact Hsub. }
  destruct w as [p v [dir vel raf scr endT st lt lo] [ts fs nt nf ls lg] dd].
  cbn in Hn. cbn.
  destruct (negb _).
  - rewrite Hn by reflexivity. cbn. destruct endT; cbn; auto.
  - destruct (_ <? _).
    + destruct st; cbn; destruct endT; cbn; auto.
    + rewrite Hn by reflexivity. cbn. destruct endT; cbn; auto.
Qed.

(** An instance: after [exSteady] (last applied offset 200), a sample at
    offset 200.5. *)
Lemma subpixel_sample_requests_no_frame_witness :
  (Qabs (Adaptive.liveOffset exSteady (exEnv 2200 (401 # 2))
         - Adaptive.lastScrollOffset (Adaptive.coord exSteady)) < 1)%Q
  /\ frames (Adaptive.host (Adaptive.handleScroll (Element Wrapper)
                              (exEnv 2200 (401 # 2)) exSteady))
     = frames (Adaptive.host exSteady).
Proof.
  assert (H : (Qabs (Adaptive.liveOffset exSteady (exEnv 2200 (401 # 2))
                     - Adaptive.lastScrollOffset (Adaptive.coord exSteady)) < 1)%Q)
    by (vm_compute; reflexivity).
  split; [exact H |].
  destruct (subpixel_sample_requests_no_frame (Element Wrapper) (exEnv 2200 (401 # 2))
                                              exSteady H) as (Hf & _).
  exact Hf.
Defined.

(** X18.  With [scrollToIndex] set and [scrollOffset] unchanged, every run
    of [propsUpdated()] on a mounted component sets [state] to the offset the
    manager gives for that index, with reason [REQUESTED], whether or not a
    property has changed: the copy kept in [prevProps.expandItems] is never
    identical to [expandItems]. *)
Theorem propsUpdated_scrolls_back_to_the_index (index : Z) (e : Env) (w : World) :
  mounted (view w) = true ->
  optQ_neq (scrollOffset (prevProps (view w))) (scrollOffset (props w)) = false ->
  scrollToIndex (props w) = Some index ->
  let w' := propsUpdated e w in
  state (view w')
  = {| offset := mgrOffsetForIndex e; scrollChangeReason := REQUESTED |}
  /\ prevProps (view w') = props w
  /\ props w' = props w.
Proof.
  intros Hm Hso Hidx w'. subst w'. unfold propsUpdated. rewrite Hm.
  unfold expandItemsNotIdentical. cbv beta zeta.
  repeat (rewrite ?orb_true_r; cbn [orb negb]). cbv iota.
  set (w1 := with_host (emit (MgrUpdateConfig _)) w).
  set (w2 := if negb _ then containerPropUpdated w1 else w1).
  set (w3 := recomputeSizes 0 e w2).
  assert (H3 : props w3 = props w).
  { destruct (quiet_recomputeSizes 0 e w2) as (Hp & _). fold w3 in Hp. rewrite Hp.
    assert (H2 : props w2 = props w1)
      by (subst w2; destruct (negb _); [apply quiet_containerPropUpdated | reflexivity]).
    rewrite H2. reflexivity. }
  clearbody w3. clear w1 w2.
  rewrite H3, Hso, Hidx. cbn. rewrite H3. auto.
Qed.

(** An instance: [exAtIndex], scrolled by the user to offset 400, is sent
    back to the offset of row 20 by a run of [propsUpdated] in which no
    property has changed. *)
Lemma propsUpdated_scrolls_back_to_the_index_witness :
  offset (Adaptive.state (Adaptive.view exAtIndex)) = 400%Q
  /\ Adaptive.state (Adaptive.view (Adaptive.propsUpdated (exEnvAtIndex 3000 400)
                                                          exAtIndex))
     = {| offset := 1000; scrollChangeReason := REQUESTED |}.
Proof.
  split; [vm_compute; reflexivity |].
  destruct (propsUpdated_scrolls_back_to_the_index 20 (exEnvAtIndex 3000 400) exAtIndex)
    as (Hs & _);
    [vm_compute; reflexivity | vm_compute; reflexivity | vm_compute; reflexivity
    | exact Hs].
Defined.


End PropertyUpdates.

(** * Pending callbacks *)

Lemma size_le_1 {A} (m : gmap positive A) (o : option positive) :
  (forall id x, m !! id = Some x -> o = Some id) -> (size m <= 1)%nat.
Proof.
  intros H. destruct o as [r |].
  - assert (He : delete r m = ∅).
    { apply map_empty. intros i. destruct (delete r m !! i) as [x |] eqn:E; [| reflexivity].
      apply lookup_delete_Some in E. destruct E as [Hne E].
      pose proof (H _ _ E). congruence. }
    pose proof (map_size_delete r m) as Hs. rewrite He, map_size_empty in Hs.
    destruct (m !! r); cbn in Hs; unfold id in Hs; lia.
  - assert (He : m = ∅).
    { apply map_empty. intros i. destruct (m !! i) as [x |] eqn:E; [| reflexivity].
      pose proof (H _ _ E). discriminate. }
    rewrite He, map_size_empty. lia.
Qed.


Section Pending.
Import Adaptive.


(** ** The pending frame and the listeners *)

Lemma updateScrollState_frameCurrent (c d : Q) (w : World) :
  framesTracked w -> frameCurrent w -> frameCurrent (updateScrollState c d w).
Proof.
  intros Ht Hf. unfold updateScrollState.
  destruct (Qlt_bool _ _); [exact Hf |].
  destruct w as [p v [dir vel raf scr endT st lt lo] [ts fs nt nf ls lg] dd].
  unfold framesTracked, frameCurrent in *. cbn in *.
  intros id c' d' E. apply lookup_insert_Some in E.
  destruct E as [[_ E] | [Hne E]]; [congruence |]. exfalso.
  destruct raf as [r |]; cbn in E.
  - apply lookup_delete_Some in E. destruct E as [Hr E].
    pose proof (Ht _ _ E). congruence.
  - pose proof (Ht _ _ E). discriminate.
Qed.

Lemma frameCurrent_transfer (w w' : World) :
  frames (host w') = frames (host w) ->
  lastScrollOffset (coord w') = lastScrollOffset (coord w) ->
  frameCurrent w -> frameCurrent w'.
Proof. unfold frameCurrent. intros -> ->. auto. Qed.

Lemma framesTracked_transfer (w w' : World) :
  frames (host w') = frames (host w) ->
  rafId (coord w') = rafId (coord w) ->
  framesTracked w -> framesTracked w'.
Proof. unfold framesTracked. intros -> ->. auto. Qed.

Lemma handleScroll_frameCurrent (target : target) (e : Env) (w : World) :
  framesTracked w -> frameCurrent w -> frameCurrent (handleScroll target e w).
Proof.
  intros Ht Hf. unfold handleScroll.
  destruct (foreignTarget _ _); [exact Hf |].
  destruct (Qeq_bool _ _); [exact Hf |]. cbv zeta.
  match goal with
  | |- context [with_host (clearTimeout_if ?x) ?y] =>
      set (w0 := with_host (clearTimeout_if x) y)
  end.
  assert (H0 : framesTracked w0 /\ frameCurrent w0).
  { split; [apply (framesTracked_transfer w) | apply (frameCurrent_transfer w)];
      try assumption; subst w0;
      destruct w as [p v [dir vel raf scr endT st lt lo] [ts fs nt nf ls lg] dd];
      destruct endT; reflexivity. }
  clearbody w0. destruct H0 as (Ht0 & Hf0).
  destruct (negb _).
  - apply updateScrollState_frameCurrent.
    + apply (framesTracked_transfer w0); [reflexivity | reflexivity | exact Ht0].
    + apply (frameCurrent_transfer w0); [reflexivity | reflexivity | exact Hf0].
  - destruct (_ <? _).
    + destruct (scrollTimeout (coord w0)); [exact Hf0 |].
      apply (frameCurrent_transfer w0); [reflexivity | reflexivity | exact Hf0].
    + set (wm := updateScrollState _ _ _).
      assert (Hm : frameCurrent wm).
      { subst wm. apply updateScrollState_frameCurrent.
        - apply (framesTracked_transfer w0); [reflexivity | reflexivity | exact Ht0].
        - apply (frameCurrent_transfer w0); [reflexivity | reflexivity | exact Hf0]. }
      clearbody wm.
      apply (frameCurrent_transfer wm); [reflexivity | reflexivity | exact Hm].
Qed.

Lemma runTimer_frameCurrent (cb : TimerTask) (e : Env) (w : World) :
  framesTracked w -> frameCurrent w -> frameCurrent (runTimer cb e w).
Proof.
  intros Ht Hf. unfold runTimer.
  destruct cb; apply updateScrollState_frameCurrent;
    [ apply (framesTracked_transfer w); [reflexivity | reflexivity | exact Ht]
    | apply (frameCurrent_transfer w); [reflexivity | reflexivity | exact Hf]
    | apply (framesTracked_transfer w); [reflexivity | reflexivity | exact Ht]
    | apply (frameCurrent_transfer w); [reflexivity | reflexivity | exact Hf] ].
Qed.

Lemma core_frameCurrent (w w' : World) :
  core w' = core w -> frameCurrent w -> frameCurrent w'.
Proof.
  unfold core. intros Hc. injection Hc as Hco Hts Hfs Hls Hmo Hsw Hde.
  apply frameCurrent_transfer; congruence.
Qed.

Lemma core_listening (w w' : World) :
  core w' = core w -> listening w -> listening w'.
Proof.
  unfold core, listening. intros Hc. injection Hc as Hco Hts Hfs Hls Hmo Hsw Hde.
  rewrite Hmo, Hsw, Hde, Hls. auto.
Qed.

Lemma containerPropUpdated_binds (w : World) :
  scrollWrapper (view w) = None ->
  listeners (host w) = [] ->
  let w' := containerPropUpdated w in
  scrollWrapper (view w') = Some (boundWrapper (props w))
  /\ listeners (host w') = [scrollListenerOf (boundWrapper (props w)); OnWindowResize]
  /\ coord w' = coord w /\ timers (host w') = timers (host w)
  /\ frames (host w') = frames (host w) /\ destroyed w' = destroyed w
  /\ mounted (view w') = mounted (view w) /\ props w' = props w
  /\ prevProps (view w') = prevProps (view w).
Proof.
  intros Hsw Hls w'. subst w'. unfold containerPropUpdated, boundWrapper.
  destruct w as [p [m sw ? ? ? pp ? ? ?] c [ts fs nt nf ls lg] dd].
  cbn in *. subst.
  destruct (container p) as [| | el]; cbn;
    try destruct (_ || _); cbn; try destruct el; cbn; repeat split; reflexivity.
Qed.

Lemma onMount_parts (e : Env) (w : World) :
  scrollWrapper (view w) = None ->
  listeners (host w) = [] ->
  let w' := onMount e w in
  scrollWrapper (view w') = Some (boundWrapper (props w))
  /\ listeners (host w') = [scrollListenerOf (boundWrapper (props w)); OnWindowResize]
  /\ coord w' = coord w /\ timers (host w') = timers (host w)
  /\ frames (host w') = frames (host w) /\ destroyed w' = destroyed w
  /\ mounted (view w') = true /\ props w' = props w
  /\ prevProps (view w') = prevProps (view w).
Proof.
  intros Hsw Hls w'. subst w'. unfold onMount. cbv zeta.
  set (w1 := with_view (set_mounted true) _).
  assert (H1 : scrollWrapper (view w1) = None /\ listeners (host w1) = []
               /\ coord w1 = coord w /\ timers (host w1) = timers (host w)
               /\ frames (host w1) = frames (host w) /\ destroyed w1 = destroyed w
               /\ mounted (view w1) = true /\ props w1 = props w
               /\ prevProps (view w1) = prevProps (view w)).
  { subst w1. destruct (headerOffsetHeight e); cbn; repeat split; auto. }
  clearbody w1. destruct H1 as (H1s & H1l & H1c & H1t & H1f & H1d & H1m & H1p & H1pp).
  destruct (containerPropUpdated_binds w1 H1s H1l)
    as (H2s & H2l & H2c & H2t & H2f & H2d & H2m & H2p & H2pp).
  set (w2 := containerPropUpdated w1) in *. clearbody w2.
  assert (Hfin : forall v w3, w3 = scrollTo v e w2 \/ w3 = w2 ->
             scrollWrapper (view w3) = Some (boundWrapper (props w))
             /\ listeners (host w3)
                = [scrollListenerOf (boundWrapper (props w)); OnWindowResize]
             /\ coord w3 = coord w /\ timers (host w3) = timers (host w)
             /\ frames (host w3) = frames (host w) /\ destroyed w3 = destroyed w
             /\ mounted (view w3) = true /\ props w3 = props w
             /\ prevProps (view w3) = prevProps (view w)).
  { intros v w3 [-> | ->].
    - unfold scrollTo. rewrite H2s. destruct v; [destruct (hasScrollMethod e) |]; cbn;
        rewrite ?H2s, ?H2l, ?H2c, ?H2t, ?H2f, ?H2d, ?H2m, ?H2p, ?H2pp,
                ?H1c, ?H1t, ?H1f, ?H1d, ?H1m, ?H1p, ?H1pp; repeat split; reflexivity.
    - rewrite ?H2s, ?H2l, ?H2c, ?H2t, ?H2f, ?H2d, ?H2m, ?H2p, ?H2pp,
              ?H1c, ?H1t, ?H1f, ?H1d, ?H1m, ?H1p, ?H1pp; repeat split; reflexivity. }
  destruct (scrollOffset (props w2)) as [o |];
    [apply (Hfin (Some o)); left; reflexivity |].
  destruct (scrollToIndex (props w2)); [| apply (Hfin None); right; reflexivity].
  cbn.
  match goal with
  | |- context [scrollTo ?v e ?x] =>
      assert (Hx : scrollWrapper (view x) = scrollWrapper (view w2)
                   /\ listeners (host x) = listeners (host w2)
                   /\ coord x = coord w2 /\ timers (host x) = timers (host w2)
                   /\ frames (host x) = frames (host w2) /\ destroyed x = destroyed w2
                   /\ mounted (view x) = mounted (view w2) /\ props x = props w2
                   /\ prevProps (view x) = prevProps (view w2))
        by (cbn; repeat split; reflexivity);
      set (w4 := x) in *; clearbody w4
  end.
  destruct Hx as (Hxs & Hxl & Hxc & Hxt & Hxf & Hxd & Hxm & Hxp & Hxpp).
  unfold scrollTo. rewrite Hxs, H2s. destruct (hasScrollMethod e); cbn;
    rewrite ?Hxs, ?Hxl, ?Hxc, ?Hxt, ?Hxf, ?Hxd, ?Hxm, ?Hxp, ?Hxpp,
            ?H2s, ?H2l, ?H2c, ?H2t, ?H2f, ?H2d, ?H2m, ?H2p, ?H2pp,
            ?H1c, ?H1t, ?H1f, ?H1d, ?H1m, ?H1p, ?H1pp; repeat split; reflexivity.
Qed.
End Pending.

(** * The states the component reaches *)

Section Reachable.
Import Adaptive.

Lemma Inv_framesTracked (w : World) : Inv w -> framesTracked w.
Proof. intros ((_ & _ & Hfr) & _). exact Hfr. Qed.

Lemma onDestroy_view (w : World) : view (onDestroy w) = view w.
Proof.
  unfold onDestroy. destruct (mounted (view w)); [| reflexivity]. cbv zeta.
  destruct (scrollWrapper _); reflexivity.
Qed.

(** Every event keeps the pending frame current and the listeners in step
    with the life cycle. *)
Lemma deliver_keeps_frame_and_listeners (ev : Event) (w : World) :
  Inv w -> frameCurrent w -> listening w ->
  frameCurrent (deliver ev w) /\ listening (deliver ev w).
Proof.
  intros Hinv Hf Hl.
  pose proof (Inv_framesTracked w Hinv) as Ht.
  pose proof Hinv as (Htr & Hm & Hd & Hls & Hs).
  destruct ev as [e | target e | e | id e | id e | n e |]; cbn [deliver].
  - (* mount *)
    destruct (mounted (view w)) eqn:Hmo; [auto |].
    destruct (destroyed w) eqn:Hde; [auto |]. cbn [orb].
    destruct (Hm eq_refl) as (_ & _ & Hnil).
    destruct Hl as (Hun & _). specialize (Hun Hmo).
    destruct (onMount_parts e w Hun Hnil)
      as (H1s & H1l & H1c & H1t & H1f & H1d & H1m & H1p & H1pp).
    assert (Hs1 : sameContainer (onMount e w)).
    { unfold sameContainer in *. rewrite H1p, H1pp. exact Hs. }
    destruct (stable_mountedUpdated e (onMount e w) Hs1) as (Hc & _).
    split.
    + apply (core_frameCurrent (onMount e w)); [exact Hc |].
      apply (frameCurrent_transfer w); assumption || (rewrite H1c; reflexivity).
    + apply (core_listening (onMount e w)); [exact Hc |].
      split; [rewrite H1m; discriminate |].
      intros _ _. eexists. split; [exact H1s | exact H1l].
  - (* scroll *)
    case_bool_decide; [| auto].
    destruct (handleScroll_rest target e w) as (Hv & _ & Hdd & Hll).
    split; [apply handleScroll_frameCurrent; assumption |].
    unfold listening. rewrite Hv, Hdd, Hll. exact Hl.
  - (* resize *)
    case_bool_decide; [| auto]. rewrite handleScroll_window. auto.
  - (* timer *)
    destruct (timers (host w) !! id) as [[due cb] |]; [| auto].
    destruct (due <=? Date_now e); [| auto].
    destruct (runTimer_rest cb e (with_host (takeTimer id) w))
      as (Hv & _ & Hdd & Hll & _).
    split.
    + apply runTimer_frameCurrent.
      * apply (framesTracked_transfer w); [reflexivity | reflexivity | exact Ht].
      * apply (frameCurrent_transfer w); [reflexivity | reflexivity | exact Hf].
    + unfold listening. rewrite Hv, Hdd, Hll. exact Hl.
  - (* frame *)
    destruct (frames (host w) !! id) as [cb |] eqn:Hcb; [| auto].
    set (w1 := runFrame cb e (with_host (takeFrame id) w)).
    assert (H1 : frames (host w1) = delete id (frames (host w))
                 /\ lastScrollOffset (coord w1) = lastScrollOffset (coord w)
                 /\ mounted (view w1) = mounted (view w)
                 /\ scrollWrapper (view w1) = scrollWrapper (view w)
                 /\ destroyed w1 = destroyed w
                 /\ listeners (host w1) = listeners (host w)
                 /\ sameContainer w1).
    { subst w1. destruct cb as [c d]. unfold sameContainer in *.
      destruct w as [p v co h dd]. destruct v, co, h. cbn in *.
      repeat split; auto. }
    destruct H1 as (H1f & H1o & H1m & H1s & H1d & H1l & H1c).
    destruct (stable_stateUpdated e w1 H1c) as (Hc & _).
    split.
    + apply (core_frameCurrent w1); [exact Hc |].
      unfold frameCurrent. rewrite H1f, H1o. intros i c d E.
      apply lookup_delete_Some in E. destruct E as [_ E]. eapply Hf. exact E.
    + apply (core_listening w1); [exact Hc |].
      unfold listening. rewrite H1m, H1s, H1d, H1l. exact Hl.
  - (* itemCount *)
    destruct (destroyed w); [auto |].
    destruct (stable_setItemCount n e w Hs) as (Hc & _).
    split; [apply (core_frameCurrent w) | apply (core_listening w)]; assumption.
  - (* destroy *)
    destruct (destroyed w) eqn:Hde; [auto |].
    destruct (onDestroy_idle w Hinv) as (_ & Hfs & _).
    split.
    + unfold frameCurrent. cbn. rewrite Hfs. intros i c d E.
      rewrite lookup_empty in E. discriminate.
    + unfold listening. cbn. rewrite onDestroy_view.
      split; [apply Hl | discriminate].
Qed.

Lemma init_core (p : Props) (offset0 : Q) (e : Env) :
  let w := init p offset0 e in
  mounted (view w) = false /\ destroyed w = false
  /\ scrollWrapper (view w) = None /\ listeners (host w) = []
  /\ frames (host w) = ∅ /\ timers (host w) = ∅
  /\ boundWrapper (props w) = boundWrapper p.
Proof.
  unfold init. cbv zeta.
  match goal with
  | |- context [refresh e ?x] =>
      destruct (stable_refresh e x) as (Hc & _); [reflexivity |];
      assert (Hp : props (refresh e x) = p) by (apply (quiet_refresh e x));
      set (w1 := refresh e x) in *
  end.
  clearbody w1. unfold core in Hc. unfold clampItemCount, boundWrapper.
  destruct w1 as [p1 v1 c1 h1 d1]. cbn in *. subst p1.
  injection Hc as _ Hts Hfs Hls Hm Hs Hd.
  repeat split; try assumption; destruct p; reflexivity.
Qed.

Lemma init_frame_and_listeners (p : Props) (offset0 : Q) (e : Env) :
  frameCurrent (init p offset0 e) /\ listening (init p offset0 e).
Proof.
  destruct (init_core p offset0 e) as (Hm & _ & Hs & _ & Hfs & _).
  split.
  - unfold frameCurrent. rewrite Hfs. intros i c d E.
    rewrite lookup_empty in E. discriminate.
  - split; [intros _; exact Hs | rewrite Hm; discriminate].
Qed.

Lemma run_keeps_frame_and_listeners (evs : list Event) (w : World) :
  Inv w -> frameCurrent w -> listening w ->
  Inv (run evs w) /\ frameCurrent (run evs w) /\ listening (run evs w).
Proof.
  revert w. induction evs as [| ev evs IH]; intros w Hinv Hf Hl; [auto |].
  cbn. destruct (deliver_keeps_frame_and_listeners ev w Hinv Hf Hl) as (Hf' & Hl').
  apply IH; [apply Inv_deliver; exact Hinv | exact Hf' | exact Hl'].
Qed.

(** X21.  In every state the component reaches, a requested frame carries
    the offset applied last ([lastScrollOffset]); a superseded frame has been
    cancelled.  So when the frame runs, [state.offset] becomes the latest
    applied offset. *)
Theorem pending_frame_carries_the_last_applied_offset
    (p : Props) (offset0 : Q) (e0 : Env) (evs : list Event)
    (id : positive) (c d : Q) (e : Env) :
  let w := run evs (init p offset0 e0) in
  frames (host w) !! id = Some (FrameUpdate c d) ->
  c = lastScrollOffset (coord w)
  /\ rafId (coord w) = Some id
  /\ mounted (view w) = true
  /\ offset (state (view (deliver (EvFrame id e) w))) = lastScrollOffset (coord w).
Proof.
  intros w Hcb.
  destruct (init_frame_and_listeners p offset0 e0) as (Hf0 & Hl0).
  destruct (run_keeps_frame_and_listeners evs _ (Inv_init p offset0 e0) Hf0 Hl0)
    as (Hinv & Hf & _).
  fold w in Hinv, Hf. clearbody w.
  pose proof (Hf _ _ _ Hcb) as Hc.
  pose proof (Inv_framesTracked w Hinv _ _ Hcb) as Hr.
  assert (Hmo : mounted (view w) = true).
  { destruct (mounted (view w)) eqn:E; [reflexivity |].
    destruct Hinv as (_ & Hm & _). destruct (Hm E) as (_ & H0 & _).
    rewrite H0, lookup_empty in Hcb. discriminate. }
  split; [exact Hc |]. split; [exact Hr |]. split; [exact Hmo |].
  rewrite (deliver_frame_state id c d e w Hcb). exact Hc.
Qed.

(** An instance: the list of [exProps] mounted and scrolled once. *)
Lemma pending_frame_carries_the_last_applied_offset_witness :
  let w := Adaptive.run [Adaptive.EvMount (exEnv 1000 0);
                         Adaptive.EvScroll (Element Wrapper) (exEnv 2000 100)]
                        (Adaptive.init exProps 0 (exEnv 990 0)) in
  frames (Adaptive.host w) !! 1%positive = Some (Adaptive.FrameUpdate 100 16)
  /\ Adaptive.lastScrollOffset (Adaptive.coord w) = 100%Q
  /\ Adaptive.rafId (Adaptive.coord w) = Some 1%positive.
Proof.
  intros w.
  assert (H : frames (Adaptive.host w) !! 1%positive
              = Some (Adaptive.FrameUpdate 100 16)) by (vm_compute; reflexivity).
  destruct (pending_frame_carries_the_last_applied_offset
              exProps 0 (exEnv 990 0)
              [Adaptive.EvMount (exEnv 1000 0);
               Adaptive.EvScroll (Element Wrapper) (exEnv 2000 100)]
              1 100 16 (exEnv 2001 100) H) as (Hc & Hr & _).
  split; [exact H |]. split; [symmetry; exact Hc | exact Hr].
Defined.


(** X23.  Mounting binds the scroll wrapper: the [container] element when
    one is given, the component's own wrapper for [container = "self"];
    without [container], the wrapper when the list has a size along its scroll
    direction ([height] for a vertical list, [width] for a horizontal one) and
    the page body otherwise.  It registers the two listeners for it. *)
Theorem mounting_binds_the_scroll_wrapper
    (p : Props) (offset0 : Q) (e0 e : Env) :
  let w := deliver (EvMount e) (init p offset0 e0) in
  mounted (view w) = true
  /\ scrollWrapper (view w) = Some (boundWrapper p)
  /\ listeners (host w) = [scrollListenerOf (boundWrapper p); OnWindowResize]
  /\ (container p = ContainerNull ->
      boundWrapper p = Body
      <-> match scrollDirection p with
          | vertical => truthy_dim (height p) = false
          | horizontal => truthy_dim (width p) = false
          end).
Proof.
  intros w.
  set (w0 := init p offset0 e0) in *.
  assert (H0 : mounted (view w0) = false /\ destroyed w0 = false
               /\ scrollWrapper (view w0) = None /\ listeners (host w0) = []
               /\ boundWrapper (props w0) = boundWrapper p).
  { destruct (init_core p offset0 e0) as (Hm & Hd & Hs & Hls & _ & _ & Hb). auto. }
  destruct H0 as (Hm & Hd & Hs & Hl & Hb).
  pose proof (Inv_init p offset0 e0) as Hinv. fold w0 in Hinv.
  destruct (onMount_parts e w0 Hs Hl)
    as (H1s & H1l & H1c & H1t & H1f & H1d & H1m & H1p & H1pp).
  pose proof (onMount_Inv e w0 Hinv Hm Hd) as Hinv1.
  destruct (stable_mountedUpdated e (onMount e w0)) as (Hc & _);
    [apply Hinv1 |].
  assert (Hw : w = mountedUpdated e (onMount e w0)).
  { subst w. cbn [deliver]. rewrite Hm, Hd. reflexivity. }
  rewrite <- Hw in Hc. clearbody w. set (w1 := onMount e w0) in *. clearbody w1 w0.
  unfold core in Hc. injection Hc as _ _ _ Hls Hmo Hsw _.
  rewrite Hls, Hmo, Hsw, H1s, H1l, H1m, Hb.
  split; [reflexivity |]. split; [reflexivity |]. split; [reflexivity |].
  intros Hcn. unfold boundWrapper. rewrite Hcn.
  destruct (scrollDirection p);
    repeat (case_bool_decide; try congruence); cbn [andb orb];
    [destruct (truthy_dim (height p)) | destruct (truthy_dim (width p))];
    cbn [andb orb]; split; congruence.
Qed.
End Reachable.

(** * The numbers the coordinator keeps *)

Section Ranges.
Import Adaptive.

Lemma calm_id : calm (fun w => w).
Proof. intros w. auto. Qed.

Lemma calm_comp (f g : World -> World) : calm f -> calm g -> calm (fun w => g (f w)).
Proof.
  intros Hf Hg w. destruct (Hf w) as (Hc1 & Hi1 & Hs1).
  destruct (Hg (f w)) as (Hc2 & Hi2 & Hs2).
  split; [congruence |]. split; auto.
Qed.

Lemma calm_if (b : World -> bool) (f g : World -> World) :
  calm f -> calm g -> calm (fun w => if b w then f w else g w).
Proof. intros Hf Hg w. destruct (b w); [apply Hf | apply Hg]. Qed.

Lemma calm_ext (f g : World -> World) : (forall w, f w = g w) -> calm g -> calm f.
Proof. intros He Hg w. rewrite He. apply Hg. Qed.

Lemma getVisibleHeight_nonneg (el : option element) (e : Env) (n : Q) :
  getVisibleHeight el e = Some n -> (0 <= n)%Q.
Proof.
  destruct el; [| discriminate]. intros [= <-]. apply Q.le_max_r.
Qed.

Lemma calm_refresh (e : Env) : calm (refresh e).
Proof.
  intros w. unfold refresh.
  destruct (getVisibleHeight _ e) as [n |] eqn:Hn;
    [destruct (Qlt_bool 1 _) |]; cbn; repeat split; auto.
  intros _. eapply getVisibleHeight_nonneg. exact Hn.
Qed.

Lemma calm_scrollTo (value : option Q) (e : Env) : calm (scrollTo value e).
Proof.
  intros w. unfold scrollTo.
  destruct (scrollWrapper (view w)); [| auto].
  destruct value; [| auto]. destruct (hasScrollMethod e); cbn; auto.
Qed.

Lemma calm_emit (eff : Effect) : calm (with_host (emit eff)).
Proof. intros w. cbn. auto. Qed.

Lemma calm_recomputeSizes (i : Z) (e : Env) : calm (recomputeSizes i e).
Proof.
  unfold recomputeSizes.
  apply (calm_comp (with_host (emit (MgrResetItem i))) (refresh e));
    [apply calm_emit | apply calm_refresh].
Qed.

Lemma calm_containerPropUpdated : calm containerPropUpdated.
Proof.
  intros w. unfold containerPropUpdated.
  destruct w as [p v c h dd]. destruct v as [m sw ? ? ? ? ? ? ?]. cbn.
  destruct (container p); cbn; try destruct sw; cbn;
    try destruct (_ || _); cbn; auto.
Qed.

Lemma calm_set_state (s : ScrollState) : calm (with_view (set_state s)).
Proof. intros w. cbn. auto. Qed.

Lemma calm_stateUpdated (e : Env) : calm (stateUpdated e).
Proof.
  intros w. unfold stateUpdated.
  destruct (negb (mounted (view w))); [auto |]. cbv zeta.
  set (w1 := if _ : bool then refresh e w else w).
  assert (H1 : coord w1 = coord w
               /\ (0 <= itemCount (props w) -> 0 <= itemCount (props w1))
               /\ ((0 <= containerSize (view w))%Q -> (0 <= containerSize (view w1))%Q)).
  { subst w1. destruct (_ || _); [apply calm_refresh | auto]. }
  match goal with
  | |- context [if ?b then scrollTo ?v e w1 else w1] =>
      set (w2 := if b then scrollTo v e w1 else w1);
      assert (H2 : coord w2 = coord w1
                   /\ (0 <= itemCount (props w1) -> 0 <= itemCount (props w2))
                   /\ ((0 <= containerSize (view w1))%Q
                       -> (0 <= containerSize (view w2))%Q))
        by (subst w2; destruct b; [apply calm_scrollTo | auto])
  end.
  clearbody w2 w1. destruct H1 as (? & ? & ?), H2 as (? & ? & ?).
  cbn. split; [congruence |]. split; auto.
Qed.

Lemma calm_propsUpdated (e : Env) : calm (propsUpdated e).
Proof.
  intros w. unfold propsUpdated.
  destruct (negb (mounted (view w))); [auto |]. cbv beta zeta.
  set (w1 := if _ : bool then _ else w).
  assert (H1 : coord w1 = coord w
               /\ (0 <= itemCount (props w) -> 0 <= itemCount (props w1))
               /\ ((0 <= containerSize (view w))%Q -> (0 <= containerSize (view w1))%Q)).
  { subst w1. destruct (_ || _); [| auto].
    match goal with
    | |- context [recomputeSizes 0 e (if ?b then containerPropUpdated ?x else ?x)] =>
        apply (calm_comp (fun w0 => if b then containerPropUpdated
                                              (with_host (emit (MgrUpdateConfig
                                                 (configLiteral (itemCount (props w0)) w0))) w0)
                                    else with_host (emit (MgrUpdateConfig
                                                 (configLiteral (itemCount (props w0)) w0))) w0)
                         (recomputeSizes 0 e)); [| apply calm_recomputeSizes]
    end.
    intros w0. destruct (negb _).
    - destruct (calm_containerPropUpdated
                  (with_host (emit (MgrUpdateConfig
                                      (configLiteral (itemCount (props w0)) w0))) w0))
        as (Ha & Hb & Hc). cbn in *. auto.
    - cbn. auto. }
  clearbody w1. destruct H1 as (Hc1 & Hi1 & Hs1).
  set (w2 := if optQ_neq _ _ then _ else _).
  assert (H2 : coord w2 = coord w1
               /\ (0 <= itemCount (props w1) -> 0 <= itemCount (props w2))
               /\ ((0 <= containerSize (view w1))%Q -> (0 <= containerSize (view w2))%Q)).
  { subst w2. destruct (optQ_neq _ _); [cbn; auto |].
    destruct (scrollToIndex (props w1)); [| auto].
    destruct (_ || _); [| auto]. cbn. auto. }
  clearbody w2. destruct H2 as (Hc2 & Hi2 & Hs2).
  cbn. split; [congruence |]. split; auto.
Qed.

Lemma calm_itemsChanged (e : Env) : calm (itemsChanged e).
Proof.
  intros w. unfold itemsChanged.
  destruct (mounted (view w) && _); [| auto]. cbv zeta.
  set (w1 := with_view (set_prevItemsLength _) w).
  set (w2 := if _ =? _ then _ else w1).
  assert (H2 : coord w2 = coord w
               /\ (0 <= itemCount (props w) -> 0 <= itemCount (props w2))
               /\ ((0 <= containerSize (view w))%Q -> (0 <= containerSize (view w2))%Q)).
  { subst w2 w1. destruct (_ =? _); cbn; repeat split; auto. intros _. lia. }
  clearbody w2. clear w1. destruct H2 as (Hc2 & Hi2 & Hs2).
  set (w3 := if _ && _ then _ else w2).
  assert (H3 : coord w3 = coord w2 /\ props w3 = props w2
               /\ containerSize (view w3) = containerSize (view w2)).
  { subst w3. destruct (_ && _); cbn; auto. }
  clearbody w3. destruct H3 as (Hc3 & Hp3 & Hs3).
  match goal with
  | |- context [refresh e ?x] =>
      destruct (calm_refresh e x) as (Hc4 & Hi4 & Hs4);
      set (w4 := refresh e x) in *
  end.
  clearbody w4. cbn in *. rewrite Hp3, Hs3 in *.
  split; [congruence |]. split; auto.
Qed.

Lemma calm_clampItemCount : calm clampItemCount.
Proof.
  intros w. unfold clampItemCount. destruct w as [p v c h dd]. destruct p. cbn.
  repeat split; auto. intros _. lia.
Qed.

Lemma calm_onMount (e : Env) : calm (onMount e).
Proof.
  intros w. unfold onMount. cbv zeta.
  set (w1 := with_view (set_mounted true) _).
  assert (H1 : coord w1 = coord w /\ props w1 = props w
               /\ containerSize (view w1) = containerSize (view w)).
  { subst w1. destruct (headerOffsetHeight e); cbn; auto. }
  clearbody w1. destruct H1 as (Hc1 & Hp1 & Hs1).
  destruct (calm_containerPropUpdated w1) as (Hc2 & Hi2 & Hs2).
  set (w2 := containerPropUpdated w1) in *. clearbody w2.
  rewrite Hp1, Hs1 in *.
  assert (Hfin : forall v w3,
             coord w3 = coord w2 -> props w3 = props w2 ->
             containerSize (view w3) = containerSize (view w2) ->
             coord (scrollTo v e w3) = coord w
             /\ (0 <= itemCount (props w) -> 0 <= itemCount (props (scrollTo v e w3)))
             /\ ((0 <= containerSize (view w))%Q
                 -> (0 <= containerSize (view (scrollTo v e w3)))%Q)).
  { intros v w3 Hc3 Hp3 Hs3. destruct (calm_scrollTo v e w3) as (Hc4 & Hi4 & Hs4).
    rewrite Hp3, Hs3 in *. split; [congruence |]. split; auto. }
  destruct (scrollOffset (props w2)); [apply Hfin; reflexivity |].
  destruct (scrollToIndex (props w2)).
  - cbn. apply Hfin; reflexivity.
  - split; [congruence |]. split; auto.
Qed.

Lemma calm_mountedUpdated (e : Env) : calm (mountedUpdated e).
Proof.
  unfold mountedUpdated. cbv zeta.
  apply (calm_comp (fun w => stateUpdated e (propsUpdated e (itemsChanged e w)))
                   (recomputeSizes 0 e)); [| apply calm_recomputeSizes].
  apply (calm_comp (fun w => propsUpdated e (itemsChanged e w)) (stateUpdated e));
    [| apply calm_stateUpdated].
  apply (calm_comp (itemsChanged e) (propsUpdated e));
    [apply calm_itemsChanged | apply calm_propsUpdated].
Qed.

Lemma calm_onDestroy : calm onDestroy.
Proof.
  intros w. unfold onDestroy. destruct (mounted (view w)); [| auto]. cbv zeta.
  destruct (scrollWrapper _); cbn; auto.
Qed.

Lemma calm_sane (f : World -> World) (w : World) : calm f -> sane w -> sane (f w).
Proof.
  intros Hf (Hi & Hs & Hv & Hd). destruct (Hf w) as (Hc & Hi' & Hs').
  unfold sane. rewrite Hc. auto.
Qed.

Lemma Math_sign_range (x : Q) : -1 <= Math_sign x <= 1.
Proof. unfold Math_sign. destruct (Qnum x); cbn; lia. Qed.

Lemma velocity_nonneg (delta : Q) (timeDiff : Z) :
  1 <= timeDiff -> (0 <= Qabs delta / inject_Z timeDiff)%Q.
Proof.
  intros Ht. apply Qle_shift_div_l.
  - change 0%Q with (inject_Z 0). rewrite <- Zlt_Qlt. lia.
  - rewrite Qmult_0_l. apply Qabs_nonneg.
Qed.

Lemma updateScrollState_sane (c d : Q) (w : World) :
  sane w -> sane (updateScrollState c d w).
Proof.
  intros Hs. unfold updateScrollState. destruct (Qlt_bool _ _); [exact Hs |].
  destruct w as [p v [dir vel raf scr endT st lt lo] h dd].
  unfold sane in *. cbn in *. destruct raf; cbn; exact Hs.
Qed.

Lemma handleScroll_sane (target : target) (e : Env) (w : World) :
  sane w -> sane (handleScroll target e w).
Proof.
  intros Hs. unfold handleScroll.
  destruct (foreignTarget _ _); [exact Hs |].
  destruct (Qeq_bool _ _); [exact Hs |]. cbv zeta.
  pose proof (velocity_nonneg (liveOffset w e - lastScrollOffset (coord w))
                (Z.max 1 (Date_now e - lastScrollTime (coord w))) ltac:(lia)) as Hv.
  pose proof (Math_sign_range (liveOffset w e - lastScrollOffset (coord w))) as Hd.
  destruct w as [p v [dir vel raf scr endT st lt lo] [ts fs nt nf ls lg] dd].
  unfold sane in *. cbn in *. destruct Hs as (Hi & Hc & _ & Hdir).
  destruct (negb _).
  - apply updateScrollState_sane. unfold sane. cbn. auto.
  - destruct (_ <? _).
    + destruct st; cbn; auto.
    + match goal with
      | |- context [updateScrollState ?c ?d ?x] =>
          assert (Hm : sane (updateScrollState c d x))
            by (apply updateScrollState_sane; unfold sane; cbn; auto);
          set (wm := updateScrollState c d x) in *
      end.
      clearbody wm. unfold sane in Hm. cbn. exact Hm.
Qed.

Lemma runTimer_sane (cb : TimerTask) (e : Env) (w : World) :
  sane w -> sane (runTimer cb e w).
Proof.
  intros Hs. unfold runTimer.
  destruct cb; apply updateScrollState_sane; unfold sane in *; cbn; exact Hs.
Qed.

Lemma runFrame_sane (cb : FrameTask) (e : Env) (w : World) :
  sane w -> sane (runFrame cb e w).
Proof.
  intros Hs. destruct cb. unfold sane in *. cbn. exact Hs.
Qed.

Lemma deliver_sane (ev : Event) (w : World) : sane w -> sane (deliver ev w).
Proof.
  intros Hs. destruct ev as [e | target e | e | id e | id e | n e |]; cbn [deliver].
  - destruct (_ || _); [exact Hs |].
    apply (calm_sane (fun w => mountedUpdated e (onMount e w))); [| exact Hs].
    apply (calm_comp (onMount e) (mountedUpdated e));
      [apply calm_onMount | apply calm_mountedUpdated].
  - case_bool_decide; [apply handleScroll_sane |]; exact Hs.
  - case_bool_decide; [apply handleScroll_sane |]; exact Hs.
  - destruct (timers (host w) !! id) as [[due cb] |]; [| exact Hs].
    destruct (due <=? Date_now e); [| exact Hs].
    apply runTimer_sane. exact Hs.
  - destruct (frames (host w) !! id) as [cb |]; [| exact Hs].
    apply (calm_sane (stateUpdated e)); [apply calm_stateUpdated |].
    apply runFrame_sane. exact Hs.
  - destruct (destroyed w); [exact Hs |]. unfold setItemCount. cbv zeta.
    apply (calm_sane (fun w => stateUpdated e (propsUpdated e (itemsChanged e w)))).
    + apply (calm_comp (fun w => propsUpdated e (itemsChanged e w)) (stateUpdated e));
        [| apply calm_stateUpdated].
      apply (calm_comp (itemsChanged e) (propsUpdated e));
        [apply calm_itemsChanged | apply calm_propsUpdated].
    + destruct w as [p v c h dd]. destruct p. unfold sane in *. cbn in *.
      repeat split; try apply Hs. lia.
  - destruct (destroyed w); [exact Hs |].
    apply (calm_sane (fun w => set_destroyed true (onDestroy w))); [| exact Hs].
    apply (calm_comp onDestroy (set_destroyed true)); [apply calm_onDestroy |].
    intros w0. cbn. auto.
Qed.

Lemma init_sane (p : Props) (offset0 : Q) (e : Env) : sane (init p offset0 e).
Proof.
  unfold init. cbv zeta.
  match goal with
  | |- context [refresh e ?x] =>
      destruct (calm_refresh e x) as (Hc & _ & Hs);
      set (w1 := refresh e x) in *
  end.
  assert (Hs' : (0 <= containerSize (view w1))%Q) by (apply Hs; cbn; discriminate).
  clearbody w1. destruct w1 as [p1 v1 c1 h1 d1]. destruct p1.
  unfold sane, clampItemCount. cbn in *. subst c1. cbn.
  repeat split; try assumption; try lia; discriminate.
Qed.

(** X24.  In every state the component reaches, [itemCount],
    [containerSize] and [scrollVelocity] are not negative and
    [lastScrollDirection] is -1, 0 or 1. *)
Theorem coordinator_numbers_stay_in_range
    (p : Props) (offset0 : Q) (e0 : Env) (evs : list Event) :
  let w := run evs (init p offset0 e0) in
  0 <= itemCount (props w)
  /\ (0 <= containerSize (view w))%Q
  /\ (0 <= scrollVelocity (coord w))%Q
  /\ -1 <= lastScrollDirection (coord w) <= 1.
Proof.
  cbv zeta. fold (sane (run evs (init p offset0 e0))).
  generalize (init_sane p offset0 e0). generalize (init p offset0 e0).
  induction evs as [| ev evs IH]; intros w Hs; [exact Hs |].
  cbn. apply IH. apply deliver_sane. exact Hs.
Qed.
End Ranges.

(** * The two simpler variants *)

Lemma Basic_updateScrollState_frames (c : Q) (w : Basic.World) (id : positive)
    (f : Basic.FrameTask) :
  frames (Basic.host w) !! nextFrame (Basic.host w) = None ->
  frames (Basic.host w) !! id = Some f ->
  frames (Basic.host (Basic.updateScrollState c w)) !! id = Some f.
Proof.
  intros Hfresh Hid. unfold Basic.updateScrollState.
  destruct (Qlt_bool _ _); [exact Hid |].
  destruct w as [p v co [ts fs nt nf ls lg]]. cbn in *.
  rewrite lookup_insert_ne; [exact Hid |]. congruence.
Qed.

(** X25.  The two simpler variants never cancel a frame: with fresh handles,
    as a browser gives them, a frame once requested stays requested through
    every later scroll event, timer callback, other frame and [onDestroy]. *)
Theorem simpler_variants_never_cancel_a_frame
    (wb : Basic.World) (wp : Plain.World) :
  (frames (Basic.host wb) !! nextFrame (Basic.host wb) = None ->
   forall id f, frames (Basic.host wb) !! id = Some f ->
     (forall target e,
         frames (Basic.host (Basic.handleScroll target e wb)) !! id = Some f)
     /\ (forall cb e, frames (Basic.host (Basic.runTimer cb e wb)) !! id = Some f)
     /\ (forall cb, frames (Basic.host (Basic.runFrame cb wb)) !! id = Some f)
     /\ frames (Basic.host (Basic.onDestroy wb)) !! id = Some f)
  /\ (frames (Plain.host wp) !! nextFrame (Plain.host wp) = None ->
      forall id f, frames (Plain.host wp) !! id = Some f ->
        (forall target e,
            frames (Plain.host (Plain.handleScroll target e wp)) !! id = Some f)
        /\ (forall cb, frames (Plain.host (Plain.runFrame cb wp)) !! id = Some f)
        /\ frames (Plain.host (Plain.onDestroy wp)) !! id = Some f).
Proof.
  split.
  - intros Hfresh id f Hid. split; [| split; [| split]].
    + intros target e. unfold Basic.handleScroll.
      destruct (foreignTarget _ _); [exact Hid |].
      destruct (Qeq_bool _ _); [exact Hid |]. cbv zeta.
      destruct (_ <? _).
      * destruct (Basic.scrollTimeout _); [exact Hid |]. cbn. exact Hid.
      * apply Basic_updateScrollState_frames; cbn; assumption.
    + intros [c] e. cbn. apply Basic_updateScrollState_frames; cbn; assumption.
    + intros [c]. cbn. exact Hid.
    + rewrite Basic_onDestroy_keeps_frames. exact Hid.
  - intros Hfresh id f Hid. split; [| split].
    + intros target e. unfold Plain.handleScroll.
      destruct (Plain.liveOffset wp e); [| exact Hid].
      destruct (_ || _); [exact Hid |]. cbn.
      rewrite lookup_insert_ne; [exact Hid |]. congruence.
    + intros [c]. cbn. exact Hid.
    + rewrite Plain_onDestroy_keeps_frames. exact Hid.
Qed.

(** X26.  In [src/VirtualList.svelte] at most one debounce timer is armed:
    if every armed timer is the one [scrollTimeout] refers to, this is still
    so after [handleScroll]; when that timer fires no timer is left and
    [scrollTimeout] is null; and [onDestroy] of a mounted component leaves no
    timer armed. *)
Theorem Basic_debounce_timer_is_unique (w : Basic.World) :
  (forall id t, timers (Basic.host w) !! id = Some t ->
                Basic.scrollTimeout (Basic.coord w) = Some id) ->
  (size (timers (Basic.host w)) <= 1)%nat
  /\ (forall target e,
        let w' := Basic.handleScroll target e w in
        forall id t, timers (Basic.host w') !! id = Some t ->
                     Basic.scrollTimeout (Basic.coord w') = Some id)
  /\ (forall id due cb e,
        timers (Basic.host w) !! id = Some (due, cb) ->
        let w' := Basic.runTimer cb e (Basic.with_host (takeTimer id) w) in
        timers (Basic.host w') = ∅ /\ Basic.scrollTimeout (Basic.coord w') = None)
  /\ (Basic.mounted (Basic.view w) = true ->
      timers (Basic.host (Basic.onDestroy w)) = ∅).
Proof.
  intros Ht. split; [apply (size_le_1 _ _ Ht) |]. split; [| split].
  - intros target e w'. subst w'. unfold Basic.handleScroll.
    destruct (foreignTarget _ _); [exact Ht |].
    destruct (Qeq_bool _ _); [exact Ht |]. cbv zeta.
    destruct (_ <? _).
    + destruct w as [p v [st lt lo] [ts fs nt nf ls lg]]. cbn in *.
      destruct st as [t0 |]; [exact Ht |]. cbn.
      intros id t E. apply lookup_insert_Some in E.
      destruct E as [[-> _] | [_ E]]; [reflexivity |].
      pose proof (Ht _ _ E). discriminate.
    + unfold Basic.updateScrollState.
      destruct w as [p v [st lt lo] [ts fs nt nf ls lg]]. cbn in *.
      destruct (Qlt_bool _ _); cbn; exact Ht.
  - intros id due cb e Hcb w'. subst w'. destruct cb as [c].
    assert (He : delete id (timers (Basic.host w)) = ∅).
    { apply map_empty. intros i.
      destruct (delete id (timers (Basic.host w)) !! i) as [x |] eqn:E; [| reflexivity].
      apply lookup_delete_Some in E. destruct E as [Hne E].
      pose proof (Ht _ _ E). pose proof (Ht _ _ Hcb). congruence. }
    unfold Basic.runTimer, Basic.updateScrollState.
    destruct w as [p v [st lt lo] [ts fs nt nf ls lg]]. cbn in *.
    destruct (Qlt_bool _ _); cbn; auto.
  - intros Hm. unfold Basic.onDestroy. rewrite Hm. cbv zeta.
    destruct w as [p v [st lt lo] [ts fs nt nf ls lg]]. destruct v as [m sw ? ? ?].
    cbn in *.
    assert (He : timers (clearTimeout_if st (mkHost ts fs nt nf ls lg)) = ∅).
    { apply map_empty. intros i.
      destruct (_ !! i) as [x |] eqn:E; [| reflexivity]. exfalso.
      destruct st as [t0 |]; cbn in E.
      - apply lookup_delete_Some in E. destruct E as [Hne E].
        pose proof (Ht _ _ E). congruence.
      - pose proof (Ht _ _ E). discriminate. }
    destruct sw; cbn; exact He.
Qed.

(** An instance: a sample ten milliseconds after mount arms the one timer of
    [exBasicMounted]. *)
Lemma Basic_debounce_timer_is_unique_witness :
  let w := Basic.handleScroll (Element Wrapper) (exEnv 2000 100) exBasicMounted in
  Basic.scrollTimeout (Basic.coord w) = Some 1%positive
  /\ (forall id t, timers (Basic.host w) !! id = Some t ->
                   Basic.scrollTimeout (Basic.coord w) = Some id)
  /\ (size (timers (Basic.host w)) <= 1)%nat
  /\ timers (Basic.host (Basic.onDestroy w)) = ∅.
Proof.
  intros w.
  assert (H0 : forall id t, timers (Basic.host exBasicMounted) !! id = Some t ->
                            Basic.scrollTimeout (Basic.coord exBasicMounted) = Some id).
  { intros id t E. cbn in E. rewrite lookup_empty in E. discriminate. }
  destruct (Basic_debounce_timer_is_unique exBasicMounted H0) as (_ & Hstep & _).
  pose proof (Hstep (Element Wrapper) (exEnv 2000 100)) as H1. cbv zeta in H1.
  destruct (Basic_debounce_timer_is_unique w H1) as (Hsize & _ & _ & Hdestroy).
  split; [vm_compute; reflexivity |]. split; [exact H1 |]. split; [exact Hsize |].
  apply Hdestroy. vm_compute. reflexivity.
Defined.

(** * Requested offsets *)

Section Requested.
Import Adaptive.

Lemma refresh_scrollWrites (e : Env) (w : World) :
  omap scrollWrite (log (host (refresh e w))) = omap scrollWrite (log (host w))
  /\ scrollWrapper (view (refresh e w)) = scrollWrapper (view w)
  /\ props (refresh e w) = props w
  /\ state (view (refresh e w)) = state (view w).
Proof.
  unfold refresh.
  destruct (getVisibleHeight _ e) as [n |]; [destruct (Qlt_bool 1 _) |]; cbn;
    rewrite !omap_app; cbn; rewrite !app_nil_r; auto.
Qed.

(** X27.  On a mounted component whose [state] has reason [REQUESTED],
    [stateUpdated()] writes the scroll position exactly once when
    [state.offset] differs from [prevState.offset] (the offset, shifted by
    [wrapper.offsetTop] for a vertical list without [height], and never below
    0) and does not write it when the two offsets are equal; [prevState] is
    [state] afterwards. *)
Theorem requested_offset_is_written_once (el : element) (e : Env) (w : World) :
  mounted (view w) = true ->
  scrollChangeReason (state (view w)) = REQUESTED ->
  scrollWrapper (view w) = Some el ->
  let w' := stateUpdated e w in
  let value :=
    if bool_decide (scrollDirection (props w) = vertical)
       && negb (truthy_dim (height (props w)))
    then (offset (state (view w)) + wrapperOffsetTop e)%Q
    else offset (state (view w)) in
  (~ (offset (prevState (view w)) == offset (state (view w)))%Q ->
   omap scrollWrite (log (host w'))
   = omap scrollWrite (log (host w)) ++ [(el, Qmax 0 value)])
  /\ ((offset (prevState (view w)) == offset (state (view w)))%Q ->
      omap scrollWrite (log (host w')) = omap scrollWrite (log (host w)))
  /\ prevState (view w') = state (view w).
Proof.
  intros Hm Hr Hsw w' value. subst w' value. unfold stateUpdated.
  rewrite Hm, Hr. cbn [negb]. cbv zeta.
  rewrite (bool_decide_eq_true_2 (REQUESTED = REQUESTED)) by reflexivity.
  rewrite andb_true_r.
  destruct (Qeq_bool (offset (prevState (view w))) (offset (state (view w)))) eqn:Hq.
  - apply Qeq_bool_iff in Hq. cbn [negb orb].
    set (w1 := if _ : bool then refresh e w else w).
    assert (H1 : omap scrollWrite (log (host w1)) = omap scrollWrite (log (host w))
                 /\ state (view w1) = state (view w)).
    { subst w1. destruct (negb _); [| auto].
      destruct (refresh_scrollWrites e w) as (Ha & _ & _ & Hd). auto. }
    destruct H1 as (Ha & Hd). cbn. rewrite Ha, Hd.
    split; [intros Hn; contradiction |]. split; reflexivity.
  - apply Qeq_bool_false in Hq. cbn [negb orb].
    destruct (refresh_scrollWrites e w) as (Ha & Hb & Hc & Hd).
    set (w1 := refresh e w) in *. clearbody w1.
    unfold scrollTo. rewrite Hb, Hsw, Hc.
    destruct (hasScrollMethod e); cbn; rewrite omap_app, Ha, Hd; cbn;
      (split; [intros _; reflexivity |]; split; [intros Hn; contradiction | reflexivity]).
Qed.

(** An instance: [exAtIndex] after the run of [propsUpdated] that sends it
    back to row 20. *)
Lemma requested_offset_is_written_once_witness :
  let w := propsUpdated (exEnvAtIndex 3000 400) exAtIndex in
  offset (prevState (view w)) = 400%Q
  /\ omap scrollWrite (log (host (stateUpdated (exEnvAtIndex 3000 400) w)))
     = omap scrollWrite (log (host w)) ++ [(Wrapper, 1000%Q)].
Proof.
  intros w.
  assert (Hm : mounted (view w) = true) by (vm_compute; reflexivity).
  assert (Hr : scrollChangeReason (state (view w)) = REQUESTED)
    by (vm_compute; reflexivity).
  assert (Hs : scrollWrapper (view w) = Some Wrapper) by (vm_compute; reflexivity).
  destruct (requested_offset_is_written_once Wrapper (exEnvAtIndex 3000 400) w Hm Hr Hs)
    as (Hw & _ & _).
  split; [vm_compute; reflexivity |].
  rewrite Hw; [vm_compute; reflexivity |].
  vm_compute. discriminate.
Defined.
End Requested.

